(** * The response-assembly engine of the OpenAI polisher plugin

    A shallow embedding of [src/main.ts]: the streaming frame assembler
    ([streamHandler], [handleStreamResponse]), the response normalizer
    ([handleGeneralResponse]), the request builder ([buildRequestBody],
    [generateSystemPrompt]), the [translate] entry point and the validation
    probe ([pluginValidate]).

    JavaScript strings are sequences of UTF-16 code units; callbacks and
    calls to collaborators are recorded, in order, in a trace of events. *)

From Stdlib Require Import List ZArith NArith String Ascii Bool Lia.
From stdpp Require Import base option list gmap.
Import ListNotations.

Set Warnings "-register-all".

(** ** JavaScript strings *)

Module Js.

(** A string is its sequence of UTF-16 code units. *)
Abbreviation jsstring := (list N).

Section Literals.
Local Open Scope N_scope.

(** Code units of a code point (a surrogate pair above the BMP). *)
Definition units_of_code_point (cp : N) : jsstring :=
  if cp <? 65536 then [cp]
  else [55296 + (cp - 65536) / 1024; 56320 + (cp - 65536) mod 1024].

(** Decoding of the UTF-8 bytes of a literal of the development. *)
Fixpoint utf8_units (bs : list N) : jsstring :=
  match bs with
  | [] => []
  | b0 :: t0 =>
      if b0 <? 128 then b0 :: utf8_units t0
      else if b0 <? 224 then
        match t0 with
        | b1 :: t1 => (b0 mod 32 * 64 + b1 mod 64) :: utf8_units t1
        | _ => []
        end
      else if b0 <? 240 then
        match t0 with
        | b1 :: b2 :: t2 =>
            (b0 mod 16 * 4096 + b1 mod 64 * 64 + b2 mod 64) :: utf8_units t2
        | _ => []
        end
      else
        match t0 with
        | b1 :: b2 :: b3 :: t3 =>
            units_of_code_point
              (b0 mod 8 * 262144 + b1 mod 64 * 4096 + b2 mod 64 * 64 + b3 mod 64)
              ++ utf8_units t3
        | _ => []
        end
  end.

(** A literal of the source. *)
Definition lit (s : string) : jsstring :=
  utf8_units (map N_of_ascii (list_ascii_of_string s)).

(** A literal in which the apostrophe stands for the double quote, for
    JSON texts. *)
Definition litq (s : string) : jsstring :=
  map (fun c => if c =? 39 then 34 else c) (lit s).

Definition LF : N := 10.
Definition DQUOTE : N := 34.
End Literals.

Section StringOps.
Local Open Scope N_scope.

Fixpoint jseqb (a b : jsstring) : bool :=
  match a, b with
  | [], [] => true
  | x :: a', y :: b' => (x =? y) && jseqb a' b'
  | _, _ => false
  end.

(** [s.startsWith(p)] *)
Fixpoint startsWith (s p : jsstring) : bool :=
  match p, s with
  | [], _ => true
  | x :: p', y :: s' => (x =? y) && startsWith s' p'
  | _ :: _, [] => false
  end.

(** [s.includes(needle)] *)
Fixpoint includes (s needle : jsstring) : bool :=
  startsWith s needle ||
  match s with
  | [] => false
  | _ :: s' => includes s' needle
  end.

(** [s.endsWith(suffix)] *)
Definition endsWith (s suffix : jsstring) : bool :=
  startsWith (rev s) (rev suffix).

(** [s.slice(n)] for a non-negative [n]. *)
Definition slice_from (s : jsstring) (n : nat) : jsstring := drop n s.

(** [s.slice(0, -k)] for a positive [k]. *)
Definition slice_to_minus (s : jsstring) (k : nat) : jsstring :=
  take (length s - k) s.

(** WhiteSpace and LineTerminator code units, as [String.prototype.trim]
    strips them. *)
Definition isWhiteSpace (c : N) : bool :=
  (c =? 9) || (c =? 10) || (c =? 11) || (c =? 12) || (c =? 13) ||
  (c =? 32) || (c =? 160) || (c =? 5760) ||
  ((8192 <=? c) && (c <=? 8202)) ||
  (c =? 8232) || (c =? 8233) || (c =? 8239) || (c =? 8287) ||
  (c =? 12288) || (c =? 65279).

Fixpoint trimStart (s : jsstring) : jsstring :=
  match s with
  | c :: s' => if isWhiteSpace c then trimStart s' else s
  | [] => []
  end.

Definition trimEnd (s : jsstring) : jsstring := rev (trimStart (rev s)).

(** [s.trim()] *)
Definition trim (s : jsstring) : jsstring := trimEnd (trimStart s).

(** [s.split(sep)] for a one-unit separator: never the empty array. *)
Fixpoint split (sep : N) (s : jsstring) : list jsstring :=
  match s with
  | [] => [[]]
  | c :: s' =>
      if c =? sep then [] :: split sep s'
      else match split sep s' with
           | h :: t => (c :: h) :: t
           | [] => [[c]]
           end
  end.

(** The line terminators, which the [.] of a regular expression (no [s]
    flag) does not match. *)
Definition isLineTerminator (c : N) : bool :=
  (c =? 10) || (c =? 13) || (c =? 8232) || (c =? 8233).
End StringOps.

End Js.
Import Js.


(** ** JSON texts and the values [JSON.parse] builds from them *)

Module Json.

(** A number is kept as its lexeme: its IEEE-754 reading is the runtime's. *)
Inductive json :=
| JNull
| JBool (b : bool)
| JNumber (lexeme : jsstring)
| JString (s : jsstring)
| JArray (elements : list json)
| JObject (members : list (jsstring * json)).

(** The outcome of a parsing function that threads the remaining input. *)
Inductive presult (A : Type) :=
| POk (a : A) (rest : jsstring)
| PSyntaxError
| PFuel.
Arguments POk {A} a rest.
Arguments PSyntaxError {A}.
Arguments PFuel {A}.

Definition pbind {A B} (r : presult A) (k : A -> jsstring -> presult B)
  : presult B :=
  match r with
  | POk a rest => k a rest
  | PSyntaxError => PSyntaxError
  | PFuel => PFuel
  end.

Definition pmap {A B} (f : A -> B) (r : presult A) : presult B :=
  pbind r (fun a rest => POk (f a) rest).

Section Lexer.
Local Open Scope N_scope.

Definition isJsonWs (c : N) : bool :=
  (c =? 32) || (c =? 9) || (c =? 10) || (c =? 13).

Fixpoint skip_ws (s : jsstring) : jsstring :=
  match s with
  | c :: s' => if isJsonWs c then skip_ws s' else s
  | [] => []
  end.

Definition isDigit (c : N) : bool := (48 <=? c) && (c <=? 57).

Definition hexval (c : N) : option N :=
  if isDigit c then Some (c - 48)
  else if (97 <=? c) && (c <=? 102) then Some (c - 87)
  else if (65 <=? c) && (c <=? 70) then Some (c - 55)
  else None.

Definition hex4 (a b c d : N) : option N :=
  match hexval a, hexval b, hexval c, hexval d with
  | Some x, Some y, Some z, Some w => Some (x * 4096 + y * 256 + z * 16 + w)
  | _, _, _, _ => None
  end.

(** The single-character escapes of a JSON string. *)
Definition simple_escape (e : N) : option N :=
  if e =? 34 then Some 34          (* quotation mark *)
  else if e =? 92 then Some 92     (* reverse solidus *)
  else if e =? 47 then Some 47     (* solidus *)
  else if e =? 98 then Some 8      (* b: backspace *)
  else if e =? 102 then Some 12    (* f: form feed *)
  else if e =? 110 then Some 10    (* n: line feed *)
  else if e =? 114 then Some 13    (* r: carriage return *)
  else if e =? 116 then Some 9     (* t: tab *)
  else None.

(** The characters of a string after its opening quote, up to and
    including its closing quote. *)
Fixpoint parse_string_body (s : jsstring) : presult jsstring :=
  match s with
  | [] => PSyntaxError
  | c :: r =>
      if c =? 34 then POk [] r
      else if c =? 92 then
        match r with
        | [] => PSyntaxError
        | e :: r' =>
            if e =? 117 then
              match r' with
              | h1 :: h2 :: h3 :: h4 :: r'' =>
                  match hex4 h1 h2 h3 h4 with
                  | Some u => pmap (cons u) (parse_string_body r'')
                  | None => PSyntaxError
                  end
              | _ => PSyntaxError
              end
            else
              match simple_escape e with
              | Some u => pmap (cons u) (parse_string_body r')
              | None => PSyntaxError
              end
        end
      else if c <? 32 then PSyntaxError
      else pmap (cons c) (parse_string_body r)
  end.

(** The longest run of digits at the front. *)
Fixpoint span_digits (s : jsstring) : jsstring * jsstring :=
  match s with
  | c :: s' =>
      if isDigit c then let (ds, r) := span_digits s' in (c :: ds, r)
      else ([], s)
  | [] => ([], [])
  end.

(** The parts of the number grammar: an optional minus, an integer part
    without leading zero, an optional fraction, an optional exponent. Each
    gives its lexeme and the rest of the input. *)
Definition number_sign (s : jsstring) : jsstring * jsstring :=
  match s with
  | c :: r => if c =? 45 then ([c], r) else ([], s)
  | [] => ([], s)
  end.

Definition number_int (s : jsstring) : option (jsstring * jsstring) :=
  match s with
  | c :: r =>
      if c =? 48 then Some ([c], r)
      else if isDigit c then Some (span_digits s)
      else None
  | [] => None
  end.

Definition number_frac (s : jsstring) : option (jsstring * jsstring) :=
  match s with
  | c :: r =>
      if c =? 46 then
        match span_digits r with
        | ([], _) => None
        | (fs, r') => Some (c :: fs, r')
        end
      else Some ([], s)
  | [] => Some ([], s)
  end.

Definition number_exp (s : jsstring) : option (jsstring * jsstring) :=
  match s with
  | c :: r =>
      if (c =? 101) || (c =? 69) then
        let '(sg, r1) :=
          match r with
          | g :: r0 => if (g =? 43) || (g =? 45) then ([g], r0) else ([], r)
          | [] => ([], r)
          end in
        match span_digits r1 with
        | ([], _) => None
        | (es, r2) => Some (c :: sg ++ es, r2)
        end
      else Some ([], s)
  | [] => Some ([], s)
  end.

Definition parse_number (s : jsstring) : presult jsstring :=
  let '(sign, s1) := number_sign s in
  match number_int s1 with
  | None => PSyntaxError
  | Some (ds, s2) =>
      match number_frac s2 with
      | None => PSyntaxError
      | Some (fs, s3) =>
          match number_exp s3 with
          | None => PSyntaxError
          | Some (es, s4) => POk (sign ++ ds ++ fs ++ es) s4
          end
      end
  end.

(** One of the three literal names. *)
Definition parse_literal (s : jsstring) : presult json :=
  if startsWith s (lit "true") then POk (JBool true) (drop 4 s)
  else if startsWith s (lit "false") then POk (JBool false) (drop 5 s)
  else if startsWith s (lit "null") then POk JNull (drop 4 s)
  else PSyntaxError.
End Lexer.

Section Parser.
Local Open Scope N_scope.

(** Recursive descent, bounded by [fuel] nested calls. *)
Fixpoint parse_value (fuel : nat) (s : jsstring) : presult json :=
  match fuel with
  | O => PFuel
  | S n =>
      match skip_ws s with
      | [] => PSyntaxError
      | c :: r =>
          if c =? 123 then
            match skip_ws r with
            | c' :: r' =>
                if c' =? 125 then POk (JObject []) r'
                else pmap JObject (parse_members n r)
            | [] => PSyntaxError
            end
          else if c =? 91 then
            match skip_ws r with
            | c' :: r' =>
                if c' =? 93 then POk (JArray []) r'
                else pmap JArray (parse_elements n r)
            | [] => PSyntaxError
            end
          else if c =? 34 then pmap JString (parse_string_body r)
          else if (c =? 45) || isDigit c then pmap JNumber (parse_number (c :: r))
          else parse_literal (c :: r)
      end
  end
(** The elements of an array after its [[] or a [,], and its []]. *)
with parse_elements (fuel : nat) (s : jsstring) : presult (list json) :=
  match fuel with
  | O => PFuel
  | S n =>
      pbind (parse_value n s) (fun v r =>
        match skip_ws r with
        | c :: r' =>
            if c =? 44 then pmap (cons v) (parse_elements n r')
            else if c =? 93 then POk [v] r'
            else PSyntaxError
        | [] => PSyntaxError
        end)
  end
(** The members of an object after its [{] or a [,], and its [}]. *)
with parse_members (fuel : nat) (s : jsstring)
  : presult (list (jsstring * json)) :=
  match fuel with
  | O => PFuel
  | S n =>
      match skip_ws s with
      | c :: r =>
          if c =? 34 then
            pbind (parse_string_body r) (fun k r1 =>
              match skip_ws r1 with
              | c1 :: r2 =>
                  if c1 =? 58 then
                    pbind (parse_value n r2) (fun v r3 =>
                      match skip_ws r3 with
                      | c3 :: r4 =>
                          if c3 =? 44 then
                            pmap (cons (k, v)) (parse_members n r4)
                          else if c3 =? 125 then POk [(k, v)] r4
                          else PSyntaxError
                      | [] => PSyntaxError
                      end)
                  else PSyntaxError
              | [] => PSyntaxError
              end)
          else PSyntaxError
      | [] => PSyntaxError
      end
  end.

(** [JSON.parse(text)]: [None] is the SyntaxError. *)
Definition JSON_parse (text : jsstring) : option json :=
  match parse_value (2 * length text + 1) text with
  | POk v rest =>
      match skip_ws rest with
      | [] => Some v
      | _ :: _ => None
      end
  | PSyntaxError => None
  | PFuel => None
  end.
End Parser.

End Json.
Import Json.


(** ** Values at run time *)

Module Value.

(** A value read from a response: [None] is [undefined]. *)
Abbreviation jsval := (option json).

Inductive ErrorName := SyntaxError | TypeError.

(** What the engine decides and the embedding does not compute: the IEEE-754
    reading of number lexemes, and the text of the engine's error messages. *)
Record Runtime := {
  (** the number a JSON lexeme denotes is [+0] or [-0] *)
  Number_isZero : jsstring -> bool;
  (** [Number::toString] of the number a JSON lexeme denotes *)
  Number_toString : jsstring -> jsstring;
  (** [v > 0] for a value that is not an array or a string length *)
  Value_gt_zero : jsval -> bool;
  (** [Boolean(Number(s))] for a string [s] *)
  StringNumber_truthy : jsstring -> bool;
  (** the [message] of a native error *)
  Error_message : ErrorName -> jsstring;
}.

(** The last member of that name wins, as [JSON.parse] defines properties
    in source order. *)
Fixpoint lookup_member (k : jsstring) (ms : list (jsstring * json))
  : option json :=
  match ms with
  | [] => None
  | (k', v) :: ms' =>
      match lookup_member k ms' with
      | Some v' => Some v'
      | None => if jseqb k k' then Some v else None
      end
  end.

(** [v.name] for a property name that is neither an index nor [length]:
    such a name is an own property of an object, or nothing. Reading a
    property of [null] or [undefined] throws. *)
Definition get_field (v : jsval) (name : jsstring) : ErrorName + jsval :=
  match v with
  | None => inl TypeError
  | Some JNull => inl TypeError
  | Some (JObject ms) => inr (lookup_member name ms)
  | Some _ => inr None
  end.

(** [v[0]] *)
Definition get_index0 (v : jsval) : ErrorName + jsval :=
  match v with
  | None => inl TypeError
  | Some JNull => inl TypeError
  | Some (JArray l) => inr (head l)
  | Some (JString s) => inr (match s with c :: _ => Some (JString [c]) | [] => None end)
  | Some (JObject ms) => inr (lookup_member (lit "0") ms)
  | Some _ => inr None
  end.

(** [v?.name] *)
Definition get_field_opt (v : jsval) (name : jsstring) : jsval :=
  match v with
  | Some (JObject ms) => lookup_member name ms
  | _ => None
  end.

Section WithRuntime.
Context (rt : Runtime).

(** [Boolean(v)] *)
Definition truthy (v : jsval) : bool :=
  match v with
  | None => false
  | Some JNull => false
  | Some (JBool b) => b
  | Some (JNumber n) => negb (Number_isZero rt n)
  | Some (JString s) => match s with [] => false | _ :: _ => true end
  | Some (JArray _) => true
  | Some (JObject _) => true
  end.

Fixpoint join (sep : jsstring) (parts : list jsstring) : jsstring :=
  match parts with
  | [] => []
  | [p] => p
  | p :: ps => p ++ sep ++ join sep ps
  end.

Definition sequence_strings (l : list (ErrorName + jsstring))
  : ErrorName + list jsstring :=
  fold_right (fun x acc =>
                match x, acc with
                | inl e, _ => inl e
                | inr _, inl e => inl e
                | inr s, inr ss => inr (s :: ss)
                end) (inr []) l.

(** [ToString(v)]: an array joins its elements with a comma ([null] as the
    empty string); an object of a JSON text is [[object Object]], unless a
    member named [toString] hides the inherited method, which throws. *)
Fixpoint ToString (v : json) : ErrorName + jsstring :=
  match v with
  | JNull => inr (lit "null")
  | JBool b => inr (if b then lit "true" else lit "false")
  | JNumber n => inr (Number_toString rt n)
  | JString s => inr s
  | JArray l =>
      match sequence_strings
              (map (fun x => match x with
                             | JNull => inr []
                             | _ => ToString x
                             end) l) with
      | inl e => inl e
      | inr parts => inr (join (lit ",") parts)
      end
  | JObject ms =>
      match lookup_member (lit "toString") ms with
      | Some _ => inl TypeError
      | None => inr (lit "[object Object]")
      end
  end.

(** [s + v] for a string [s] *)
Definition string_plus (s : jsstring) (v : json) : ErrorName + jsstring :=
  match ToString v with
  | inl e => inl e
  | inr t => inr (s ++ t)
  end.
End WithRuntime.

End Value.
Import Value.

(** ** The host's types, and the trace of calls *)

Module Host.

(** [TextTranslateQuery], without its callbacks: calling one is an event. *)
Record Query := {
  text : jsstring;
  detectFrom : jsstring;
  detectTo : jsstring;
}.

(** The [result] object passed to [onStream] and [onCompletion]. *)
Record TranslateResult := {
  res_from : jsstring;
  res_to : jsstring;
  res_toParagraphs : list jsstring;
}.

Inductive ServiceErrorType := secretKey | param | api | unsupportedLanguage.

(** The object literals handed to the error handlers. *)
Record ServiceError := {
  err_type : ServiceErrorType;
  err_message : jsval;
  err_addition : option jsstring;
  err_troubleshootingLink : option jsstring;
}.

(** [HttpResponse], through what main.ts reads of it: [data],
    [response.statusCode], the truth of [error], and its serialization
    [JSON.stringify(result)]. *)
Record HttpResponse := {
  resp_data : jsval;
  resp_statusCode : Z;
  resp_error : bool;
  resp_stringified : jsstring;
}.

(** What a handler or a [catch] receives as error. *)
Inductive ErrorArg :=
| ArgServiceError (e : ServiceError)
| ArgResponse (r : HttpResponse)
| ArgThrown (e : ErrorName)
| ArgRejection (reason : jsval).

Record Request := {
  req_method : jsstring;
  req_url : jsstring;
  req_header : list (jsstring * jsstring);
  req_body : jsval;
}.

(** The calls main.ts makes to its collaborators, in the order it makes
    them. *)
Inductive Event :=
| HandleGeneralError (arg : ErrorArg)   (* utils: handleGeneralError(query, arg) *)
| HandleValidateError (arg : ErrorArg)  (* utils: handleValidateError(completion, arg) *)
| OnStream (res : TranslateResult)      (* query.onStream({ result }) *)
| OnCompletion (res : TranslateResult)  (* query.onCompletion({ result }) *)
| ValidateCompletion (result : bool)    (* completion({ result }) *)
| HttpRequest (req : Request)           (* $http.request(req) *)
| HttpStreamRequest (req : Request).    (* $http.streamRequest(req) *)

End Host.
Import Host.

(** ** The streaming frame assembler *)

Module Stream.

Section Frames.
Local Open Scope N_scope.

(** The tail [(.*?})\n] of the frame pattern, at the position after its
    literal prefix: the shortest run of characters other than line
    terminators that ends in a closing brace followed by a line feed.
    The result is the captured group. *)
Definition at_line_feed (s : jsstring) : bool :=
  match s with
  | c :: _ => c =? 10
  | [] => false
  end.

Fixpoint lazy_group (s : jsstring) : option jsstring :=
  match s with
  | [] => None
  | c :: r =>
      if (c =? 125) && at_line_feed r then Some [c]
      else if isLineTerminator c then None
      else option_map (cons c) (lazy_group r)
  end.

(** The pattern anchored at the front of [s]. *)
Definition match_here (s : jsstring) : option jsstring :=
  if startsWith s (lit "data: ") then lazy_group (drop 6 s) else None.

(** [s.match(/data: (.*?})\n/)]: the leftmost match, as the pair of
    [match[0]] and [match[1]]. *)
Fixpoint frame_match (s : jsstring) : option (jsstring * jsstring) :=
  match match_here s with
  | Some g => Some (lit "data: " ++ g ++ [10], g)
  | None =>
      match s with
      | [] => None
      | _ :: s' => frame_match s'
      end
  end.
End Frames.

Section Assembler.
Context (rt : Runtime).

(** [choices[0]?.delta?.content] on the parsed data, lines 210-211: the
    delta, or the exception of reading [choices[0]]. *)
Definition content_delta (dataObj : json) : ErrorName + jsval :=
  match get_field (Some dataObj) (lit "choices") with
  | inl e => inl e
  | inr choices =>
      match get_index0 choices with
      | inl e => inl e
      | inr choice0 =>
          inr (get_field_opt (get_field_opt choice0 (lit "delta"))
                             (lit "content"))
      end
  end.

(** The body of the [try] of [handleStreamResponse]: the new accumulated
    text and whether the partial callback is called, or the exception. *)
Definition stream_try (targetText textFromResponse : jsstring)
  : ErrorName + (jsstring * bool) :=
  match JSON_parse textFromResponse with
  | None => inl SyntaxError
  | Some dataObj =>
      match content_delta dataObj with
      | inl e => inl e
      | inr delta =>
          match delta with
          | Some d =>
              if truthy rt delta then
                match string_plus rt targetText d with
                | inl e => inl e
                | inr targetText' => inr (targetText', true)
                end
              else inr (targetText, false)
          | None => inr (targetText, false)
          end
      end
  end.

Definition stream_result (query : Query) (targetText : jsstring)
  : TranslateResult :=
  {| res_from := detectFrom query;
     res_to := detectTo query;
     res_toParagraphs := [targetText] |}.

(** The [catch] of [handleStreamResponse]. Every exception of the [try]
    is a native error, for which [isServiceError] holds: it has no [type]
    and no [addition]. *)
Definition stream_catch (error : ErrorName) : ServiceError :=
  {| err_type := param;
     err_message :=
       Some (JString (match Error_message rt error with
                      | [] => lit "Failed to parse JSON"
                      | m => m
                      end));
     err_addition := None;
     err_troubleshootingLink := None |}.

(** [handleStreamResponse(query, targetText, textFromResponse)]: the
    returned text and the calls made. *)
Definition handleStreamResponse (query : Query)
  (targetText textFromResponse : jsstring) : jsstring * list Event :=
  if negb (jseqb textFromResponse (lit "[DONE]")) then
    match stream_try targetText textFromResponse with
    | inr (targetText', true) =>
        (targetText', [OnStream (stream_result query targetText')])
    | inr (targetText', false) => (targetText', [])
    | inl error =>
        (targetText, [HandleGeneralError (ArgServiceError (stream_catch error))])
    end
  else (targetText, []).

(** The two variables the stream handler closes over. *)
Record StreamState := {
  targetText : jsstring;
  buffer : jsstring;
}.

(** The [while (true)] loop of the stream handler, run for at most [fuel]
    iterations. *)
Fixpoint drain (fuel : nat) (query : Query) (st : StreamState)
  : StreamState * list Event :=
  match fuel with
  | O => (st, [])
  | S n =>
      match frame_match (buffer st) with
      | Some (match0, match1) =>
          let textFromResponse := trim match1 in
          let '(targetText', evs) :=
            handleStreamResponse query (targetText st) textFromResponse in
          let '(st', evs') :=
            drain n query
              {| targetText := targetText';
                 buffer := slice_from (buffer st) (length match0) |} in
          (st', evs ++ evs')
      | None => (st, [])
      end
  end.

Definition invalid_token_error : ServiceError :=
  {| err_type := secretKey;
     err_message :=
       Some (JString (lit "配置错误 - 请确保您在插件配置中填入了正确的 API Keys"));
     err_addition := Some (lit "请在插件配置中填写正确的 API Keys");
     err_troubleshootingLink :=
       Some (lit "https://bobtranslate.com/service/translate/openai.html") |}.

(** [streamHandler(streamData)], on [streamData.text]. Every iteration of
    the loop removes a whole match from the buffer, so the length of the
    buffer bounds their number. *)
Definition streamHandler (query : Query) (st : StreamState)
  (streamData_text : option jsstring) : StreamState * list Event :=
  match streamData_text with
  | Some chunk =>
      if includes chunk (lit "Invalid token") then
        (st, [HandleGeneralError (ArgServiceError invalid_token_error)])
      else
        let buffer' := buffer st ++ chunk in
        drain (length buffer') query
          {| targetText := targetText st; buffer := buffer' |}
  | None => (st, [])
  end.

(** The handler driven by the chunks of a stream, in arrival order. *)
Fixpoint feed (query : Query) (st : StreamState)
  (chunks : list (option jsstring)) : StreamState * list Event :=
  match chunks with
  | [] => (st, [])
  | chunk :: chunks' =>
      let '(st', evs) := streamHandler query st chunk in
      let '(st'', evs') := feed query st' chunks' in
      (st'', evs ++ evs')
  end.

Definition initial_state : StreamState :=
  {| targetText := []; buffer := [] |}.

(** The buffer with an arrived chunk appended. *)
Definition push (st : StreamState) (chunk : jsstring) : StreamState :=
  {| targetText := targetText st; buffer := buffer st ++ chunk |}.

(** The handler on a chunk that passes the token check. *)
Definition assemble (query : Query) (st : StreamState) (chunk : jsstring)
  : StreamState * list Event :=
  drain (length (buffer st ++ chunk)) query (push st chunk).

(** [handleStreamResponse] on a sequence of payloads, each trimmed as the
    loop trims its group. *)
Fixpoint decode_all (query : Query) (targetText : jsstring)
  (payloads : list jsstring) : jsstring * list Event :=
  match payloads with
  | [] => (targetText, [])
  | p :: ps =>
      let '(targetText', evs) :=
        handleStreamResponse query targetText (trim p) in
      let '(targetText'', evs') := decode_all query targetText' ps in
      (targetText'', evs ++ evs')
  end.
End Assembler.

(** *** The wire format of a stream *)

(** A chunk passes the token check of the handler. *)
Definition clean (chunk : jsstring) : Prop :=
  includes chunk (lit "Invalid token") = false.

(** The frame of a payload. *)
Definition frame (payload : jsstring) : jsstring :=
  lit "data: " ++ payload ++ [LF].

(** The text of a stream: the frames of its payloads, then the sentinel. *)
Definition stream_text (payloads : list jsstring) : jsstring :=
  concat (map frame payloads) ++ frame (lit "[DONE]").

(** The data of a frame carries the delta [d]: its [choices] is an array
    whose first element is an object, whose [delta] is an object, whose
    [content] is the string [d]. *)
Definition has_content_delta (dataObj : json) (d : jsstring) : Prop :=
  exists ms cm dm others,
    dataObj = JObject ms
    /\ lookup_member (lit "choices") ms = Some (JArray (JObject cm :: others))
    /\ lookup_member (lit "delta") cm = Some (JObject dm)
    /\ lookup_member (lit "content") dm = Some (JString d).

(** A payload on one line that ends in a closing brace, as the serialization
    of an object does. *)
Definition one_line_object (payload : jsstring) : Prop :=
  Forall (fun c => isLineTerminator c = false) payload
  /\ last payload = Some 125%N.

End Stream.
Import Stream.


(** ** The response normalizer *)

Module Normalizer.

Section Cleanup.
Local Open Scope N_scope.

(** The characters of the first group of the pattern: 『 「 and the
    straight and the left curly double quotation marks. *)
Definition isOpeningQuote (c : N) : bool :=
  (c =? 12302) || (c =? 12300) || (c =? 34) || (c =? 8220).

(** The characters of its second group: 』 」 and the straight and the
    right curly double quotation marks. *)
Definition isClosingQuote (c : N) : bool :=
  (c =? 12303) || (c =? 12301) || (c =? 34) || (c =? 8221).

(** The pattern [^(opening)|(closing)$] at one position: [at_start] tells
    whether the position is the start of the input, [s] is the input from
    the position on. The result is the length of the match. *)
Definition quote_match_at (at_start : bool) (s : jsstring) : option nat :=
  match s with
  | c :: r =>
      if at_start && isOpeningQuote c then Some 1%nat
      else if isClosingQuote c && match r with [] => true | _ => false end
      then Some 1%nat
      else None
  | [] => None
  end.

(** [s.replace(pattern, empty)] with the [g] flag: every match, searched
    from the end of the previous one, is dropped. *)
Fixpoint replace_scan (at_start : bool) (s : jsstring) : jsstring :=
  match s with
  | [] => []
  | c :: r =>
      match quote_match_at at_start s with
      | Some _ => replace_scan false r
      | None => c :: replace_scan false r
      end
  end.

Definition replace_quotes (s : jsstring) : jsstring := replace_scan true s.

(** The artifact: a double quotation mark, a space, an equals sign and a
    greater-than sign. *)
Definition arrow_artifact : jsstring := [34; 32; 61; 62].

(** Lines 258-260: the artifact is cut from the end. *)
Definition strip_arrow_artifact (targetText : jsstring) : jsstring :=
  if endsWith targetText arrow_artifact then slice_to_minus targetText 4
  else targetText.

(** The cleanup of lines 252-260 on a string content. *)
Definition cleanup (content : jsstring) : jsstring :=
  strip_arrow_artifact (replace_quotes (trim content)).
End Cleanup.

Section Response.
Context (rt : Runtime).

(** [choices.length === 0] for a truthy [choices]. *)
Definition length_is_zero (v : json) : bool :=
  match v with
  | JArray l => match l with [] => true | _ => false end
  | JString s => match s with [] => true | _ => false end
  | JObject ms =>
      match lookup_member (lit "length") ms with
      | Some (JNumber n) => Number_isZero rt n
      | _ => false
      end
  | _ => false
  end.

Definition no_result_error (result : HttpResponse) : ServiceError :=
  {| err_type := api;
     err_message := Some (JString (lit "接口未返回结果"));
     err_addition := Some (resp_stringified result);
     err_troubleshootingLink := None |}.

(** [choices[0].message.content?.trim()] and the optional chains after
    it, up to [targetText!.split]: the paragraphs, or the exception. *)
Definition paragraphs_of (choices : jsval) : ErrorName + list jsstring :=
  match get_index0 choices with
  | inl e => inl e
  | inr choice0 =>
      match get_field choice0 (lit "message") with
      | inl e => inl e
      | inr message =>
          match get_field message (lit "content") with
          | inl e => inl e
          | inr None => inl TypeError                   (* undefined.split *)
          | inr (Some JNull) => inl TypeError           (* undefined.split *)
          | inr (Some (JString content)) => inr (split LF (cleanup content))
          | inr (Some _) => inl TypeError               (* trim is not a function *)
          end
      end
  end.

(** [handleGeneralResponse(query, result)]: the calls made, and the
    exception thrown if any. *)
Definition handleGeneralResponse (query : Query) (result : HttpResponse)
  : list Event * option ErrorName :=
  match get_field (resp_data result) (lit "choices") with
  | inl e => ([], Some e)
  | inr choices =>
      if negb (truthy rt choices)
         || match choices with Some c => length_is_zero c | None => false end
      then ([HandleGeneralError (ArgServiceError (no_result_error result))], None)
      else
        match paragraphs_of choices with
        | inl e => ([], Some e)
        | inr paragraphs =>
            ([OnCompletion {| res_from := detectFrom query;
                              res_to := detectTo query;
                              res_toParagraphs := paragraphs |}], None)
        end
  end.
End Response.

(** *** The normalizer as the specification words it *)

Section Worded.
Local Open Scope N_scope.

(** The closing character that pairs with an opening one. *)
Definition closing_of (c : N) : option N :=
  if c =? 12302 then Some 12303
  else if c =? 12300 then Some 12301
  else if c =? 34 then Some 34
  else if c =? 8220 then Some 8221
  else None.

(** One matching pair, at the very start and the very end, is removed if
    it is there. *)
Definition strip_matching_pair (s : jsstring) : jsstring :=
  match s with
  | o :: r =>
      match closing_of o, rev r with
      | Some c, last :: middle_rev =>
          if last =? c then rev middle_rev else s
      | _, _ => s
      end
  | [] => []
  end.

Definition worded_normalize (content : jsstring) : list jsstring :=
  split LF (strip_arrow_artifact (strip_matching_pair (trim content))).

(** A leading opening character is removed. *)
Definition strip_leading_quote (s : jsstring) : jsstring :=
  match s with
  | c :: r => if isOpeningQuote c then r else s
  | [] => []
  end.

(** A trailing closing character is removed. *)
Definition strip_trailing_quote (s : jsstring) : jsstring :=
  match rev s with
  | c :: r => if isClosingQuote c then rev r else s
  | [] => []
  end.
End Worded.

(** The first choice of the data of a response has a message whose content
    is the string [content]. *)
Definition has_message_content (data : jsval) (content : jsstring) : Prop :=
  exists ms cm mm others,
    data = Some (JObject ms)
    /\ lookup_member (lit "choices") ms = Some (JArray (JObject cm :: others))
    /\ lookup_member (lit "message") cm = Some (JObject mm)
    /\ lookup_member (lit "content") mm = Some (JString content).

End Normalizer.
Import Normalizer.

(** ** Configuration and the plugin's other modules *)

Module Config.

(** [$option], the values of the plugin's configuration. *)
Record Option := {
  apiKeys : jsstring;
  apiUrl : jsstring;
  apiVersion : jsstring;
  customModel : jsstring;
  customSystemPrompt : jsstring;
  customUserPrompt : jsstring;
  deploymentName : jsstring;
  model : jsstring;
  polishingMode : jsstring;
  stream : jsstring;
}.

Definition with_deploymentName (d : jsstring) (o : Option) : Option :=
  {| apiKeys := apiKeys o; apiUrl := apiUrl o; apiVersion := apiVersion o;
     customModel := customModel o;
     customSystemPrompt := customSystemPrompt o;
     customUserPrompt := customUserPrompt o;
     deploymentName := d;
     model := model o; polishingMode := polishingMode o;
     stream := stream o |}.

(** An entry of [languageMapping]. *)
Record PromptInfo := {
  prompt : jsstring;
  detailed : jsstring;
}.

(** What main.ts imports from [./const], [./lang] and [./utils] and does not
    define: the tables, the choice of a key and the interpolation of the
    templates. *)
Record Imports := {
  langMap : gmap jsstring jsstring;
  languageMapping : gmap jsstring PromptInfo;
  DEFAULT_PROMPT_simplicity : jsstring;
  DEFAULT_PROMPT_detailed : jsstring;
  getApiKey : jsstring -> jsstring;
  replacePromptKeywords : jsstring -> Query -> jsstring;
}.

(** [a || b] on strings *)
Definition or_else (a b : jsstring) : jsstring :=
  match a with
  | [] => b
  | _ :: _ => a
  end.

Definition nonempty (a : jsstring) : bool :=
  match a with
  | [] => false
  | _ :: _ => true
  end.

Section Url.
Local Open Scope N_scope.

Definition isAsciiLetter (c : N) : bool :=
  ((97 <=? c) && (c <=? 122)) || ((65 <=? c) && (c <=? 90)).

Fixpoint skip_letters (s : jsstring) : jsstring :=
  match s with
  | c :: r => if isAsciiLetter c then skip_letters r else s
  | [] => []
  end.

(** The test of the pattern: letters, one at least, then [://], at the
    start, letter case ignored. *)
Definition hasProtocol (url : jsstring) : bool :=
  match url with
  | c :: _ => isAsciiLetter c && startsWith (skip_letters url) (lit "://")
  | [] => false
  end.

(** [ensureHttpsAndNoTrailingSlash(url)] *)
Definition ensureHttpsAndNoTrailingSlash (url : jsstring) : jsstring :=
  let modifiedUrl := if hasProtocol url then url else lit "https://" ++ url in
  if endsWith modifiedUrl (lit "/") then slice_to_minus modifiedUrl 1
  else modifiedUrl.

(** [buildHeader(isAzureServiceProvider, apiKey)] *)
Definition buildHeader (isAzureServiceProvider : bool) (apiKey : jsstring)
  : list (jsstring * jsstring) :=
  [ (lit "Content-Type", lit "application/json");
    (if isAzureServiceProvider then lit "api-key" else lit "Authorization",
     if isAzureServiceProvider then apiKey else lit "Bearer " ++ apiKey) ].
End Url.

End Config.
Import Config.

(** ** The request builder *)

Module Builder.

Section Build.
Context (im : Imports).

(** [generateSystemPrompt(basePrompt, polishingMode, query)] *)
Definition generateSystemPrompt (basePrompt : jsstring)
  (polishingMode : jsstring) (query : Query) : jsstring :=
  let isDetailedPolishingMode := jseqb polishingMode (lit "detailed") in
  let promptInfo :=
    match languageMapping im !! detectFrom query with
    | Some info => info
    | None => {| prompt := DEFAULT_PROMPT_simplicity im;
                 detailed := DEFAULT_PROMPT_detailed im |}
    end in
  let systemPrompt := or_else basePrompt (prompt promptInfo) in
  if isDetailedPolishingMode then systemPrompt ++ detailed promptInfo
  else systemPrompt.

Definition message (role content : jsstring) : json :=
  JObject [(lit "role", JString role); (lit "content", JString content)].

(** [buildRequestBody(model, query)] *)
Definition buildRequestBody (opt : Option) (model : jsstring) (query : Query)
  : json :=
  let systemPrompt :=
    generateSystemPrompt
      (replacePromptKeywords im (customSystemPrompt opt) query)
      (polishingMode opt) query in
  let userPrompt :=
    if nonempty (customUserPrompt opt)
    then replacePromptKeywords im (customUserPrompt opt) query
         ++ lit ":" ++ [LF; LF; DQUOTE] ++ text query ++ [DQUOTE]
    else text query in
  JObject
    [ (lit "model", JString model);
      (lit "temperature", JNumber (lit "0.2"));
      (lit "max_tokens", JNumber (lit "1000"));
      (lit "top_p", JNumber (lit "1"));
      (lit "frequency_penalty", JNumber (lit "1"));
      (lit "presence_penalty", JNumber (lit "1"));
      (lit "messages",
       JArray [message (lit "system") systemPrompt;
               message (lit "user") userPrompt]) ].

(** [{ ...body, stream: true }] *)
Definition with_stream (body : json) : json :=
  match body with
  | JObject ms => JObject (ms ++ [(lit "stream", JBool true)])
  | other => other
  end.
End Build.

End Builder.
Import Builder.

(** ** The plugin's entry points *)

Module Plugin.

(** How the transport answers a request: the promise of [$http.request]
    resolves with a response or rejects. *)
Inductive RequestOutcome :=
| Resolves (result : HttpResponse)
| Rejects (reason : jsval).

(** How it answers a stream request: the texts of the chunks handed to
    [streamHandler], in arrival order ([None] for a chunk without text),
    then [handler] called with the response, or the promise rejected. *)
Record StreamOutcome := {
  stream_chunks : list (option jsstring);
  stream_end : RequestOutcome;
}.

Record Network := {
  request : Request -> RequestOutcome;
  streamRequest : Request -> StreamOutcome;
}.

Section Entry.
Context (rt : Runtime) (im : Imports).

Definition service_error (type : ServiceErrorType) (message : string)
  (addition : string) (link : option string) : ServiceError :=
  {| err_type := type;
     err_message := Some (JString (lit message));
     err_addition := Some (lit addition);
     err_troubleshootingLink := option_map lit link |}.

(** [!langMap.get(query.detectTo)] *)
Definition language_unsupported (query : Query) : bool :=
  match langMap im !! detectTo query with
  | Some name => negb (nonempty name)
  | None => true
  end.

Definition baseUrl_of (opt : Option) : jsstring :=
  ensureHttpsAndNoTrailingSlash
    (or_else (apiUrl opt) (lit "https://api.openai.com")).

(** [baseUrl.includes(openai.azure.com)] *)
Definition isAzureServiceProvider (opt : Option) : bool :=
  includes (baseUrl_of opt) (lit "openai.azure.com").

Definition unsupported_language_error : ServiceError :=
  service_error unsupportedLanguage "不支持该语种" "不支持该语种" None.

Definition custom_model_error : ServiceError :=
  service_error param
    "配置错误 - 请确保您在插件配置中填入了正确的自定义模型名称"
    "请在插件配置中填写自定义模型名称" None.

Definition api_keys_error : ServiceError :=
  service_error secretKey
    "配置错误 - 请确保您在插件配置中填入了正确的 API Keys"
    "请在插件配置中填写 API Keys" None.

Definition deployment_name_error : ServiceError :=
  service_error secretKey
    "配置错误 - 未填写 Deployment Name"
    "请在插件配置中填写 Deployment Name"
    (Some "https://bobtranslate.com/service/translate/azureopenai.html"%string).

(** Lines 272-327 of [translate]: the four checks, none of which
    returns. *)
Definition translate_checks (opt : Option) (query : Query) : list Event :=
  (if language_unsupported query
   then [HandleGeneralError (ArgServiceError unsupported_language_error)]
   else [])
  ++ (if jseqb (model opt) (lit "custom") && negb (nonempty (customModel opt))
      then [HandleGeneralError (ArgServiceError custom_model_error)]
      else [])
  ++ (if negb (nonempty (apiKeys opt))
      then [HandleGeneralError (ArgServiceError api_keys_error)]
      else [])
  ++ (if isAzureServiceProvider opt && negb (nonempty (deploymentName opt))
      then [HandleGeneralError (ArgServiceError deployment_name_error)]
      else []).

(** The path of the request, lines 312-318. *)
Definition translate_path (opt : Option) : jsstring :=
  let apiVersionQuery :=
    if nonempty (apiVersion opt)
    then lit "?api-version=" ++ apiVersion opt
    else lit "?api-version=2023-03-15-preview" in
  if isAzureServiceProvider opt && nonempty (deploymentName opt)
  then lit "/openai/deployments/" ++ deploymentName opt
       ++ lit "/chat/completions" ++ apiVersionQuery
  else if includes (baseUrl_of opt) (lit "gateway.ai.cloudflare.com")
       then lit "/chat/completions"
       else lit "/v1/chat/completions".

(** The request without the [stream] member of its body. *)
Definition translate_request (opt : Option) (query : Query) : Request :=
  let modelValue :=
    if jseqb (model opt) (lit "custom") then customModel opt else model opt in
  {| req_method := lit "POST";
     req_url := baseUrl_of opt ++ translate_path opt;
     req_header :=
       buildHeader (isAzureServiceProvider opt) (getApiKey im (apiKeys opt));
     req_body := Some (buildRequestBody im opt modelValue query) |}.

Definition streaming_request (req : Request) : Request :=
  {| req_method := req_method req;
     req_url := req_url req;
     req_header := req_header req;
     req_body := option_map with_stream (req_body req) |}.

(** The [handler] of the stream request, lines 371-383. *)
Definition stream_end_handler (query : Query) (st : StreamState)
  (result : HttpResponse) : list Event :=
  if (400 <=? resp_statusCode result)%Z
  then [HandleGeneralError (ArgResponse result)]
  else [OnCompletion (stream_result query (targetText st))].

(** The asynchronous part of [translate], lines 334-401. *)
Definition translate_async (opt : Option) (net : Network) (query : Query)
  : list Event :=
  let req := translate_request opt query in
  if StringNumber_truthy rt (stream opt) then
    let out := streamRequest net (streaming_request req) in
    let '(st, evs) := feed rt query initial_state (stream_chunks out) in
    HttpStreamRequest (streaming_request req)
      :: evs
      ++ match stream_end out with
         | Resolves result => stream_end_handler query st result
         | Rejects reason => [HandleGeneralError (ArgRejection reason)]
         end
  else
    HttpRequest req
      :: match request net req with
         | Resolves result =>
             if resp_error result
             then [HandleGeneralError (ArgResponse result)]
             else
               let '(evs, thrown) :=
                 handleGeneralResponse rt query result in
               evs ++ match thrown with
                      | Some e => [HandleGeneralError (ArgThrown e)]
                      | None => []
                      end
         | Rejects reason => [HandleGeneralError (ArgRejection reason)]
         end.

(** [translate(query)]: the calls it makes, in order. *)
Definition translate (opt : Option) (net : Network) (query : Query)
  : list Event :=
  translate_checks opt query ++ translate_async opt net query.

(** *** The validation probe *)

Definition validate_body : json :=
  JObject
    [ (lit "messages",
       JArray
         [ JObject [(lit "content", JString (lit "You are a helpful assistant."));
                    (lit "role", JString (lit "system"))];
           JObject [(lit "content", JString (lit "Test connection."));
                    (lit "role", JString (lit "user"))] ]);
      (lit "max_tokens", JNumber (lit "5")) ].

(** [v.length > 0] for a value that is neither [null] nor [undefined]. *)
Definition length_gt_zero (v : json) : bool :=
  match v with
  | JArray l => match l with [] => false | _ => true end
  | JString s => match s with [] => false | _ => true end
  | JObject ms => Value_gt_zero rt (lookup_member (lit "length") ms)
  | _ => false
  end.

(** The error both handlers report for a response with an [error]. *)
Definition validate_response_error (resp : HttpResponse) (error : jsval)
  (link : string) : ServiceError :=
  {| err_type :=
       if (400 <=? resp_statusCode resp)%Z && (resp_statusCode resp <? 500)%Z
       then param else api;
     err_message := error;
     err_addition := None;
     err_troubleshootingLink := Some (lit link) |}.

(** The [handler] of the Azure probe, lines 73-92: the calls made and the
    exception that escapes it, if any. *)
Definition validate_handler_azure (resp : HttpResponse)
  : list Event * option ErrorName :=
  match get_field (resp_data resp) (lit "error") with
  | inl e => ([], Some e)
  | inr error =>
      if truthy rt error then
        ([HandleValidateError (ArgServiceError
            (validate_response_error resp error
               "https://bobtranslate.com/service/translate/azureopenai.html"))],
         None)
      else
        match get_field (resp_data resp) (lit "choices") with
        | inl e => ([], Some e)
        | inr None => ([], Some TypeError)
        | inr (Some JNull) => ([], Some TypeError)
        | inr (Some choices) =>
            if length_gt_zero choices then ([ValidateCompletion true], None)
            else ([], None)
        end
  end.

(** The [handler] of the OpenAI probe, lines 99-119. *)
Definition validate_handler_openai (resp : HttpResponse)
  : list Event * option ErrorName :=
  match get_field (resp_data resp) (lit "error") with
  | inl e => ([], Some e)
  | inr error =>
      if truthy rt error then
        ([HandleValidateError (ArgServiceError
            (validate_response_error resp error
               "https://bobtranslate.com/service/translate/openai.html"))],
         None)
      else
        match get_field (resp_data resp) (lit "data") with
        | inl e => ([], Some e)
        | inr None => ([], None)
        | inr (Some JNull) => ([], None)
        | inr (Some models) =>
            if length_gt_zero models then ([ValidateCompletion true], None)
            else ([], None)
        end
  end.

(** [pluginValidate(completion)]: the calls made, and the exception that
    escapes a handler, if any. *)
Definition pluginValidate (opt : Option) (net : Network)
  : list Event * option ErrorName :=
  if negb (nonempty (apiKeys opt)) then
    ([HandleValidateError (ArgServiceError
        (service_error secretKey
           "配置错误 - 请确保您在插件配置中填入了正确的 API Keys"
           "请在插件配置中填写正确的 API Keys"
           (Some "https://bobtranslate.com/service/translate/openai.html"%string)))],
     None)
  else
    let apiKey := getApiKey im (apiKeys opt) in
    let baseUrl := baseUrl_of opt in
    let isAzure := includes (apiUrl opt) (lit "openai.azure.com") in
    if isAzure && negb (nonempty (deploymentName opt)) then
      ([HandleValidateError (ArgServiceError
          (service_error secretKey
             "配置错误 - 未填写 Deployment Name"
             "请在插件配置中填写 Deployment Name"
             (Some "https://bobtranslate.com/service/translate/azureopenai.html"%string)))],
       None)
    else
      let apiUrlPath :=
        if isAzure
        then lit "/openai/deployments/" ++ deploymentName opt
             ++ lit "/chat/completions?api-version=2023-05-15"
        else if includes baseUrl (lit "gateway.ai.cloudflare.com")
             then lit "/models" else lit "/v1/models" in
      let header := buildHeader isAzure apiKey in
      let req :=
        {| req_method := if isAzure then lit "POST" else lit "GET";
           req_url := baseUrl ++ apiUrlPath;
           req_header := header;
           req_body := if isAzure then Some validate_body else None |} in
      let '(evs, thrown) :=
        match request net req with
        | Resolves resp =>
            if isAzure then validate_handler_azure resp
            else validate_handler_openai resp
        | Rejects _ => ([], None)
        end in
      (HttpRequest req :: evs, thrown).
End Entry.

(** *** What the error handlers deliver *)

Inductive ErrorKind :=
| KSecretKey | KParam | KApi | KUnsupportedLanguage | KUnknown.

Definition kind_of_type (t : ServiceErrorType) : ErrorKind :=
  match t with
  | secretKey => KSecretKey
  | param => KParam
  | api => KApi
  | unsupportedLanguage => KUnsupportedLanguage
  end.

(** Modelled from the spec: the Error Classifier behind
    [handleGeneralError] and [handleValidateError], which utils.ts defines
    and the sources do not include. A constructed error keeps its kind; a
    response is [param] for a status in [400,500) and [api] otherwise; an
    exception of no recognizable shape is the generic fallback. *)
Definition classify (arg : ErrorArg) : ErrorKind :=
  match arg with
  | ArgServiceError e => kind_of_type (err_type e)
  | ArgResponse r =>
      if (400 <=? resp_statusCode r)%Z && (resp_statusCode r <? 500)%Z
      then KParam else KApi
  | ArgThrown _ => KUnknown
  | ArgRejection _ => KUnknown
  end.

(** An invocation of the completion callback. *)
Inductive Delivery :=
| DeliverError (kind : ErrorKind) (arg : ErrorArg)
| DeliverResult (res : TranslateResult)
| DeliverValid (result : bool).

(** Modelled from the spec: each call of an error handler terminates with
    one ErrorRecord, delivered through the completion callback. The other
    invocations of the callback are those of main.ts itself. *)
Definition delivery_of (ev : Event) : option Delivery :=
  match ev with
  | HandleGeneralError arg => Some (DeliverError (classify arg) arg)
  | HandleValidateError arg => Some (DeliverError (classify arg) arg)
  | OnCompletion res => Some (DeliverResult res)
  | ValidateCompletion b => Some (DeliverValid b)
  | OnStream _ => None
  | HttpRequest _ => None
  | HttpStreamRequest _ => None
  end.

(** The invocations of the completion callback along a trace. *)
Definition deliveries (trace : list Event) : list Delivery :=
  omap delivery_of trace.

Definition is_transport_call (ev : Event) : bool :=
  match ev with
  | HttpRequest _ => true
  | HttpStreamRequest _ => true
  | _ => false
  end.

(** The invocations of the transport along a trace. *)
Definition transport_calls (trace : list Event) : list Event :=
  List.filter is_transport_call trace.

(** The texts the partial-result callback receives along a trace. *)
Definition partials (trace : list Event) : list jsstring :=
  omap (fun ev => match ev with
                  | OnStream res => Some (concat (res_toParagraphs res))
                  | _ => None
                  end) trace.

End Plugin.
Import Plugin.

(** ** Instances for the evaluation of examples *)

Module Samples.

Section SampleRuntime.
Local Open Scope N_scope.

(** The digits of the mantissa of a lexeme. *)
Fixpoint mantissa_digits (lexeme : jsstring) : jsstring :=
  match lexeme with
  | c :: r =>
      if (c =? 101) || (c =? 69) then []
      else if isDigit c then c :: mantissa_digits r
      else mantissa_digits r
  | [] => []
  end.

Definition is_zero_lexeme (lexeme : jsstring) : bool :=
  forallb (fun c => c =? 48) (mantissa_digits lexeme).

Definition is_negative_lexeme (lexeme : jsstring) : bool :=
  match lexeme with
  | c :: _ => c =? 45
  | [] => false
  end.

(** A runtime that reads the numbers of the examples, which are short
    integers in canonical form. *)
Definition sample_runtime : Runtime :=
  {| Number_isZero := is_zero_lexeme;
     Number_toString := fun lexeme => lexeme;
     Value_gt_zero := fun v =>
       match v with
       | Some (JNumber n) => negb (is_zero_lexeme n) && negb (is_negative_lexeme n)
       | Some (JBool b) => b
       | _ => false
       end;
     StringNumber_truthy := fun s =>
       match s with
       | [] => false
       | _ :: _ => forallb isDigit s && negb (is_zero_lexeme s)
       end;
     Error_message := fun e =>
       match e with
       | SyntaxError => lit "Unexpected token in JSON"
       | TypeError => lit "Cannot read properties of undefined"
       end |}.
End SampleRuntime.

Definition sample_query : Query :=
  {| text := lit "Helo wrld";
     detectFrom := lit "en";
     detectTo := lit "en" |}.

(** A language table with two entries, and prompts for one language. *)
Definition sample_imports : Imports :=
  {| langMap :=
       <[lit "en" := lit "English"]> (<[lit "zh-Hans" := lit "简体中文"]> ∅);
     languageMapping :=
       <[lit "zh-Hans" := {| prompt := lit "润色此句";
                             detailed := lit "。请注意要列出更改" |}]> ∅;
     DEFAULT_PROMPT_simplicity :=
       lit "Revise the following sentences to make them more clear, concise, and coherent.";
     DEFAULT_PROMPT_detailed :=
       lit " Please note that you need to list the changes.";
     getApiKey := fun keys => keys;
     replacePromptKeywords := fun template _ => template |}.

Definition sample_option : Option :=
  {| apiKeys := lit "sk-test";
     apiUrl := [];
     apiVersion := [];
     customModel := [];
     customSystemPrompt := [];
     customUserPrompt := [];
     deploymentName := [];
     model := lit "gpt-3.5-turbo";
     polishingMode := lit "simplicity";
     stream := lit "0" |}.

Definition with_stream_option (s : jsstring) (o : Option) : Option :=
  {| apiKeys := apiKeys o; apiUrl := apiUrl o; apiVersion := apiVersion o;
     customModel := customModel o;
     customSystemPrompt := customSystemPrompt o;
     customUserPrompt := customUserPrompt o;
     deploymentName := deploymentName o;
     model := model o; polishingMode := polishingMode o;
     stream := s |}.

Definition with_apiUrl (u : jsstring) (o : Option) : Option :=
  {| apiKeys := apiKeys o; apiUrl := u; apiVersion := apiVersion o;
     customModel := customModel o;
     customSystemPrompt := customSystemPrompt o;
     customUserPrompt := customUserPrompt o;
     deploymentName := deploymentName o;
     model := model o; polishingMode := polishingMode o;
     stream := stream o |}.

(** A stream of two deltas and the sentinel, chunked frame by frame. *)
Definition hi_chunks_by_frame : list jsstring :=
  [ litq "data: {'choices':[{'delta':{'content':'Hi'}}]}" ++ [LF];
    litq "data: {'choices':[{'delta':{'content':' there'}}]}" ++ [LF];
    litq "data: [DONE]" ++ [LF] ].

(** The same stream, chunked across its frame boundaries. *)
Definition hi_chunks_ragged : list jsstring :=
  [ litq "da";
    litq "ta: {'choices':[{'delta':{'content':'Hi'}}]}" ++ [LF]
      ++ litq "data: {'choices':[{'del";
    litq "ta':{'content':' there'}}]}";
    [LF] ++ litq "data: [DONE]" ++ [LF] ].

(** A stream whose one delta is the text of the token check. *)
Definition token_payload : jsstring :=
  litq "{'choices':[{'delta':{'content':'Invalid token'}}]}".

Definition token_chunks_whole : list jsstring :=
  [ stream_text [token_payload] ].

Definition token_chunks_halves : list jsstring :=
  [ litq "data: {'choices':[{'delta':{'content':'Invalid";
    litq " token'}}]}" ++ [LF] ++ litq "data: [DONE]" ++ [LF] ].

(** A configuration for Azure without a deployment name. *)
Definition azure_option : Option :=
  with_apiUrl (lit "polish.openai.azure.com/") sample_option.

(** A query whose target language is not in the table. *)
Definition klingon_query : Query :=
  {| text := lit "Helo wrld"; detectFrom := lit "en"; detectTo := lit "tlh" |}.

(** A response with status 200 and no [error]. *)
Definition ok_response (data : jsval) (stringified : jsstring) : HttpResponse :=
  {| resp_data := data;
     resp_statusCode := 200;
     resp_error := false;
     resp_stringified := stringified |}.

(** A response whose body is the given JSON text. *)
Definition json_response (body : jsstring) : HttpResponse :=
  ok_response (JSON_parse body) (litq "{'data':" ++ body ++ litq "}").

Definition hello_response : HttpResponse :=
  json_response (litq "{'choices':[{'message':{'content':'Hello world'}}]}").

(** A transport that answers every request with one response, and every
    stream request with the given chunks. *)
Definition sample_network (result : HttpResponse)
  (chunks : list jsstring) : Network :=
  {| request := fun _ => Resolves result;
     streamRequest := fun _ =>
       {| stream_chunks := map Some chunks; stream_end := Resolves result |} |}.

(** The payloads of a chat stream: the role, two deltas and the stop, and
    what each carries. *)
Definition chat_payloads : list jsstring :=
  [ litq "{'choices':[{'delta':{'role':'assistant','content':''}}]}";
    litq "{'choices':[{'delta':{'content':'Hi'}}]}";
    litq "{'choices':[{'delta':{'content':' there'}}]}";
    litq "{'choices':[{'delta':{},'finish_reason':'stop'}]}" ].

Definition chat_deltas : list (option jsstring) :=
  [ None; Some (lit "Hi"); Some (lit " there"); None ].

(** The stream of these payloads, cut inside frames and inside the
    sentinel. *)
Definition chat_chunks_ragged : list jsstring :=
  [ litq "data: {'choices':[{'delta':{'role':'assis";
    litq "tant','content':''}}]}" ++ [LF]
      ++ litq "data: {'choices':[{'delta':{'content':'Hi'}}]}" ++ [LF]
      ++ litq "da";
    litq "ta: {'choices':[{'delta':{'content':' there'}}]}";
    [LF] ++ litq "data: {'choices':[{'delta':{},'finish_reason':'stop'}]}"
      ++ [LF] ++ litq "data: [DO";
    litq "NE]" ++ [LF] ].

(** A stream in one chunk whose first frame has a blank between its
    closing brace and its line feed. *)
Definition blank_chunks : list jsstring :=
  [ litq "data: {'choices':[{'delta':{'content':'a'}}]} " ++ [LF]
      ++ litq "data: {'choices':[{'delta':{'content':'X'}}]}" ++ [LF]
      ++ litq "data: {'choices':[{'delta':{'content':'Y'}}]}" ++ [LF]
      ++ litq "data: [DONE]" ++ [LF] ].

(** A configuration whose base URL mentions the Azure host in its path
    only. *)
Definition proxy_option : Option :=
  with_deploymentName (lit "gpt35")
    (with_apiUrl (lit "https://proxy.example.com/openai.azure.com")
       sample_option).

(** A response with status 200 and no body. *)
Definition empty_response : HttpResponse :=
  ok_response None (litq "{'statusCode':200}").

End Samples.
Import Samples.

(** ** Notions for the properties of streams *)

Module Runs.

(** The text of a chunk that the handler buffers: a chunk without text, or
    with the text of the token check, brings none. *)
Definition buffered_text (chunk : option jsstring) : jsstring :=
  match chunk with
  | Some c => if includes c (lit "Invalid token") then [] else c
  | None => []
  end.

(** What the handler buffers of a sequence of chunks. *)
Definition kept_text (chunks : list (option jsstring)) : jsstring :=
  concat (map buffered_text chunks).

(** The chunk is reported by the token check. *)
Definition is_token_chunk (chunk : option jsstring) : bool :=
  match chunk with
  | Some c => includes c (lit "Invalid token")
  | None => false
  end.

(** The event is the report of the token check. *)
Definition is_token_report (ev : Event) : bool :=
  match ev with
  | HandleGeneralError (ArgServiceError e) =>
      match err_type e with
      | secretKey => true
      | _ => false
      end
  | _ => false
  end.

(** Each text of the list extends the one before it, the first one
    extends [t]. *)
Fixpoint grows (t : jsstring) (texts : list jsstring) : Prop :=
  match texts with
  | [] => True
  | x :: rest => (exists d, x = t ++ d) /\ grows x rest
  end.

(** What a run of the handler does to the accumulated text: the partial
    results grow from the text before, the last of them is the text
    after, and no call is a report of the token check. *)
Definition text_run (t : jsstring) (evs : list Event) (t' : jsstring) : Prop :=
  grows t (partials evs)
  /\ List.last (partials evs) t = t'
  /\ Forall (fun ev => is_token_report ev = false) evs.

(** The text does not start with white space. *)
Definition starts_clean (s : jsstring) : Prop :=
  match s with
  | c :: _ => isWhiteSpace c = false
  | [] => True
  end.

(** The error calls of a trace. *)
Definition error_calls (trace : list Event) : list ErrorArg :=
  omap (fun ev => match ev with
                  | HandleGeneralError arg => Some arg
                  | HandleValidateError arg => Some arg
                  | _ => None
                  end) trace.

(** The data of a frame carries no content: its [choices] is an empty
    array, or the first choice is an object without [delta], or with a
    [delta] object whose [content] is absent, null or the empty string. *)
Definition has_no_content_delta (dataObj : json) : Prop :=
  exists ms,
    dataObj = JObject ms
    /\ (lookup_member (lit "choices") ms = Some (JArray [])
        \/ exists cm others,
             lookup_member (lit "choices") ms
               = Some (JArray (JObject cm :: others))
             /\ (lookup_member (lit "delta") cm = None
                 \/ exists dm,
                      lookup_member (lit "delta") cm = Some (JObject dm)
                      /\ (lookup_member (lit "content") dm = None
                          \/ lookup_member (lit "content") dm = Some JNull
                          \/ lookup_member (lit "content") dm
                               = Some (JString [])))).

(** A frame of a well-formed stream and the delta it carries: the payload
    stands on one line and ends in its closing brace, and is the JSON text
    of data with the non-empty content [d], or of data without content. *)
Definition frame_carries (payload : jsstring) (delta : option jsstring)
  : Prop :=
  one_line_object payload
  /\ exists dataObj,
       JSON_parse (trim payload) = Some dataObj
       /\ match delta with
          | Some d => has_content_delta dataObj d /\ d <> []
          | None => has_no_content_delta dataObj
          end.

(** The deltas of the frames, one after the other. *)
Fixpoint deltas_text (deltas : list (option jsstring)) : jsstring :=
  match deltas with
  | [] => []
  | Some d :: rest => d ++ deltas_text rest
  | None :: rest => deltas_text rest
  end.

(** The accumulated text after each delta, from the text [t]. *)
Fixpoint running_texts (t : jsstring) (deltas : list (option jsstring))
  : list jsstring :=
  match deltas with
  | [] => []
  | Some d :: rest => (t ++ d) :: running_texts (t ++ d) rest
  | None :: rest => running_texts t rest
  end.

(** What follows the first [://] of a URL, if it has one. *)
Fixpoint after_scheme (url : jsstring) : option jsstring :=
  match url with
  | [] => None
  | _ :: rest =>
      if startsWith url (lit "://") then Some (drop 3 url)
      else after_scheme rest
  end.

(** The text up to the first slash, question mark or hash. *)
Fixpoint authority (s : jsstring) : jsstring :=
  match s with
  | [] => []
  | c :: rest =>
      if ((c =? 47) || (c =? 63) || (c =? 35))%N then []
      else c :: authority rest
  end.

(** The host of a URL, as the claim about the Azure provider means it:
    what stands between the scheme and the path, the query or the
    fragment. *)
Definition host_of (url : jsstring) : jsstring :=
  authority (match after_scheme url with Some rest => rest | None => url end).

(** The body of a response has no usable choices: it is not an object, or
    an object whose [choices] is absent, null or an empty array. A body
    that is null is no body. *)
Definition choices_absent_or_empty (data : json) : Prop :=
  match data with
  | JNull => False
  | JObject ms =>
      lookup_member (lit "choices") ms = None
      \/ lookup_member (lit "choices") ms = Some JNull
      \/ lookup_member (lit "choices") ms = Some (JArray [])
  | _ => True
  end.

End Runs.
Import Runs.

(** ** The legacy variant, src/main.js *)

Module Legacy.

(** [Math.floor(Math.random() * n)], which is below [n] for a positive
    [n]. *)
Record Random := {
  pick : nat -> nat;
  pick_lt : forall n, 0 < n -> pick n < n;
}.

(** The [error] object handed to [completion]; its third member is spelt
    [addtion] in the source. *)
Record CompletionError := {
  cerr_type : json;
  cerr_message : json;
  cerr_addtion : jsval;
}.

(** The calls of main.js, in order. *)
Inductive LEvent :=
| CompleteError (e : CompletionError)     (* completion({ error }) *)
| CompleteResult (res : TranslateResult)  (* completion({ result }) *)
| Requested (req : Request).              (* $http.request(req) *)

Definition ChatGPTModels : list jsstring :=
  [ lit "gpt-3.5-turbo"; lit "gpt-3.5-turbo-0301"; lit "gpt-4";
    lit "gpt-4-0314"; lit "gpt-4-32k"; lit "gpt-4-32k-0314" ].

(** [ChatGPTModels.includes(model)] *)
Definition isChatGPTModel (model : jsstring) : bool :=
  existsb (jseqb model) ChatGPTModels.

(** The prompt and the suffix of the detailed mode that the [switch] of
    [generateSystemPrompt] has for a language. *)
Definition language_prompt (detectFrom : jsstring)
  : option (jsstring * jsstring) :=
  if jseqb detectFrom (lit "zh-Hant") then
    Some (lit "潤色此句", lit "。請列出修改項目，並簡述修改原因")
  else if jseqb detectFrom (lit "zh-Hans") then
    Some (lit "润色此句", lit "。请注意要列出更改以及简要解释一下为什么这么修改")
  else if jseqb detectFrom (lit "ja") then
    Some (lit "この文章を装飾する",
          lit "。変更点をリストアップし、なぜそのように変更したかを簡単に説明することに注意してください")
  else if jseqb detectFrom (lit "ru") then
    Some (lit "Переформулируйте следующие предложения, чтобы они стали более ясными, краткими и связными",
          lit ". Пожалуйста, обратите внимание на необходимость перечисления изменений и краткого объяснения причин таких изменений")
  else if jseqb detectFrom (lit "wyw") then
    Some (lit "润色此句古文", lit "。请注意要列出更改以及简要解释一下为什么这么修改")
  else if jseqb detectFrom (lit "yue") then
    Some (lit "潤色呢句粵語", lit "。記住要列出修改嘅內容同簡單解釋下點解要做呢啲更改")
  else None.

(** [generateSystemPrompt(basePrompt, polishingMode, query)], lines 46-94. *)
Definition generateSystemPrompt (basePrompt polishingMode : jsstring)
  (query : Query) : jsstring :=
  let systemPrompt :=
    or_else basePrompt
      (lit "Revise the following sentences to make them more clear, concise, and coherent.") in
  let isDetailedPolishingMode := jseqb polishingMode (lit "detailed") in
  let systemPrompt :=
    if isDetailedPolishingMode
    then systemPrompt
         ++ lit ". Please note that you need to list the changes and briefly explain why"
    else systemPrompt in
  match language_prompt (detectFrom query) with
  | Some (p, suffix) => if isDetailedPolishingMode then p ++ suffix else p
  | None => systemPrompt
  end.

(** [buildRequestBody(model, isChatGPTModel, query)], lines 114-148. *)
Definition buildRequestBody (opt : Option) (model : jsstring)
  (isChat : bool) (query : Query) : json :=
  let systemPrompt :=
    generateSystemPrompt (customSystemPrompt opt) (polishingMode opt) query in
  let userPrompt :=
    if nonempty (customUserPrompt opt)
    then customUserPrompt opt ++ lit ":" ++ [LF; LF; DQUOTE]
         ++ text query ++ [DQUOTE]
    else text query in
  let standardBody :=
    [ (lit "model", JString model);
      (lit "temperature", JNumber (lit "0"));
      (lit "max_tokens", JNumber (lit "1000"));
      (lit "top_p", JNumber (lit "1"));
      (lit "frequency_penalty", JNumber (lit "1"));
      (lit "presence_penalty", JNumber (lit "1")) ] in
  if isChat then
    JObject
      (standardBody
       ++ [(lit "messages",
            JArray
              [ JObject [(lit "role", JString (lit "system"));
                         (lit "content", JString systemPrompt)];
                JObject [(lit "role", JString (lit "user"));
                         (lit "content", JString userPrompt)] ])])
  else
    JObject
      (standardBody
       ++ [(lit "prompt",
            JString (systemPrompt ++ [LF; LF] ++ userPrompt))]).

Section WithRuntime.
Context (rt : Runtime) (im : Imports) (rnd : Random).

(** The text a template literal makes of a value. *)
Definition template_text (v : jsval) : ErrorName + jsstring :=
  match v with
  | None => inr (lit "undefined")
  | Some j => ToString rt j
  end.

(** [handleError(completion, result)], lines 155-165: the calls made, and
    the exception thrown if any. *)
Definition handleError (result : HttpResponse)
  : list LEvent * option ErrorName :=
  let reason :=
    if (400 <=? resp_statusCode result)%Z && (resp_statusCode result <? 500)%Z
    then lit "param" else lit "api" in
  match get_field (resp_data result) (lit "error") with
  | inl e => ([], Some e)
  | inr error =>
      match get_field error (lit "message") with
      | inl e => ([], Some e)
      | inr message =>
          match template_text message with
          | inl e => ([], Some e)
          | inr m =>
              ([CompleteError
                  {| cerr_type := JString reason;
                     cerr_message := JString (lit "接口响应错误 - " ++ m);
                     cerr_addtion := Some (JString (resp_stringified result)) |}],
               None)
          end
      end
  end.

(** [x.trim()] on a value *)
Definition trim_value (v : jsval) : ErrorName + jsstring :=
  match v with
  | Some (JString s) => inr (trim s)
  | _ => inl TypeError
  end.

(** The text of the first choice, line 188. *)
Definition first_text (isChat : bool) (choices : jsval)
  : ErrorName + jsstring :=
  match get_index0 choices with
  | inl e => inl e
  | inr choice0 =>
      if isChat then
        match get_field choice0 (lit "message") with
        | inl e => inl e
        | inr message =>
            match get_field message (lit "content") with
            | inl e => inl e
            | inr content => trim_value content
            end
        end
      else
        match get_field choice0 (lit "text") with
        | inl e => inl e
        | inr t => trim_value t
        end
  end.

(** [handleResponse(completion, isChatGPTModel, query, result)], lines
    174-197. *)
Definition handleResponse (isChat : bool) (query : Query)
  (result : HttpResponse) : list LEvent * option ErrorName :=
  match get_field (resp_data result) (lit "choices") with
  | inl e => ([], Some e)
  | inr choices =>
      if negb (truthy rt choices)
         || match choices with Some c => length_is_zero rt c | None => false end
      then
        ([CompleteError
            {| cerr_type := JString (lit "api");
               cerr_message := JString (lit "接口未返回结果");
               cerr_addtion := Some (JString (resp_stringified result)) |}],
         None)
      else
        match first_text isChat choices with
        | inl e => ([], Some e)
        | inr targetText =>
            ([CompleteResult
                {| res_from := detectFrom query;
                   res_to := detectTo query;
                   res_toParagraphs := split LF targetText |}], None)
        end
  end.

(** The keys among which one is drawn, lines 224-225. *)
Definition apiKeySelection (apiKeys : jsstring) : list jsstring :=
  let trimmedApiKeys :=
    if endsWith apiKeys (lit ",") then slice_to_minus apiKeys 1 else apiKeys in
  map trim (split 44%N trimmedApiKeys).

(** The key drawn, line 226. *)
Definition apiKey_of (apiKeys : jsstring) : jsstring :=
  nth (pick rnd (length (apiKeySelection apiKeys))) (apiKeySelection apiKeys) [].

Definition legacy_baseUrl (opt : Option) : jsstring :=
  ensureHttpsAndNoTrailingSlash
    (or_else (apiUrl opt) (lit "https://api.openai.com")).

(** The path of the request, lines 232-247. *)
Definition legacy_path (opt : Option) : jsstring :=
  let isChat := isChatGPTModel (model opt) in
  if includes (legacy_baseUrl opt) (lit "openai.azure.com")
     && nonempty (deploymentName opt)
  then lit "/openai/deployments/" ++ deploymentName opt
       ++ (if isChat
           then lit "/chat/completions?api-version=2023-03-15-preview"
           else lit "/completions?api-version=2022-12-01")
  else if isChat then lit "/v1/chat/completions" else lit "/v1/completions".

Definition legacy_request (opt : Option) (query : Query) : Request :=
  {| req_method := lit "POST";
     req_url := legacy_baseUrl opt ++ legacy_path opt;
     req_header :=
       buildHeader (includes (legacy_baseUrl opt) (lit "openai.azure.com"))
         (apiKey_of (apiKeys opt));
     req_body :=
       Some (buildRequestBody opt (model opt)
               (isChatGPTModel (model opt)) query) |}.

(** The checks of [translate], lines 203-247, none of which returns. *)
Definition legacy_checks (opt : Option) (query : Query) : list LEvent :=
  (if language_unsupported im query
   then [CompleteError
           {| cerr_type := JString (lit "unsupportLanguage");
              cerr_message := JString (lit "不支持该语种");
              cerr_addtion := Some (JString (lit "不支持该语种")) |}]
   else [])
  ++ (if negb (nonempty (apiKeys opt))
      then [CompleteError
              {| cerr_type := JString (lit "secretKey");
                 cerr_message :=
                   JString (lit "配置错误 - 请确保您在插件配置中填入了正确的 API Keys");
                 cerr_addtion := Some (JString (lit "请在插件配置中填写 API Keys")) |}]
      else [])
  ++ (if includes (legacy_baseUrl opt) (lit "openai.azure.com")
         && negb (nonempty (deploymentName opt))
      then [CompleteError
              {| cerr_type := JString (lit "secretKey");
                 cerr_message := JString (lit "配置错误 - 未填写 Deployment Name");
                 cerr_addtion :=
                   Some (JString (lit "请在插件配置中填写 Deployment Name")) |}]
      else []).

(** [v || fallback] for a member of the caught value *)
Definition member_or (v : jsval) (fallback : jsstring) : json :=
  match v with
  | Some j => if truthy rt v then j else JString fallback
  | None => JString fallback
  end.

(** The [catch] of [translate], lines 265-273, on a native error, which
    has none of the three members. *)
Definition catch_native : list LEvent :=
  [CompleteError {| cerr_type := JString (lit "unknown");
                    cerr_message := JString (lit "未知错误");
                    cerr_addtion := None |}].

(** The [catch] on the reason of a rejected promise: reading a member of
    [undefined] or [null] throws inside the handler, and nothing is
    called. *)
Definition catch_reason (reason : jsval) : list LEvent :=
  match reason with
  | None => []
  | Some JNull => []
  | Some _ =>
      [CompleteError
         {| cerr_type := member_or (get_field_opt reason (lit "_type")) (lit "unknown");
            cerr_message := member_or (get_field_opt reason (lit "_message")) (lit "未知错误");
            cerr_addtion := get_field_opt reason (lit "_addition") |}]
  end.

(** [translate(query, completion)], lines 202-274. *)
Definition translate (opt : Option) (net : Network) (query : Query)
  : list LEvent :=
  let req := legacy_request opt query in
  legacy_checks opt query
  ++ Requested req
     :: match request net req with
        | Resolves result =>
            let '(evs, thrown) :=
              if resp_error result then handleError result
              else handleResponse (isChatGPTModel (model opt)) query result in
            evs ++ match thrown with
                   | Some _ => catch_native
                   | None => []
                   end
        | Rejects reason => catch_reason reason
        end.
End WithRuntime.

(** The completions of a trace. *)
Definition completions (trace : list LEvent) : list LEvent :=
  List.filter (fun ev => match ev with Requested _ => false | _ => true end)
    trace.

(** The requests of a trace. *)
Definition requests (trace : list LEvent) : list LEvent :=
  List.filter (fun ev => match ev with Requested _ => true | _ => false end)
    trace.

(** A source of draws that always takes the first key. *)
Definition first_pick : Random :=
  {| pick := fun _ => 0; pick_lt := fun n H => H |}.

End Legacy.

(** * Properties *)

(** ** Strings *)

Section StringFacts.
Local Open Scope N_scope.

Lemma jseqb_eq (a b : jsstring) : jseqb a b = true <-> a = b.
Proof.
  revert b; induction a as [|x a IH]; intros [|y b]; simpl;
    try (split; congruence).
  rewrite andb_true_iff, N.eqb_eq, IH. split.
  - intros [-> ->]; reflexivity.
  - intros [= -> ->]; auto.
Qed.

Lemma jseqb_refl (a : jsstring) : jseqb a a = true.
Proof. apply jseqb_eq; reflexivity. Qed.

Lemma startsWith_iff (s p : jsstring) :
  startsWith s p = true <-> exists r, s = p ++ r.
Proof.
  revert s; induction p as [|x p IH]; intros s; simpl.
  - split; [intros _; exists s; reflexivity | intros _; destruct s; reflexivity].
  - destruct s as [|y s]; simpl.
    + split; [discriminate | intros [r Hr]; discriminate].
    + rewrite andb_true_iff, N.eqb_eq, IH. split.
      * intros [-> [r ->]]. exists r; reflexivity.
      * intros [r [= -> ->]]. split; [reflexivity | exists r; reflexivity].
Qed.

Lemma startsWith_app (s p b : jsstring) :
  startsWith s p = true -> startsWith (s ++ b) p = true.
Proof.
  rewrite !startsWith_iff. intros [r ->]. exists (r ++ b).
  now rewrite app_assoc.
Qed.

(** A pattern found at the front of an extension either was at the front
    already, or swallows the whole of the shorter string. *)
Lemma startsWith_app_inv (s p b : jsstring) :
  startsWith (s ++ b) p = true ->
  startsWith s p = true \/ forall x, In x s -> In x p.
Proof.
  revert s; induction p as [|x p IH]; intros s; simpl.
  - intros _. left. destruct s; reflexivity.
  - destruct s as [|y s]; simpl.
    + intros _. right. intros ? [].
    + rewrite andb_true_iff. intros [Hxy Hrest].
      destruct (IH _ Hrest) as [Hs | Hin].
      * left. rewrite Hxy, Hs. reflexivity.
      * right. intros z [<- | Hz]; [left; now apply N.eqb_eq in Hxy | right; auto].
Qed.

Lemma includes_app_l (s b needle : jsstring) :
  includes s needle = true -> includes (s ++ b) needle = true.
Proof.
  induction s as [|c s IH]; simpl.
  - rewrite orb_false_r. intros H. destruct needle; [|discriminate].
    destruct b; reflexivity.
  - rewrite !orb_true_iff. intros [H | H].
    + left. now apply (startsWith_app (c :: s)).
    + right. auto.
Qed.
End StringFacts.

(** ** Frames: a match survives the arrival of more text *)

Section FrameFacts.
Local Open Scope N_scope.

Lemma data_prefix : lit "data: " = [100; 97; 116; 97; 58; 32].
Proof. reflexivity. Qed.

Lemma drop_data_prefix (r : jsstring) : drop 6 (lit "data: " ++ r) = r.
Proof. reflexivity. Qed.

Lemma lazy_group_cons (c : N) (r : jsstring) :
  lazy_group (c :: r) =
  if (c =? 125) && at_line_feed r then Some [c]
  else if isLineTerminator c then None
  else option_map (cons c) (lazy_group r).
Proof. reflexivity. Qed.

Lemma at_line_feed_app (r b : jsstring) :
  at_line_feed r = true -> at_line_feed (r ++ b) = true.
Proof. destruct r; [discriminate | auto]. Qed.

Lemma at_line_feed_head (r : jsstring) :
  at_line_feed r = true -> exists post, r = 10 :: post.
Proof.
  destruct r as [|c r]; simpl; [discriminate|].
  intros H. apply N.eqb_eq in H as ->. now exists r.
Qed.

Lemma lazy_group_app (s b g : jsstring) :
  lazy_group s = Some g -> lazy_group (s ++ b) = Some g.
Proof.
  revert g; induction s as [|c r IH]; intros g; [discriminate|].
  rewrite <- app_comm_cons, !lazy_group_cons.
  destruct (c =? 125) eqn:Hc, (at_line_feed r) eqn:Hr; simpl;
    try rewrite (at_line_feed_app _ b Hr); simpl; auto.
  - destruct (at_line_feed (r ++ b)) eqn:Hrb.
    + destruct r as [|c' r']; simpl in Hr, Hrb; [|congruence].
      simpl. destruct (isLineTerminator c); discriminate.
    + destruct (isLineTerminator c); [discriminate|].
      destruct (lazy_group r) as [g'|]; [|discriminate].
      now rewrite (IH g' eq_refl).
  - destruct (isLineTerminator c); [discriminate|].
    destruct (lazy_group r) as [g'|]; [|discriminate].
    now rewrite (IH g' eq_refl).
  - destruct (isLineTerminator c); [discriminate|].
    destruct (lazy_group r) as [g'|]; [|discriminate].
    now rewrite (IH g' eq_refl).
Qed.

(** The group is followed by a line feed. *)
Lemma lazy_group_split (s g : jsstring) :
  lazy_group s = Some g -> exists post, s = g ++ 10 :: post.
Proof.
  revert g; induction s as [|c r IH]; intros g; [discriminate|].
  rewrite lazy_group_cons.
  destruct ((c =? 125) && at_line_feed r) eqn:Hend.
  - intros [= <-]. apply andb_true_iff in Hend as [_ Hr].
    destruct (at_line_feed_head _ Hr) as [post ->]. now exists post.
  - destruct (isLineTerminator c); [discriminate|].
    destruct (lazy_group r) as [g'|]; [|discriminate].
    intros [= <-]. destruct (IH g' eq_refl) as [post ->].
    now exists post.
Qed.

Lemma lazy_group_nonempty (s g : jsstring) :
  lazy_group s = Some g -> g <> [].
Proof.
  destruct s as [|c r]; [discriminate|]. rewrite lazy_group_cons.
  destruct ((c =? 125) && at_line_feed r); [intros [= <-]; discriminate|].
  destruct (isLineTerminator c); [discriminate|].
  destruct (lazy_group r); [|discriminate]. intros [= <-]; discriminate.
Qed.

(** A group that only appears with more text means that the text so far
    holds no line feed. *)
Lemma lazy_group_pending (s b g : jsstring) :
  lazy_group (s ++ b) = Some g -> lazy_group s = None -> ~ In 10 s.
Proof.
  revert g; induction s as [|c r IH]; intros g; [auto|].
  rewrite <- app_comm_cons, !lazy_group_cons.
  destruct (isLineTerminator c) eqn:Hlt.
  - destruct ((c =? 125) && at_line_feed (r ++ b)) eqn:E; [|discriminate].
    apply andb_true_iff in E as [E _]. apply N.eqb_eq in E. subst c.
    discriminate.
  - destruct ((c =? 125) && at_line_feed r) eqn:E1; [discriminate|].
    intros H1 H2 [Heq | Hin]; [subst c; discriminate|].
    destruct ((c =? 125) && at_line_feed (r ++ b)) eqn:E2.
    + apply andb_true_iff in E2 as [Ec Eb]. rewrite Ec in E1. simpl in E1.
      destruct r as [|c' r']; [destruct Hin|].
      simpl in Eb, E1. congruence.
    + destruct (lazy_group (r ++ b)) as [g'|] eqn:Hg; [|discriminate].
      destruct (lazy_group r) eqn:Hg0; [discriminate|].
      exact (IH g' eq_refl eq_refl Hin).
Qed.

Lemma match_here_app (s b g : jsstring) :
  match_here s = Some g -> match_here (s ++ b) = Some g.
Proof.
  unfold match_here. destruct (startsWith s (lit "data: ")) eqn:Hp; [|discriminate].
  rewrite (startsWith_app _ _ b Hp).
  apply startsWith_iff in Hp as [r ->]. rewrite <- app_assoc.
  rewrite !drop_data_prefix. apply lazy_group_app.
Qed.

Lemma match_here_split (s g : jsstring) :
  match_here s = Some g ->
  exists post, s = lit "data: " ++ g ++ 10 :: post.
Proof.
  unfold match_here. destruct (startsWith s (lit "data: ")) eqn:Hp; [|discriminate].
  apply startsWith_iff in Hp as [r ->]. rewrite drop_data_prefix.
  intros H. destruct (lazy_group_split _ _ H) as [post ->]. now exists post.
Qed.

Lemma match_here_pending (s b g : jsstring) :
  match_here (s ++ b) = Some g -> match_here s = None -> ~ In 10 s.
Proof.
  unfold match_here.
  destruct (startsWith (s ++ b) (lit "data: ")) eqn:Hpb; [|discriminate].
  destruct (startsWith s (lit "data: ")) eqn:Hp.
  - apply startsWith_iff in Hp as [r ->]. rewrite <- app_assoc.
    rewrite !drop_data_prefix. intros H1 H2 Hin.
    apply (lazy_group_pending _ _ _ H1 H2).
    rewrite data_prefix in Hin.
    destruct Hin as [|[|[|[|[|[|]]]]]]; try discriminate. assumption.
  - intros _ _ Hin.
    destruct (startsWith_app_inv _ _ _ Hpb) as [Hs | Hall]; [congruence|].
    specialize (Hall _ Hin). rewrite data_prefix in Hall.
    destruct Hall as [|[|[|[|[|[|]]]]]]; try discriminate. assumption.
Qed.

Lemma frame_match_eq (s : jsstring) :
  frame_match s =
  match match_here s with
  | Some g => Some (lit "data: " ++ g ++ [10], g)
  | None => match s with [] => None | _ :: s' => frame_match s' end
  end.
Proof. destruct s; reflexivity. Qed.

(** A match is a piece of the text: the prefix, the group, a line feed. *)
Lemma frame_match_split (s m0 m1 : jsstring) :
  frame_match s = Some (m0, m1) ->
  m0 = lit "data: " ++ m1 ++ [10] /\ exists pre post, s = pre ++ m0 ++ post.
Proof.
  induction s as [|c s IH]; rewrite frame_match_eq.
  - destruct (match_here []) eqn:H; [|discriminate].
    intros [= <- <-]. split; [reflexivity|].
    destruct (match_here_split _ _ H) as [post Hs]. discriminate.
  - destruct (match_here (c :: s)) as [g|] eqn:H.
    + intros [= <- <-]. split; [reflexivity|].
      destruct (match_here_split _ _ H) as [post ->].
      exists [], post. simpl. now rewrite <- !app_assoc.
    + intros Hm. destruct (IH Hm) as [-> (pre & post & ->)].
      split; [reflexivity|]. now exists (c :: pre), post.
Qed.

Lemma frame_match_length (s m0 m1 : jsstring) :
  frame_match s = Some (m0, m1) ->
  (0 < length m0 <= length s)%nat.
Proof.
  intros H. destruct (frame_match_split _ _ _ H) as [-> (pre & post & ->)].
  rewrite !length_app. simpl. lia.
Qed.

(** The leftmost match in a text is still the leftmost match when more
    text follows. *)
Lemma frame_match_app (s b : jsstring) (m : jsstring * jsstring) :
  frame_match s = Some m -> frame_match (s ++ b) = Some m.
Proof.
  induction s as [|c s IH]; rewrite (frame_match_eq (_ ++ _)), frame_match_eq.
  - destruct (match_here []) eqn:H; [|discriminate].
    destruct (match_here_split _ _ H) as [post Hs]. discriminate.
  - destruct (match_here (c :: s)) as [g|] eqn:H.
    + now rewrite (match_here_app _ b _ H).
    + intros Hm. destruct (match_here ((c :: s) ++ b)) as [g|] eqn:Hb.
      * exfalso. apply (match_here_pending _ _ _ Hb H).
        destruct m as [m0 m1].
        destruct (frame_match_split _ _ _ Hm) as [-> (pre & post & ->)].
        right. rewrite !in_app_iff. right. left. right. right. now left.
      * simpl. auto.
Qed.
End FrameFacts.

(** ** The parser never stops for lack of fuel *)

Section ParserFacts.
Local Open Scope N_scope.

Lemma pmap_ok {A B} (f : A -> B) (x : presult A) b r :
  pmap f x = POk b r -> exists a, x = POk a r /\ b = f a.
Proof. destruct x; simpl; intros [=]; subst; eauto. Qed.

Lemma pmap_fuel {A B} (f : A -> B) (x : presult A) :
  pmap f x = PFuel -> x = PFuel.
Proof. destruct x; simpl; intros [=]; reflexivity. Qed.

Lemma pbind_ok {A B} (x : presult A) (k : A -> jsstring -> presult B) b r :
  pbind x k = POk b r -> exists a r0, x = POk a r0 /\ k a r0 = POk b r.
Proof. destruct x; simpl; intros H; try discriminate; eauto. Qed.

Lemma pbind_fuel {A B} (x : presult A) (k : A -> jsstring -> presult B) :
  pbind x k = PFuel ->
  x = PFuel \/ exists a r0, x = POk a r0 /\ k a r0 = PFuel.
Proof. destruct x; simpl; intros H; try discriminate; eauto. Qed.

Lemma skip_ws_length (s : jsstring) : (length (skip_ws s) <= length s)%nat.
Proof.
  induction s as [|c s IH]; simpl; [lia|].
  destruct (isJsonWs c); simpl; lia.
Qed.

Lemma skip_ws_cons (s r : jsstring) (c : N) :
  skip_ws s = c :: r -> (length r < length s)%nat.
Proof.
  intros H. pose proof (skip_ws_length s) as Hl. rewrite H in Hl.
  simpl in Hl. lia.
Qed.

Lemma parse_string_body_cons (c : N) (r : jsstring) :
  parse_string_body (c :: r) =
  if c =? 34 then POk [] r
  else if c =? 92 then
    match r with
    | [] => PSyntaxError
    | e :: r' =>
        if e =? 117 then
          match r' with
          | h1 :: h2 :: h3 :: h4 :: r'' =>
              match hex4 h1 h2 h3 h4 with
              | Some u => pmap (cons u) (parse_string_body r'')
              | None => PSyntaxError
              end
          | _ => PSyntaxError
          end
        else
          match simple_escape e with
          | Some u => pmap (cons u) (parse_string_body r')
          | None => PSyntaxError
          end
    end
  else if c <? 32 then PSyntaxError
  else pmap (cons c) (parse_string_body r).
Proof. reflexivity. Qed.

Lemma parse_string_body_bounded (n : nat) (s k r : jsstring) :
  (length s <= n)%nat ->
  parse_string_body s = POk k r -> (length r < length s)%nat.
Proof.
  revert s k r; induction n as [|n IH]; intros s k r Hn.
  - destruct s; [discriminate | simpl in Hn; lia].
  - destruct s as [|c s']; [discriminate|].
    rewrite parse_string_body_cons. simpl in Hn.
    destruct (c =? 34); [intros [= <- <-]; simpl; lia|].
    destruct (c =? 92).
    + destruct s' as [|e r']; [discriminate|].
      destruct (e =? 117).
      * destruct r' as [|h1 [|h2 [|h3 [|h4 r'']]]]; try discriminate.
        destruct (hex4 h1 h2 h3 h4); [|discriminate].
        intros H. apply pmap_ok in H as (a & H & ->).
        apply IH in H; simpl in *; lia.
      * destruct (simple_escape e); [|discriminate].
        intros H. apply pmap_ok in H as (a & H & ->).
        apply IH in H; simpl in *; lia.
    + destruct (c <? 32); [discriminate|].
      intros H. apply pmap_ok in H as (a & H & ->).
      apply IH in H; simpl in *; lia.
Qed.

Lemma parse_string_body_ok (s k r : jsstring) :
  parse_string_body s = POk k r -> (length r < length s)%nat.
Proof. apply (parse_string_body_bounded (length s)). lia. Qed.

Lemma parse_string_body_fuel_bounded (n : nat) (s : jsstring) :
  (length s <= n)%nat -> parse_string_body s <> PFuel.
Proof.
  revert s; induction n as [|n IH]; intros s Hn.
  - destruct s; [discriminate | simpl in Hn; lia].
  - destruct s as [|c s']; [discriminate|].
    rewrite parse_string_body_cons. simpl in Hn.
    destruct (c =? 34); [discriminate|].
    destruct (c =? 92).
    + destruct s' as [|e r']; [discriminate|].
      destruct (e =? 117).
      * destruct r' as [|h1 [|h2 [|h3 [|h4 r'']]]]; try discriminate.
        destruct (hex4 h1 h2 h3 h4); [|discriminate].
        intros H. apply pmap_fuel in H. revert H. apply IH. simpl in *. lia.
      * destruct (simple_escape e); [|discriminate].
        intros H. apply pmap_fuel in H. revert H. apply IH. simpl in *. lia.
    + destruct (c <? 32); [discriminate|].
      intros H. apply pmap_fuel in H. revert H. apply IH. lia.
Qed.

Lemma parse_string_body_fuel (s : jsstring) : parse_string_body s <> PFuel.
Proof. apply (parse_string_body_fuel_bounded (length s)). lia. Qed.

Lemma span_digits_length (s ds r : jsstring) :
  span_digits s = (ds, r) -> (length r <= length s)%nat.
Proof.
  revert ds r; induction s as [|c s IH]; intros ds r; simpl.
  - intros [= <- <-]. simpl. lia.
  - destruct (isDigit c).
    + destruct (span_digits s) as [ds' r'] eqn:E. intros [= <- <-].
      specialize (IH _ _ eq_refl). lia.
    + intros [= <- <-]. simpl. lia.
Qed.

Lemma number_sign_length (s sign r : jsstring) :
  number_sign s = (sign, r) -> (length r <= length s)%nat.
Proof.
  unfold number_sign. destruct s as [|c s']; [intros [= <- <-]; lia|].
  destruct (c =? 45); intros [= <- <-]; simpl; lia.
Qed.

Lemma number_int_length (s ds r : jsstring) :
  number_int s = Some (ds, r) -> (length r < length s)%nat.
Proof.
  unfold number_int. destruct s as [|c s']; [discriminate|].
  destruct (c =? 48); [intros [= <- <-]; simpl; lia|].
  destruct (isDigit c) eqn:Hd; [|discriminate].
  simpl. rewrite Hd. destruct (span_digits s') as [ds' r'] eqn:E.
  intros [= <- <-]. apply span_digits_length in E. simpl. lia.
Qed.

Lemma number_frac_length (s fs r : jsstring) :
  number_frac s = Some (fs, r) -> (length r <= length s)%nat.
Proof.
  unfold number_frac. destruct s as [|c s']; [intros [= <- <-]; lia|].
  destruct (c =? 46); [|intros [= <- <-]; lia].
  destruct (span_digits s') as [[|d ds] r'] eqn:E; [discriminate|].
  intros [= <- <-]. apply span_digits_length in E. simpl. lia.
Qed.

Lemma number_exp_length (s es r : jsstring) :
  number_exp s = Some (es, r) -> (length r <= length s)%nat.
Proof.
  unfold number_exp. destruct s as [|c s']; [intros [= <- <-]; lia|].
  destruct ((c =? 101) || (c =? 69)); [|intros [= <- <-]; lia].
  destruct s' as [|g r0].
  - simpl. discriminate.
  - destruct ((g =? 43) || (g =? 45)).
    + destruct (span_digits r0) as [[|d ds] r'] eqn:E; [discriminate|].
      intros [= <- <-]. apply span_digits_length in E. simpl. lia.
    + destruct (span_digits (g :: r0)) as [[|d ds] r'] eqn:E; [discriminate|].
      intros [= <- <-]. apply span_digits_length in E. simpl in *. lia.
Qed.

Lemma parse_number_fuel (s : jsstring) : parse_number s <> PFuel.
Proof.
  unfold parse_number. destruct (number_sign s) as [sign s1].
  destruct (number_int s1) as [[ds s2]|]; [|discriminate].
  destruct (number_frac s2) as [[fs s3]|]; [|discriminate].
  destruct (number_exp s3) as [[es s4]|]; discriminate.
Qed.

(** A number takes at least one character. *)
Lemma parse_number_ok (s l r : jsstring) :
  parse_number s = POk l r -> (length r < length s)%nat.
Proof.
  unfold parse_number. destruct (number_sign s) as [sign s1] eqn:H1.
  destruct (number_int s1) as [[ds s2]|] eqn:H2; [|discriminate].
  destruct (number_frac s2) as [[fs s3]|] eqn:H3; [|discriminate].
  destruct (number_exp s3) as [[es s4]|] eqn:H4; [|discriminate].
  intros [= <- <-].
  apply number_sign_length in H1. apply number_int_length in H2.
  apply number_frac_length in H3. apply number_exp_length in H4. lia.
Qed.

Lemma parse_literal_fuel (s : jsstring) : parse_literal s <> PFuel.
Proof.
  unfold parse_literal.
  destruct (startsWith s _); [discriminate|].
  destruct (startsWith s _); [discriminate|].
  destruct (startsWith s _); discriminate.
Qed.

Lemma parse_literal_ok (s r : jsstring) (v : json) :
  parse_literal s = POk v r -> (length r < length s)%nat.
Proof.
  unfold parse_literal.
  destruct (startsWith s (lit "true")) eqn:H1.
  { intros [= <- <-]. apply startsWith_iff in H1 as [t ->].
    rewrite length_drop, length_app. simpl. lia. }
  destruct (startsWith s (lit "false")) eqn:H2.
  { intros [= <- <-]. apply startsWith_iff in H2 as [t ->].
    rewrite length_drop, length_app. simpl. lia. }
  destruct (startsWith s (lit "null")) eqn:H3; [|discriminate].
  intros [= <- <-]. apply startsWith_iff in H3 as [t ->].
  rewrite length_drop, length_app. simpl. lia.
Qed.

Lemma parse_value_S (n : nat) (s : jsstring) :
  parse_value (S n) s =
  match skip_ws s with
  | [] => PSyntaxError
  | c :: r =>
      if c =? 123 then
        match skip_ws r with
        | c' :: r' =>
            if c' =? 125 then POk (JObject []) r'
            else pmap JObject (parse_members n r)
        | [] => PSyntaxError
        end
      else if c =? 91 then
        match skip_ws r with
        | c' :: r' =>
            if c' =? 93 then POk (JArray []) r'
            else pmap JArray (parse_elements n r)
        | [] => PSyntaxError
        end
      else if c =? 34 then pmap JString (parse_string_body r)
      else if (c =? 45) || isDigit c then pmap JNumber (parse_number (c :: r))
      else parse_literal (c :: r)
  end.
Proof. reflexivity. Qed.

Lemma parse_elements_S (n : nat) (s : jsstring) :
  parse_elements (S n) s =
  pbind (parse_value n s) (fun v r =>
    match skip_ws r with
    | c :: r' =>
        if c =? 44 then pmap (cons v) (parse_elements n r')
        else if c =? 93 then POk [v] r'
        else PSyntaxError
    | [] => PSyntaxError
    end).
Proof. reflexivity. Qed.

Lemma parse_members_S (n : nat) (s : jsstring) :
  parse_members (S n) s =
  match skip_ws s with
  | c :: r =>
      if c =? 34 then
        pbind (parse_string_body r) (fun k r1 =>
          match skip_ws r1 with
          | c1 :: r2 =>
              if c1 =? 58 then
                pbind (parse_value n r2) (fun v r3 =>
                  match skip_ws r3 with
                  | c3 :: r4 =>
                      if c3 =? 44 then
                        pmap (cons (k, v)) (parse_members n r4)
                      else if c3 =? 125 then POk [(k, v)] r4
                      else PSyntaxError
                  | [] => PSyntaxError
                  end)
              else PSyntaxError
          | [] => PSyntaxError
          end)
      else PSyntaxError
  | [] => PSyntaxError
  end.
Proof. reflexivity. Qed.

(** Each of the three functions takes at least one character. *)
Lemma parse_consumes (n : nat) :
  (forall s v r, parse_value n s = POk v r -> (length r < length s)%nat)
  /\ (forall s vs r, parse_elements n s = POk vs r -> (length r < length s)%nat)
  /\ (forall s ms r, parse_members n s = POk ms r -> (length r < length s)%nat).
Proof.
  induction n as [|n (IHv & IHe & IHm)]; [repeat split; discriminate|].
  repeat split.
  - intros s v r. rewrite parse_value_S.
    destruct (skip_ws s) as [|c t] eqn:Hs; [discriminate|].
    apply skip_ws_cons in Hs.
    destruct (c =? 123).
    { destruct (skip_ws t) as [|c' t'] eqn:Ht; [discriminate|].
      apply skip_ws_cons in Ht.
      destruct (c' =? 125); [intros [= <- <-]; lia|].
      intros H. apply pmap_ok in H as (a & H & ->). apply IHm in H. lia. }
    destruct (c =? 91).
    { destruct (skip_ws t) as [|c' t'] eqn:Ht; [discriminate|].
      apply skip_ws_cons in Ht.
      destruct (c' =? 93); [intros [= <- <-]; lia|].
      intros H. apply pmap_ok in H as (a & H & ->). apply IHe in H. lia. }
    destruct (c =? 34).
    { intros H. apply pmap_ok in H as (a & H & ->).
      apply parse_string_body_ok in H. lia. }
    destruct ((c =? 45) || isDigit c).
    { intros H. apply pmap_ok in H as (a & H & ->).
      apply parse_number_ok in H. simpl in H. lia. }
    intros H. apply parse_literal_ok in H. simpl in H. lia.
  - intros s vs r. rewrite parse_elements_S. intros H.
    apply pbind_ok in H as (v & r0 & Hv & H). apply IHv in Hv.
    destruct (skip_ws r0) as [|c t] eqn:Hs; [discriminate|].
    apply skip_ws_cons in Hs.
    destruct (c =? 44).
    { apply pmap_ok in H as (a & H & ->). apply IHe in H. lia. }
    destruct (c =? 93); [|discriminate]. injection H as <- <-. lia.
  - intros s ms r. rewrite parse_members_S.
    destruct (skip_ws s) as [|c t] eqn:Hs; [discriminate|].
    apply skip_ws_cons in Hs.
    destruct (c =? 34); [|discriminate]. intros H.
    apply pbind_ok in H as (k & r1 & Hk & H).
    apply parse_string_body_ok in Hk.
    destruct (skip_ws r1) as [|c1 r2] eqn:H1; [discriminate|].
    apply skip_ws_cons in H1.
    destruct (c1 =? 58); [|discriminate].
    apply pbind_ok in H as (v & r3 & Hv & H). apply IHv in Hv.
    destruct (skip_ws r3) as [|c3 r4] eqn:H3; [discriminate|].
    apply skip_ws_cons in H3.
    destruct (c3 =? 44).
    { apply pmap_ok in H as (a & H & ->). apply IHm in H. lia. }
    destruct (c3 =? 125); [|discriminate]. injection H as <- <-. lia.
Qed.

(** Fuel of twice the length of the input, and a little more, is never
    used up. *)
Lemma parse_fuel (n : nat) :
  (forall s, (2 * length s + 1 <= n)%nat -> parse_value n s <> PFuel)
  /\ (forall s, (2 * length s + 2 <= n)%nat -> parse_elements n s <> PFuel)
  /\ (forall s, (2 * length s + 2 <= n)%nat -> parse_members n s <> PFuel).
Proof.
  induction n as [|n (IHv & IHe & IHm)]; [repeat split; intros; lia|].
  destruct (parse_consumes n) as (Cv & Ce & Cm).
  repeat split.
  - intros s Hn. rewrite parse_value_S.
    destruct (skip_ws s) as [|c t] eqn:Hs; [discriminate|].
    apply skip_ws_cons in Hs.
    destruct (c =? 123).
    { destruct (skip_ws t) as [|c' t'] eqn:Ht; [discriminate|].
      destruct (c' =? 125); [discriminate|].
      intros H. apply pmap_fuel in H. revert H. apply IHm. lia. }
    destruct (c =? 91).
    { destruct (skip_ws t) as [|c' t'] eqn:Ht; [discriminate|].
      destruct (c' =? 93); [discriminate|].
      intros H. apply pmap_fuel in H. revert H. apply IHe. lia. }
    destruct (c =? 34).
    { intros H. apply pmap_fuel in H. revert H. apply parse_string_body_fuel. }
    destruct ((c =? 45) || isDigit c).
    { intros H. apply pmap_fuel in H. revert H. apply parse_number_fuel. }
    apply parse_literal_fuel.
  - intros s Hn. rewrite parse_elements_S. intros H.
    apply pbind_fuel in H as [H | (v & r0 & Hv & H)].
    { revert H. apply IHv. lia. }
    apply Cv in Hv.
    destruct (skip_ws r0) as [|c t] eqn:Hs; [discriminate|].
    apply skip_ws_cons in Hs.
    destruct (c =? 44).
    { apply pmap_fuel in H. revert H. apply IHe. lia. }
    destruct (c =? 93); discriminate.
  - intros s Hn. rewrite parse_members_S.
    destruct (skip_ws s) as [|c t] eqn:Hs; [discriminate|].
    apply skip_ws_cons in Hs.
    destruct (c =? 34); [|discriminate]. intros H.
    apply pbind_fuel in H as [H | (k & r1 & Hk & H)].
    { revert H. apply parse_string_body_fuel. }
    apply parse_string_body_ok in Hk.
    destruct (skip_ws r1) as [|c1 r2] eqn:H1; [discriminate|].
    apply skip_ws_cons in H1.
    destruct (c1 =? 58); [|discriminate].
    apply pbind_fuel in H as [H | (v & r3 & Hv & H)].
    { revert H. apply IHv. lia. }
    apply Cv in Hv.
    destruct (skip_ws r3) as [|c3 r4] eqn:H3; [discriminate|].
    apply skip_ws_cons in H3.
    destruct (c3 =? 44).
    { apply pmap_fuel in H. revert H. apply IHm. lia. }
    destruct (c3 =? 125); discriminate.
Qed.

(** [JSON_parse] fails on a syntax error only. *)
Theorem JSON_parse_total (text : jsstring) :
  parse_value (2 * length text + 1) text <> PFuel.
Proof. apply (proj1 (parse_fuel _)). lia. Qed.
End ParserFacts.

(** ** The buffering loop *)

Section DrainFacts.
Context (rt : Runtime) (query : Query).

Lemma drain_S (n : nat) (st : StreamState) :
  drain rt (S n) query st =
  match frame_match (buffer st) with
  | Some (match0, match1) =>
      let '(targetText', evs) :=
        handleStreamResponse rt query (targetText st) (trim match1) in
      let '(st', evs') :=
        drain rt n query
          {| targetText := targetText';
             buffer := slice_from (buffer st) (length match0) |} in
      (st', evs ++ evs')
  | None => (st, [])
  end.
Proof. reflexivity. Qed.

Lemma drain_no_match (n : nat) (st : StreamState) :
  frame_match (buffer st) = None -> drain rt n query st = (st, []).
Proof. intros H. destruct n; [reflexivity|]. now rewrite drain_S, H. Qed.

Lemma slice_from_shorter (s m0 m1 : jsstring) (n : nat) :
  frame_match s = Some (m0, m1) -> length s <= S n ->
  length (slice_from s (length m0)) <= n.
Proof.
  intros H Hn. apply frame_match_length in H. unfold slice_from.
  rewrite length_drop. lia.
Qed.

(** The bound on the iterations is never what stops the loop: any two
    bounds that cover the buffer give the same run. *)
Lemma drain_fuel (n m : nat) (st : StreamState) :
  length (buffer st) <= n -> length (buffer st) <= m ->
  drain rt n query st = drain rt m query st.
Proof.
  revert m st; induction n as [|n IH]; intros m st Hn Hm.
  - destruct (buffer st) eqn:Hb; [|simpl in Hn; lia].
    symmetry. apply drain_no_match. now rewrite Hb.
  - destruct m as [|m].
    + destruct (buffer st) eqn:Hb; [|simpl in Hm; lia].
      apply drain_no_match. now rewrite Hb.
    + rewrite !drain_S.
      destruct (frame_match (buffer st)) as [[m0 m1]|] eqn:Hf; [|reflexivity].
      destruct (handleStreamResponse rt query (targetText st) (trim m1))
        as [t' evs].
      rewrite (IH m); [reflexivity | |]; simpl;
        eapply slice_from_shorter; eauto.
Qed.

(** The loop ends through its [break]: no complete frame is left. *)
Lemma drain_exits (n : nat) (st : StreamState) :
  length (buffer st) <= n ->
  frame_match (buffer (fst (drain rt n query st))) = None.
Proof.
  revert st; induction n as [|n IH]; intros st Hn.
  - simpl. destruct (buffer st) eqn:Hb; [reflexivity | simpl in Hn; lia].
  - rewrite drain_S.
    destruct (frame_match (buffer st)) as [[m0 m1]|] eqn:Hf; [|exact Hf].
    destruct (handleStreamResponse rt query (targetText st) (trim m1))
      as [t' evs].
    specialize (IH {| targetText := t';
                      buffer := slice_from (buffer st) (length m0) |}).
    destruct (drain rt n query _) as [st' evs'].
    apply IH. simpl. eapply slice_from_shorter; eauto.
Qed.

(** Draining a buffer to which text was appended is draining the buffer,
    then draining what is left with the text appended. *)
Lemma drain_app (n : nat) (st : StreamState) (b : jsstring) :
  length (buffer st) <= n ->
  drain rt (length (buffer st ++ b)) query (push st b) =
  let '(st1, evs1) := drain rt n query st in
  let '(st2, evs2) := assemble rt query st1 b in
  (st2, evs1 ++ evs2).
Proof.
  revert st; induction n as [|n IH]; intros st Hn.
  - simpl (drain rt 0 query st). unfold assemble.
    now destruct (drain rt _ query (push st b)).
  - rewrite drain_S.
    destruct (frame_match (buffer st)) as [[m0 m1]|] eqn:Hf.
    2:{ unfold assemble. now destruct (drain rt _ query (push st b)). }
    pose proof (frame_match_length _ _ _ Hf) as Hlen.
    assert (Hfuel : exists k, length (buffer st ++ b) = S k).
    { rewrite length_app. destruct (length (buffer st)); [lia|]. eauto. }
    destruct Hfuel as [k Hk]. rewrite Hk, drain_S. simpl (buffer (push st b)).
    rewrite (frame_match_app _ b _ Hf). simpl (targetText (push st b)).
    destruct (handleStreamResponse rt query (targetText st) (trim m1))
      as [t' evs].
    set (st' := {| targetText := t';
                   buffer := slice_from (buffer st) (length m0) |}).
    assert (Hst' : length (buffer st') <= n)
      by (simpl; eapply slice_from_shorter; eauto).
    specialize (IH st' Hst').
    replace {| targetText := t';
               buffer := slice_from (buffer st ++ b) (length m0) |}
      with (push st' b).
    2:{ unfold push, st', slice_from. simpl. f_equal.
        rewrite drop_app_le by lia. reflexivity. }
    rewrite (drain_fuel k (length (buffer st' ++ b)) (push st' b)).
    + rewrite IH. destruct (drain rt n query st') as [st1 evs1].
      destruct (assemble rt query st1 b) as [st2 evs2]. now rewrite app_assoc.
    + simpl. unfold slice_from. rewrite length_app, length_drop.
      rewrite length_app in Hk. lia.
    + reflexivity.
Qed.

Lemma push_push (st : StreamState) (a b : jsstring) :
  push (push st a) b = push st (a ++ b).
Proof. unfold push. simpl. now rewrite app_assoc. Qed.

(** One chunk or its two halves: the same run. *)
Lemma assemble_app (st : StreamState) (a b : jsstring) :
  assemble rt query st (a ++ b) =
  let '(st1, evs1) := assemble rt query st a in
  let '(st2, evs2) := assemble rt query st1 b in
  (st2, evs1 ++ evs2).
Proof.
  unfold assemble at 1 2. rewrite <- push_push, app_assoc.
  apply (drain_app (length (buffer st ++ a)) (push st a) b). reflexivity.
Qed.

Lemma assemble_exits (st : StreamState) (a : jsstring) :
  frame_match (buffer (fst (assemble rt query st a))) = None.
Proof. apply drain_exits. reflexivity. Qed.

Lemma assemble_nil (st : StreamState) :
  frame_match (buffer st) = None -> assemble rt query st [] = (st, []).
Proof.
  intros H. unfold assemble, push. rewrite app_nil_r.
  destruct st as [t b]. simpl in *. now apply drain_no_match.
Qed.

Lemma streamHandler_clean (st : StreamState) (chunk : jsstring) :
  clean chunk -> streamHandler rt query st (Some chunk) = assemble rt query st chunk.
Proof. unfold clean, streamHandler. now intros ->. Qed.

Lemma feed_cons (st : StreamState) (chunk : option jsstring)
  (chunks : list (option jsstring)) :
  feed rt query st (chunk :: chunks) =
  let '(st', evs) := streamHandler rt query st chunk in
  let '(st'', evs') := feed rt query st' chunks in
  (st'', evs ++ evs').
Proof. reflexivity. Qed.

(** Chunks that pass the token check are handled as their
    concatenation handed over at once. *)
Lemma feed_clean (chunks : list jsstring) (st : StreamState) :
  frame_match (buffer st) = None ->
  Forall clean chunks ->
  feed rt query st (map Some chunks) = assemble rt query st (concat chunks).
Proof.
  revert st; induction chunks as [|c chunks IH]; intros st Hst Hall.
  - simpl. now rewrite assemble_nil.
  - inversion Hall as [|? ? Hc Hrest]; subst.
    change (map Some (c :: chunks)) with (Some c :: map Some chunks).
    change (concat (c :: chunks)) with (c ++ concat chunks).
    rewrite feed_cons, (streamHandler_clean _ _ Hc), assemble_app.
    pose proof (assemble_exits st c) as Hex.
    destruct (assemble rt query st c) as [st1 evs1]. simpl in Hex.
    now rewrite (IH st1 Hex Hrest).
Qed.
End DrainFacts.

(** ** Streams of one-line frames are decoded frame by frame *)

Section WireFacts.
Context (rt : Runtime) (query : Query).
Local Open Scope N_scope.

Lemma lazy_group_one_line (p rest : jsstring) :
  one_line_object p -> lazy_group (p ++ 10 :: rest) = Some p.
Proof.
  intros [Hlt Hlast]. induction p as [|c p IH]; [discriminate|].
  rewrite <- app_comm_cons, lazy_group_cons.
  inversion Hlt as [|? ? Hc Hp]; subst.
  destruct p as [|c' p'].
  - simpl in Hlast. injection Hlast as ->. reflexivity.
  - assert (Hc' : isLineTerminator c' = false) by now inversion Hp.
    assert (at_line_feed ((c' :: p') ++ 10 :: rest) = false) as ->.
    { simpl. destruct (c' =? 10) eqn:E; [|reflexivity].
      apply N.eqb_eq in E. subst c'. discriminate. }
    rewrite andb_false_r, Hc, IH; auto.
Qed.

Lemma frame_match_frame (p rest : jsstring) :
  one_line_object p ->
  frame_match (frame p ++ rest) = Some (frame p, p).
Proof.
  intros Hp. rewrite frame_match_eq. unfold match_here, frame.
  assert (startsWith ((lit "data: " ++ p ++ [LF]) ++ rest) (lit "data: ")
          = true) as ->.
  { apply startsWith_iff. eexists. now rewrite <- app_assoc. }
  rewrite <- !app_assoc, drop_data_prefix. simpl ([LF] ++ rest).
  now rewrite (lazy_group_one_line _ _ Hp).
Qed.

Lemma sentinel_pending : frame_match (frame (lit "[DONE]")) = None.
Proof. reflexivity. Qed.

Lemma drain_frames (payloads : list jsstring) :
  Forall one_line_object payloads ->
  forall (t tail : jsstring) (n : nat),
    frame_match tail = None ->
    (length (concat (map frame payloads) ++ tail) <= n)%nat ->
    drain rt n query
      {| targetText := t; buffer := concat (map frame payloads) ++ tail |} =
    let '(t', evs) := decode_all rt query t payloads in
    ({| targetText := t'; buffer := tail |}, evs).
Proof.
  induction 1 as [|p ps Hp Hps IH]; intros t tail n Htail Hn.
  - simpl. now apply drain_no_match.
  - change (concat (map frame (p :: ps)))
      with (frame p ++ concat (map frame ps)) in *.
    rewrite <- app_assoc in *.
    destruct n as [|n].
    { unfold frame in Hn. rewrite !length_app in Hn. simpl in Hn. lia. }
    rewrite drain_S. cbn [buffer targetText].
    rewrite (frame_match_frame _ _ Hp).
    cbn [decode_all].
    destruct (handleStreamResponse rt query t (trim p)) as [t' evs].
    unfold slice_from. rewrite drop_app_length.
    rewrite (IH t' tail n Htail).
    + now destruct (decode_all rt query t' ps).
    + rewrite length_app in Hn.
      assert (0 < length (frame p))%nat
        by (unfold frame; rewrite !length_app; simpl; lia).
      lia.
Qed.
End WireFacts.

(** Every splitting of a stream of one-line frames into chunks that pass
    the token check is decoded frame by frame, in order, and leaves the
    sentinel in the buffer. *)
Theorem clean_stream_decoded (rt : Runtime) (query : Query)
  (payloads chunks : list jsstring) :
  Forall one_line_object payloads ->
  Forall clean chunks ->
  concat chunks = stream_text payloads ->
  feed rt query initial_state (map Some chunks) =
  let '(t, evs) := decode_all rt query [] payloads in
  ({| targetText := t; buffer := frame (lit "[DONE]") |}, evs).
Proof.
  intros Hps Hclean Hcat.
  rewrite feed_clean; [|reflexivity|assumption].
  unfold assemble, push, initial_state. cbn [buffer targetText].
  rewrite app_nil_l, Hcat. unfold stream_text.
  apply drain_frames; auto using sentinel_pending.
Qed.

(** For all chunk splittings of one text, whatever its frames, into
    sub-chunks none of which contains the text of the token check
    (Invalid token), feeding the sub-chunks one at a time to the stream
    handler gives the same accumulated text, the same residual buffer and
    the same ordered sequence of calls. *)
Lemma split_invariance (rt : Runtime) (query : Query)
  (chunks1 chunks2 : list jsstring) :
  Forall clean chunks1 ->
  Forall clean chunks2 ->
  concat chunks1 = concat chunks2 ->
  feed rt query initial_state (map Some chunks1) =
  feed rt query initial_state (map Some chunks2).
Proof.
  intros H1 H2 Hcat.
  rewrite (feed_clean _ _ chunks1), (feed_clean _ _ chunks2);
    [now rewrite Hcat | reflexivity | assumption | reflexivity | assumption].
Qed.

Example split_invariance_hi :
  feed sample_runtime sample_query initial_state (map Some hi_chunks_by_frame) =
  feed sample_runtime sample_query initial_state (map Some hi_chunks_ragged).
Proof.
  apply split_invariance.
  - repeat constructor; vm_compute; reflexivity.
  - repeat constructor; vm_compute; reflexivity.
  - vm_compute; reflexivity.
Qed.

(** C1, as stated, fails: a well-formed stream whose one delta is the text
    Invalid token yields no delta when it arrives whole and that delta when
    it arrives in two halves. *)
Lemma split_invariance_counterexample :
  is_Some (JSON_parse token_payload)
  /\ concat token_chunks_whole = stream_text [token_payload]
  /\ concat token_chunks_halves = stream_text [token_payload]
  /\ partials (snd (feed sample_runtime sample_query initial_state
                      (map Some token_chunks_whole))) = []
  /\ partials (snd (feed sample_runtime sample_query initial_state
                      (map Some token_chunks_halves))) = [lit "Invalid token"].
Proof.
  split; [vm_compute; eauto|].
  repeat split; vm_compute; reflexivity.
Qed.

(** ** One frame *)

Lemma jseqb_neq (a b : jsstring) : a <> b -> jseqb a b = false.
Proof.
  intros H. destruct (jseqb a b) eqn:E; [|reflexivity].
  apply jseqb_eq in E. contradiction.
Qed.

Lemma content_delta_of (dataObj : json) (d : jsstring) :
  has_content_delta dataObj d ->
  content_delta dataObj = inr (Some (JString d)).
Proof.
  intros (ms & cm & dm & others & -> & Hchoices & Hdelta & Hcontent).
  unfold content_delta, get_field. rewrite Hchoices.
  cbn [get_index0 head get_field_opt]. rewrite Hdelta.
  cbn [get_field_opt]. now rewrite Hcontent.
Qed.

Lemma content_delta_none (dataObj : json) :
  has_no_content_delta dataObj ->
  content_delta dataObj = inr None
  \/ content_delta dataObj = inr (Some JNull)
  \/ content_delta dataObj = inr (Some (JString [])).
Proof.
  intros (ms & -> & [Hchoices | (cm & others & Hchoices & Hdelta)]);
    unfold content_delta, get_field; rewrite Hchoices;
    cbn [get_index0 head get_field_opt]; [now left|].
  destruct Hdelta as [-> | (dm & -> & Hcontent)]; [now left|].
  cbn [get_field_opt].
  destruct Hcontent as [-> | [-> | ->]]; auto.
Qed.

(** The sentinel is no JSON text. *)
Lemma parsed_not_sentinel (payload : jsstring) (dataObj : json) :
  JSON_parse payload = Some dataObj -> payload <> lit "[DONE]".
Proof. intros H ->. vm_compute in H. discriminate. Qed.

(** A frame with a content delta: the text grows by the delta, and the
    partial-result callback receives the grown text. *)
Lemma handleStreamResponse_appends (rt : Runtime) (query : Query)
  (t payload : jsstring) (dataObj : json) (d : jsstring) :
  JSON_parse payload = Some dataObj ->
  has_content_delta dataObj d ->
  d <> [] ->
  handleStreamResponse rt query t payload =
  (t ++ d, [OnStream {| res_from := detectFrom query;
                        res_to := detectTo query;
                        res_toParagraphs := [t ++ d] |}]).
Proof.
  intros Hparse Hdelta Hd.
  unfold handleStreamResponse, stream_try.
  rewrite (jseqb_neq _ _ (parsed_not_sentinel _ _ Hparse)), Hparse,
    (content_delta_of _ _ Hdelta).
  destruct d as [|c d]; [contradiction|]. reflexivity.
Qed.

(** A frame without content: nothing changes, nothing is called. *)
Lemma handleStreamResponse_skips (rt : Runtime) (query : Query)
  (t payload : jsstring) (dataObj : json) :
  JSON_parse payload = Some dataObj ->
  has_no_content_delta dataObj ->
  handleStreamResponse rt query t payload = (t, []).
Proof.
  intros Hparse Hnone.
  unfold handleStreamResponse, stream_try. rewrite Hparse.
  destruct (content_delta_none _ Hnone) as [-> | [-> | ->]];
    now destruct (negb _).
Qed.

(** C5: a payload other than the sentinel that decodes as JSON with a
    non-empty string at choices[0].delta.content makes
    handleStreamResponse return the accumulated text with the delta
    appended and call the partial-result callback once, with the
    languages of the query and the new accumulated text as the one
    paragraph; a payload whose delta is absent or falsy, and the
    sentinel, leave the text unchanged and call nothing. The three frames
    of the example give the partial results Hi and Hi there, and the final
    result Hi there. *)
Theorem handleStreamResponse_delta (rt : Runtime) (query : Query) (t : jsstring) :
  (forall payload dataObj d,
      payload <> lit "[DONE]" ->
      JSON_parse payload = Some dataObj ->
      has_content_delta dataObj d ->
      d <> [] ->
      handleStreamResponse rt query t payload =
      (t ++ d, [OnStream {| res_from := detectFrom query;
                            res_to := detectTo query;
                            res_toParagraphs := [t ++ d] |}]))
  /\ (forall payload dataObj delta,
         JSON_parse payload = Some dataObj ->
         content_delta dataObj = inr delta ->
         truthy rt delta = false ->
         handleStreamResponse rt query t payload = (t, []))
  /\ handleStreamResponse rt query t (lit "[DONE]") = (t, [])
  /\ feed rt query initial_state (map Some hi_chunks_by_frame) =
     ({| targetText := lit "Hi there"; buffer := frame (lit "[DONE]") |},
      [OnStream {| res_from := detectFrom query;
                   res_to := detectTo query;
                   res_toParagraphs := [lit "Hi"] |};
       OnStream {| res_from := detectFrom query;
                   res_to := detectTo query;
                   res_toParagraphs := [lit "Hi there"] |}])
  /\ (forall im opt net result,
         StringNumber_truthy rt (stream opt) = true ->
         streamRequest net (streaming_request (translate_request im opt query)) =
         {| stream_chunks := map Some hi_chunks_by_frame;
            stream_end := Resolves result |} ->
         (resp_statusCode result < 400)%Z ->
         translate_async rt im opt net query =
         [HttpStreamRequest (streaming_request (translate_request im opt query));
          OnStream {| res_from := detectFrom query;
                      res_to := detectTo query;
                      res_toParagraphs := [lit "Hi"] |};
          OnStream {| res_from := detectFrom query;
                      res_to := detectTo query;
                      res_toParagraphs := [lit "Hi there"] |};
          OnCompletion {| res_from := detectFrom query;
                          res_to := detectTo query;
                          res_toParagraphs := [lit "Hi there"] |}]).
Proof.
  assert (Hfeed :
    feed rt query initial_state (map Some hi_chunks_by_frame) =
     ({| targetText := lit "Hi there"; buffer := frame (lit "[DONE]") |},
      [OnStream {| res_from := detectFrom query;
                   res_to := detectTo query;
                   res_toParagraphs := [lit "Hi"] |};
       OnStream {| res_from := detectFrom query;
                   res_to := detectTo query;
                   res_toParagraphs := [lit "Hi there"] |}])).
  { vm_compute. reflexivity. }
  split; [|split; [|split; [|split]]].
  - intros payload dataObj d Hneq Hparse Hdelta Hd.
    unfold handleStreamResponse, stream_try.
    rewrite (jseqb_neq _ _ Hneq), Hparse, (content_delta_of _ _ Hdelta).
    destruct d as [|c d]; [contradiction|]. reflexivity.
  - intros payload dataObj delta Hparse Hdelta Hfalsy.
    unfold handleStreamResponse, stream_try.
    rewrite Hparse, Hdelta, Hfalsy.
    destruct (negb _); destruct delta; reflexivity.
  - reflexivity.
  - exact Hfeed.
  - intros im opt net result Hstream Hnet Hstatus.
    unfold translate_async. rewrite Hstream, Hnet.
    cbn [stream_chunks stream_end]. rewrite Hfeed.
    unfold stream_end_handler.
    destruct (400 <=? resp_statusCode result)%Z eqn:E; [|reflexivity].
    apply Z.leb_le in E. lia.
Qed.

Lemma handleStreamResponse_delta_witness :
  handleStreamResponse sample_runtime sample_query (lit "Hi")
    (litq "{'choices':[{'delta':{'content':' there'}}]}") =
  (lit "Hi there",
   [OnStream {| res_from := lit "en";
                res_to := lit "en";
                res_toParagraphs := [lit "Hi there"] |}]).
Proof.
  refine (proj1 (handleStreamResponse_delta sample_runtime sample_query (lit "Hi"))
            (litq "{'choices':[{'delta':{'content':' there'}}]}")
            (JObject [(lit "choices",
                       JArray [JObject [(lit "delta",
                                         JObject [(lit "content",
                                                   JString (lit " there"))])]])])
            (lit " there") _ _ _ _).
  - vm_compute. discriminate.
  - vm_compute. reflexivity.
  - eexists _, _, _, _. repeat split; reflexivity.
  - vm_compute. discriminate.
Defined.

(** ** A whole stream, whatever its splitting *)

Lemma decode_all_frames (rt : Runtime) (query : Query)
  (payloads : list jsstring) (deltas : list (option jsstring)) :
  Forall2 frame_carries payloads deltas ->
  forall t,
    decode_all rt query t payloads =
    (t ++ deltas_text deltas,
     map (fun text => OnStream {| res_from := detectFrom query;
                                  res_to := detectTo query;
                                  res_toParagraphs := [text] |})
         (running_texts t deltas)).
Proof.
  induction 1 as [|p od ps ods [_ (dataObj & Hparse & Hod)] _ IH]; intros t.
  - cbn. now rewrite app_nil_r.
  - cbn [decode_all]. destruct od as [d|].
    + destruct Hod as [Hdelta Hd].
      rewrite (handleStreamResponse_appends rt query t _ _ _ Hparse Hdelta Hd).
      rewrite IH. cbn [deltas_text running_texts map app].
      now rewrite <- app_assoc.
    + rewrite (handleStreamResponse_skips rt query t _ _ Hparse Hod).
      rewrite IH. reflexivity.
Qed.

Lemma frame_carries_one_line (payloads : list jsstring)
  (deltas : list (option jsstring)) :
  Forall2 frame_carries payloads deltas -> Forall one_line_object payloads.
Proof. induction 1 as [|? ? ? ? [H _]]; constructor; auto. Qed.

Lemma one_line_object_check (p : jsstring) :
  forallb (fun c => negb (isLineTerminator c)) p = true ->
  last p = Some 125%N ->
  one_line_object p.
Proof.
  intros H Hl. split; [|exact Hl].
  apply List.Forall_forall. intros c Hc.
  rewrite forallb_forall in H. specialize (H c Hc).
  now apply negb_true_iff in H.
Qed.

(** C1, amended: for every well-formed stream whose frames each hold
    their JSON on one line that ends in its closing brace, and for every
    splitting of the stream text into sub-chunks none of which contains
    the text of the token check (Invalid token), feeding the sub-chunks
    one at a time to the stream handler makes exactly the calls of the
    deltas of the frames: one partial result per frame with a content
    delta, in the order of the frames, each with the text accumulated so
    far, no delta lost, duplicated or reordered; the final text is the
    deltas one after the other and the sentinel stays in the buffer,
    wherever the split points fall. *)
Theorem stream_decoded_whatever_the_split (rt : Runtime) (query : Query)
  (payloads : list jsstring) (deltas : list (option jsstring))
  (chunks : list jsstring) :
  Forall2 frame_carries payloads deltas ->
  Forall clean chunks ->
  concat chunks = stream_text payloads ->
  feed rt query initial_state (map Some chunks) =
  ({| targetText := deltas_text deltas; buffer := frame (lit "[DONE]") |},
   map (fun text => OnStream {| res_from := detectFrom query;
                                res_to := detectTo query;
                                res_toParagraphs := [text] |})
       (running_texts [] deltas)).
Proof.
  intros Hframes Hclean Hcat.
  rewrite (clean_stream_decoded rt query payloads chunks
             (frame_carries_one_line _ _ Hframes) Hclean Hcat).
  now rewrite (decode_all_frames rt query _ _ Hframes []).
Qed.

Lemma stream_decoded_whatever_the_split_witness :
  feed sample_runtime sample_query initial_state (map Some chat_chunks_ragged) =
  ({| targetText := lit "Hi there"; buffer := lit "data: [DONE]" ++ [LF] |},
   [OnStream {| res_from := lit "en";
                res_to := lit "en";
                res_toParagraphs := [lit "Hi"] |};
    OnStream {| res_from := lit "en";
                res_to := lit "en";
                res_toParagraphs := [lit "Hi there"] |}]).
Proof.
  refine (stream_decoded_whatever_the_split sample_runtime sample_query
            chat_payloads chat_deltas chat_chunks_ragged _ _ _).
  - unfold chat_payloads, chat_deltas.
    constructor;
      [|constructor; [|constructor; [|constructor; [|constructor]]]];
      (split; [apply one_line_object_check; vm_compute; reflexivity|]);
      eexists; (split; [vm_compute; reflexivity|]).
    + eexists. split; [reflexivity|]. right. eexists _, _.
      split; [vm_compute; reflexivity|].
      right. eexists. split; [vm_compute; reflexivity|].
      right. right. vm_compute. reflexivity.
    + split; [|discriminate].
      eexists _, _, _, _. repeat split; vm_compute; reflexivity.
    + split; [|discriminate].
      eexists _, _, _, _. repeat split; vm_compute; reflexivity.
    + eexists. split; [reflexivity|]. right. eexists _, _.
      split; [vm_compute; reflexivity|].
      right. eexists. split; [vm_compute; reflexivity|].
      left. vm_compute. reflexivity.
  - repeat constructor; vm_compute; reflexivity.
  - vm_compute. reflexivity.
Defined.

(** The loop cuts the length of the match from the front of the buffer,
    wherever the match stands. A frame that the pattern does not match,
    here one with a blank between its closing brace and its line feed,
    stays in front of the match of the next frame; the cut removes the
    unmatched frame and leaves the matched one, which is then matched
    again: the delta a is lost and the delta X is decoded twice. *)
Example cut_from_the_front :
  Forall clean blank_chunks
  /\ let '(st, evs) :=
       feed sample_runtime sample_query initial_state (map Some blank_chunks) in
     partials evs = [lit "X"; lit "XX"; lit "XXY"]
     /\ targetText st = lit "XXY".
Proof.
  split; [constructor; [vm_compute; reflexivity | constructor]|].
  vm_compute. split; reflexivity.
Qed.

(** ** The cleanup of a response *)

Section CleanupFacts.
Local Open Scope N_scope.

Lemma replace_scan_snoc (s : jsstring) (c : N) :
  replace_scan false (s ++ [c]) = if isClosingQuote c then s else s ++ [c].
Proof.
  induction s as [|x s IH].
  - simpl. destruct (isClosingQuote c); reflexivity.
  - cbn [app replace_scan quote_match_at andb].
    replace (match s ++ [c] with [] => true | _ :: _ => false end)
      with false by (now destruct s).
    rewrite andb_false_r, IH. now destruct (isClosingQuote c).
Qed.

Lemma strip_trailing_quote_snoc (s : jsstring) (c : N) :
  strip_trailing_quote (s ++ [c]) =
  if isClosingQuote c then s else s ++ [c].
Proof.
  unfold strip_trailing_quote. rewrite rev_app_distr. simpl.
  now rewrite rev_involutive.
Qed.

(** Past the start of the input only the second alternative of the
    pattern can match, and only at the last character. *)
Lemma replace_scan_trailing (s : jsstring) :
  replace_scan false s = strip_trailing_quote s.
Proof.
  destruct s as [|c s] using rev_ind; [reflexivity|].
  now rewrite replace_scan_snoc, strip_trailing_quote_snoc.
Qed.

(** The global replacement removes an opening character at the start and
    a closing character at the end, each on its own. *)
Lemma replace_quotes_strips (s : jsstring) :
  replace_quotes s = strip_trailing_quote (strip_leading_quote s).
Proof.
  unfold replace_quotes. destruct s as [|c r]; [reflexivity|].
  cbn [replace_scan quote_match_at strip_leading_quote andb].
  destruct (isOpeningQuote c) eqn:Ho.
  - apply replace_scan_trailing.
  - rewrite <- replace_scan_trailing.
    cbn [replace_scan quote_match_at andb]. reflexivity.
Qed.
End CleanupFacts.

Lemma paragraphs_of_content (choices_rest : list json)
  (cm mm : list (jsstring * json)) (content : jsstring) :
  lookup_member (lit "message") cm = Some (JObject mm) ->
  lookup_member (lit "content") mm = Some (JString content) ->
  paragraphs_of (Some (JArray (JObject cm :: choices_rest))) =
  inr (split LF (cleanup content)).
Proof.
  intros Hm Hc. unfold paragraphs_of. cbn [get_index0 head get_field].
  rewrite Hm. cbn [get_field]. now rewrite Hc.
Qed.

(** C6, amended: for every non-streaming response whose first choice has a
    string as message content, the normalizer trims the content, removes a
    quotation-like opening character from its very start if there is one
    and, whether or not it pairs with it, a quotation-like closing
    character from its very end if there is one, removes the trailing
    artifact if present, and delivers the result split on the line feed as
    the ordered paragraphs; the body of the example normalizes to the one
    paragraph Bonjour. *)
Theorem handleGeneralResponse_normalizes (rt : Runtime) (query : Query) :
  (forall result content,
      has_message_content (resp_data result) content ->
      handleGeneralResponse rt query result =
      ([OnCompletion
          {| res_from := detectFrom query;
             res_to := detectTo query;
             res_toParagraphs :=
               split LF
                 (strip_arrow_artifact
                    (strip_trailing_quote
                       (strip_leading_quote (trim content)))) |}], None))
  /\ handleGeneralResponse rt query
       (json_response (litq "{'choices':[{'message':{'content':'“Bonjour”\n'}}]}")) =
     ([OnCompletion {| res_from := detectFrom query;
                       res_to := detectTo query;
                       res_toParagraphs := [lit "Bonjour"] |}], None).
Proof.
  split.
  - intros result content (ms & cm & mm & others & Hdata & Hch & Hm & Hc).
    unfold handleGeneralResponse. rewrite Hdata. cbn [get_field].
    rewrite Hch. cbn [truthy negb orb length_is_zero].
    rewrite (paragraphs_of_content _ _ _ _ Hm Hc).
    unfold cleanup. now rewrite replace_quotes_strips.
  - vm_compute. reflexivity.
Qed.

Lemma handleGeneralResponse_normalizes_witness :
  handleGeneralResponse sample_runtime sample_query
    (json_response (litq "{'choices':[{'message':{'content':' 「你好」 '}}]}")) =
  ([OnCompletion {| res_from := lit "en";
                    res_to := lit "en";
                    res_toParagraphs := [lit "你好"] |}], None).
Proof.
  refine (proj1 (handleGeneralResponse_normalizes sample_runtime sample_query)
            (json_response (litq "{'choices':[{'message':{'content':' 「你好」 '}}]}"))
            (lit " 「你好」 ") _).
  eexists _, _, _, _. repeat split; vm_compute; reflexivity.
Defined.

(** C6, as stated, fails: a content that opens with a quotation mark and
    does not close with one has no matching pair to strip, and the code
    strips the mark. *)
Lemma normalizer_counterexample :
  handleGeneralResponse sample_runtime sample_query
    (json_response (litq "{'choices':[{'message':{'content':'\'Hello'}}]}")) =
  ([OnCompletion {| res_from := lit "en";
                    res_to := lit "en";
                    res_toParagraphs := [lit "Hello"] |}], None)
  /\ worded_normalize (DQUOTE :: lit "Hello") = [DQUOTE :: lit "Hello"]
  /\ [lit "Hello"] <> worded_normalize (DQUOTE :: lit "Hello").
Proof.
  repeat split; vm_compute; try reflexivity. discriminate.
Qed.

(** The trailing artifact, evaluated: a content that ends in a quotation
    mark, a blank and an arrow loses these four characters. *)
Example normalizer_artifact :
  handleGeneralResponse sample_runtime sample_query
    (json_response (litq "{'choices':[{'message':{'content':'Hello\' =>'}}]}")) =
  ([OnCompletion {| res_from := lit "en";
                    res_to := lit "en";
                    res_toParagraphs := [lit "Hello"] |}], None)
  /\ strip_arrow_artifact (lit "Hello" ++ [DQUOTE] ++ lit " =>") = lit "Hello".
Proof. split; vm_compute; reflexivity. Qed.

(** ** Traces of [translate] *)

Section TraceFacts.
Context (rt : Runtime) (im : Imports).

Lemma transport_calls_app (a b : list Event) :
  transport_calls (a ++ b) = transport_calls a ++ transport_calls b.
Proof. apply List.filter_app. Qed.

Lemma deliveries_app (a b : list Event) :
  deliveries (a ++ b) = deliveries a ++ deliveries b.
Proof. apply omap_app. Qed.

Lemma handleStreamResponse_quiet (query : Query) (t payload : jsstring) :
  transport_calls (snd (handleStreamResponse rt query t payload)) = [].
Proof.
  unfold handleStreamResponse. destruct (negb _); [|reflexivity].
  destruct (stream_try rt t payload) as [e | [t' [|]]]; reflexivity.
Qed.

Lemma drain_quiet (query : Query) (n : nat) (st : StreamState) :
  transport_calls (snd (drain rt n query st)) = [].
Proof.
  revert st; induction n as [|n IH]; intros st; [reflexivity|].
  rewrite drain_S.
  destruct (frame_match (buffer st)) as [[m0 m1]|]; [|reflexivity].
  pose proof (handleStreamResponse_quiet query (targetText st) (trim m1)) as H.
  destruct (handleStreamResponse rt query (targetText st) (trim m1))
    as [t' evs].
  specialize (IH {| targetText := t';
                    buffer := slice_from (buffer st) (length m0) |}).
  destruct (drain rt n query _) as [st' evs']. simpl in *.
  now rewrite transport_calls_app, H, IH.
Qed.

Lemma streamHandler_quiet (query : Query) (st : StreamState)
  (chunk : option jsstring) :
  transport_calls (snd (streamHandler rt query st chunk)) = [].
Proof.
  unfold streamHandler. destruct chunk as [c|]; [|reflexivity].
  destruct (includes c _); [reflexivity | apply drain_quiet].
Qed.

Lemma feed_quiet (query : Query) (chunks : list (option jsstring))
  (st : StreamState) :
  transport_calls (snd (feed rt query st chunks)) = [].
Proof.
  revert st; induction chunks as [|c chunks IH]; intros st; [reflexivity|].
  rewrite feed_cons.
  pose proof (streamHandler_quiet query st c) as H.
  destruct (streamHandler rt query st c) as [st' evs].
  specialize (IH st'). destruct (feed rt query st' chunks) as [st'' evs'].
  simpl in *. now rewrite transport_calls_app, H, IH.
Qed.

(** The normalizer either reports once or throws, never both. *)
Lemma handleGeneralResponse_cases (query : Query) (result : HttpResponse) :
  (exists e, handleGeneralResponse rt query result = ([], Some e))
  \/ handleGeneralResponse rt query result =
     ([HandleGeneralError (ArgServiceError (no_result_error result))], None)
  \/ exists res,
      handleGeneralResponse rt query result = ([OnCompletion res], None).
Proof.
  unfold handleGeneralResponse.
  destruct (get_field (resp_data result) (lit "choices")) as [e|choices];
    [left; eauto|].
  destruct (negb (truthy rt choices) || _); [right; left; reflexivity|].
  destruct (paragraphs_of choices) as [e|ps]; [left; eauto | right; right; eauto].
Qed.

Lemma translate_checks_quiet (opt : Option) (query : Query) :
  transport_calls (translate_checks im opt query) = [].
Proof.
  unfold translate_checks.
  destruct (language_unsupported im query),
    (jseqb (model opt) (lit "custom") && negb (nonempty (customModel opt))),
    (negb (nonempty (apiKeys opt))),
    (isAzureServiceProvider opt && negb (nonempty (deploymentName opt)));
    reflexivity.
Qed.

(** Whatever the checks found, the asynchronous part issues its request:
    one transport call per translate call. *)
Lemma translate_async_one_call (opt : Option) (net : Network) (query : Query) :
  length (transport_calls (translate_async rt im opt net query)) = 1.
Proof.
  unfold translate_async.
  destruct (StringNumber_truthy rt (stream opt)).
  - pose proof (feed_quiet query
      (stream_chunks (streamRequest net
         (streaming_request (translate_request im opt query))))
      initial_state) as H.
    destruct (feed rt query initial_state _) as [st evs]. simpl in H.
    cbn [transport_calls List.filter is_transport_call].
    fold (transport_calls (evs ++
      match stream_end (streamRequest net
              (streaming_request (translate_request im opt query))) with
      | Resolves result => stream_end_handler query st result
      | Rejects reason => [HandleGeneralError (ArgRejection reason)]
      end)).
    rewrite transport_calls_app, H.
    destruct (stream_end _) as [result|reason]; [|reflexivity].
    unfold stream_end_handler. now destruct (400 <=? _)%Z.
  - cbn [transport_calls List.filter is_transport_call].
    destruct (request net _) as [result|reason]; [|reflexivity].
    destruct (resp_error result); [reflexivity|].
    destruct (handleGeneralResponse_cases query result)
      as [[e ->] | [-> | [res ->]]]; reflexivity.
Qed.

Lemma translate_one_call (opt : Option) (net : Network) (query : Query) :
  length (transport_calls (translate rt im opt net query)) = 1.
Proof.
  unfold translate.
  rewrite transport_calls_app, translate_checks_quiet.
  apply translate_async_one_call.
Qed.

(** The asynchronous part always ends in a completion. *)
Lemma translate_async_delivers (opt : Option) (net : Network) (query : Query) :
  1 <= length (deliveries (translate_async rt im opt net query)).
Proof.
  unfold translate_async.
  destruct (StringNumber_truthy rt (stream opt)).
  - destruct (feed rt query initial_state _) as [st evs].
    change (deliveries (HttpStreamRequest ?r :: ?l)) with (deliveries l).
    rewrite deliveries_app, length_app.
    destruct (stream_end _) as [result|reason]; [|simpl; lia].
    unfold stream_end_handler. destruct (400 <=? _)%Z; simpl; lia.
  - change (deliveries (HttpRequest ?r :: ?l)) with (deliveries l).
    destruct (request net _) as [result|reason]; [|simpl; lia].
    destruct (resp_error result); [simpl; lia|].
    destruct (handleGeneralResponse_cases query result)
      as [[e ->] | [-> | [res ->]]]; simpl; lia.
Qed.
End TraceFacts.

(** C2: the code reports the unsupported language first, and then issues
    the request all the same. The claim (no request is issued) is what the
    specification asks; the check of lines 272-278 lacks the return that
    the checks of pluginValidate have. *)
Theorem unsupported_language_still_requests (rt : Runtime) (im : Imports)
  (opt : Option) (net : Network) (query : Query) :
  language_unsupported im query = true ->
  (exists rest,
      translate rt im opt net query =
      HandleGeneralError (ArgServiceError unsupported_language_error) :: rest)
  /\ length (transport_calls (translate rt im opt net query)) = 1.
Proof.
  intros H. split; [|apply translate_one_call].
  unfold translate, translate_checks. rewrite H. eexists. reflexivity.
Qed.

Lemma unsupported_language_still_requests_witness :
  (exists rest,
      translate sample_runtime sample_imports sample_option
        (sample_network hello_response []) klingon_query =
      HandleGeneralError (ArgServiceError unsupported_language_error) :: rest)
  /\ length (transport_calls
               (translate sample_runtime sample_imports sample_option
                  (sample_network hello_response []) klingon_query)) = 1.
Proof.
  apply unsupported_language_still_requests. vm_compute. reflexivity.
Defined.

(** C3: after a failed check the code goes on, and the call completes a
    second time. The claim (one completion per call) is what the
    specification asks; the checks of lines 272-327 lack the return that
    the checks of pluginValidate have. *)
Theorem unsupported_language_completes_twice (rt : Runtime) (im : Imports)
  (opt : Option) (net : Network) (query : Query) :
  language_unsupported im query = true ->
  2 <= length (deliveries (translate rt im opt net query)).
Proof.
  intros H. unfold translate, translate_checks. rewrite H.
  rewrite !deliveries_app, !length_app.
  pose proof (translate_async_delivers rt im opt net query).
  change (length (deliveries
            [HandleGeneralError (ArgServiceError unsupported_language_error)]))
    with 1.
  lia.
Qed.

Lemma unsupported_language_completes_twice_witness :
  2 <= length (deliveries
                 (translate sample_runtime sample_imports sample_option
                    (sample_network hello_response []) klingon_query)).
Proof.
  apply unsupported_language_completes_twice. vm_compute. reflexivity.
Defined.

(** The failing input of C2 and C3, evaluated. *)
Example translate_klingon :
  translate sample_runtime sample_imports sample_option
    (sample_network hello_response []) klingon_query =
  [ HandleGeneralError (ArgServiceError unsupported_language_error);
    HttpRequest (translate_request sample_imports sample_option klingon_query);
    OnCompletion {| res_from := lit "en"; res_to := lit "tlh";
                    res_toParagraphs := [lit "Hello world"] |} ].
Proof. vm_compute. reflexivity. Qed.

(** ** The host of the base URL *)

Section HostFacts.
Local Open Scope N_scope.

Lemma includes_app_r (pre s needle : jsstring) :
  includes s needle = true -> includes (pre ++ s) needle = true.
Proof.
  intros H. induction pre as [|c pre IH]; [exact H|].
  change ((c :: pre) ++ s) with (c :: (pre ++ s)).
  cbn [includes]. rewrite IH. apply orb_true_r.
Qed.

Lemma after_scheme_suffix (url rest : jsstring) :
  after_scheme url = Some rest -> exists pre, url = pre ++ rest.
Proof.
  induction url as [|c url IH]; [discriminate|].
  cbn [after_scheme].
  destruct (startsWith (c :: url) (lit "://")).
  - intros [= <-]. exists (c :: take 2 url). cbn. f_equal.
    symmetry. apply take_drop.
  - intros H. destruct (IH H) as [pre ->]. now exists (c :: pre).
Qed.

Lemma authority_prefix (s : jsstring) : exists post, s = authority s ++ post.
Proof.
  induction s as [|c s [post IH]]; [now exists []|].
  cbn [authority]. destruct ((c =? 47) || (c =? 63) || (c =? 35)).
  - now exists (c :: s).
  - exists post. cbn. now rewrite <- IH.
Qed.

(** The host is a piece of the URL: what the host contains, the URL
    contains. *)
Lemma includes_host (url needle : jsstring) :
  includes (host_of url) needle = true -> includes url needle = true.
Proof.
  unfold host_of. intros H.
  destruct (after_scheme url) as [rest|] eqn:E.
  - destruct (after_scheme_suffix _ _ E) as [pre ->].
    destruct (authority_prefix rest) as [post Hpost].
    rewrite Hpost. apply includes_app_r. now apply includes_app_l.
  - destruct (authority_prefix url) as [post Hpost].
    rewrite Hpost. now apply includes_app_l.
Qed.
End HostFacts.

(** C4: with a base URL whose host contains openai.azure.com and an empty
    deployment name, the call hands the secretKey error to the error
    handler and then issues its request all the same, and completes a
    second time. The claim (the call fails before any network call) is
    what the specification asks; the check of lines 315-327 lacks the
    return that the checks of pluginValidate have. *)
Theorem azure_without_deployment_still_requests (rt : Runtime) (im : Imports)
  (opt : Option) (net : Network) (query : Query) :
  includes (host_of (baseUrl_of opt)) (lit "openai.azure.com") = true ->
  deploymentName opt = [] ->
  (exists pre,
      translate rt im opt net query =
        pre ++ HandleGeneralError (ArgServiceError deployment_name_error)
            :: translate_async rt im opt net query
      /\ transport_calls pre = [])
  /\ deployment_name_error =
     {| err_type := secretKey;
        err_message := Some (JString (lit "配置错误 - 未填写 Deployment Name"));
        err_addition := Some (lit "请在插件配置中填写 Deployment Name");
        err_troubleshootingLink :=
          Some (lit "https://bobtranslate.com/service/translate/azureopenai.html") |}
  /\ classify (ArgServiceError deployment_name_error) = KSecretKey
  /\ length (transport_calls (translate rt im opt net query)) = 1
  /\ 2 <= length (deliveries (translate rt im opt net query)).
Proof.
  intros Hhost Hname.
  assert (Hazure : isAzureServiceProvider opt = true)
    by (apply includes_host; exact Hhost).
  assert (Htrace : exists pre,
      translate rt im opt net query =
        pre ++ HandleGeneralError (ArgServiceError deployment_name_error)
            :: translate_async rt im opt net query
      /\ transport_calls pre = []).
  { pose proof (translate_checks_quiet im opt query) as Hquiet.
    unfold translate, translate_checks in *. rewrite Hazure, Hname in *.
    cbn [nonempty negb andb] in *.
    rewrite !app_assoc in *. eexists. split; [now rewrite <- app_assoc|].
    rewrite transport_calls_app in Hquiet.
    now apply app_eq_nil in Hquiet as [-> _]. }
  split; [exact Htrace|]. do 2 (split; [reflexivity|]).
  split; [apply translate_one_call|].
  destruct Htrace as (pre & -> & _).
  rewrite deliveries_app, length_app.
  change (deliveries (HandleGeneralError ?a :: ?l))
    with (DeliverError (classify a) a :: deliveries l).
  pose proof (translate_async_delivers rt im opt net query).
  cbn [length]. lia.
Qed.

Lemma azure_without_deployment_still_requests_witness :
  (exists pre,
      translate sample_runtime sample_imports azure_option
        (sample_network hello_response []) sample_query =
        pre ++ HandleGeneralError (ArgServiceError deployment_name_error)
            :: translate_async sample_runtime sample_imports azure_option
                 (sample_network hello_response []) sample_query
      /\ transport_calls pre = [])
  /\ deployment_name_error =
     {| err_type := secretKey;
        err_message := Some (JString (lit "配置错误 - 未填写 Deployment Name"));
        err_addition := Some (lit "请在插件配置中填写 Deployment Name");
        err_troubleshootingLink :=
          Some (lit "https://bobtranslate.com/service/translate/azureopenai.html") |}
  /\ classify (ArgServiceError deployment_name_error) = KSecretKey
  /\ length (transport_calls
               (translate sample_runtime sample_imports azure_option
                  (sample_network hello_response []) sample_query)) = 1
  /\ 2 <= length (deliveries
                    (translate sample_runtime sample_imports azure_option
                       (sample_network hello_response []) sample_query)).
Proof.
  apply azure_without_deployment_still_requests; vm_compute; reflexivity.
Defined.

(** The failing input, evaluated: the error, then the request to the
    path of the other providers, then the result. *)
Example translate_azure_without_deployment :
  translate sample_runtime sample_imports azure_option
    (sample_network hello_response []) sample_query =
  [ HandleGeneralError (ArgServiceError deployment_name_error);
    HttpRequest (translate_request sample_imports azure_option sample_query);
    OnCompletion {| res_from := lit "en"; res_to := lit "en";
                    res_toParagraphs := [lit "Hello world"] |} ]
  /\ req_url (translate_request sample_imports azure_option sample_query) =
     lit "https://polish.openai.azure.com/v1/chat/completions"
  /\ deliveries (translate sample_runtime sample_imports azure_option
                   (sample_network hello_response []) sample_query) =
     [ DeliverError KSecretKey (ArgServiceError deployment_name_error);
       DeliverResult {| res_from := lit "en"; res_to := lit "en";
                        res_toParagraphs := [lit "Hello world"] |} ].
Proof.
  repeat match goal with |- _ /\ _ => split end; vm_compute; reflexivity.
Qed.

(** When the base URL does not mention the Azure host at all, the
    deployment name changes nothing of the trace of the call, request and
    outcome included. *)
Lemma deploymentName_unused_without_azure (rt : Runtime) (im : Imports)
  (opt : Option) (net : Network) (query : Query) (d : jsstring) :
  isAzureServiceProvider opt = false ->
  translate rt im (with_deploymentName d opt) net query =
  translate rt im opt net query.
Proof.
  intros Hazure.
  assert (Hazure' : isAzureServiceProvider (with_deploymentName d opt) = false)
    by exact Hazure.
  unfold translate, translate_checks, translate_async, translate_request,
    translate_path.
  rewrite Hazure, Hazure'. reflexivity.
Qed.

(** The test of the code reads the whole base URL: a mention of the Azure
    host in the path of another host selects the Azure branch, and the
    deployment name enters the URL of the request. *)
Example azure_test_reads_whole_url :
  host_of (baseUrl_of proxy_option) = lit "proxy.example.com"
  /\ includes (host_of (baseUrl_of proxy_option)) (lit "openai.azure.com") = false
  /\ isAzureServiceProvider proxy_option = true
  /\ req_url (translate_request sample_imports proxy_option sample_query) =
     lit "https://proxy.example.com/openai.azure.com/openai/deployments/gpt35/chat/completions?api-version=2023-03-15-preview"
  /\ req_url (translate_request sample_imports
                (with_deploymentName [] proxy_option) sample_query) =
     lit "https://proxy.example.com/openai.azure.com/v1/chat/completions".
Proof.
  repeat match goal with |- _ /\ _ => split end; vm_compute; reflexivity.
Qed.

(** ** A response without choices, or without content *)

Section NoChoices.
Context (rt : Runtime) (im : Imports).

Lemma translate_async_plain (opt : Option) (net : Network) (query : Query)
  (result : HttpResponse) :
  StringNumber_truthy rt (stream opt) = false ->
  request net (translate_request im opt query) = Resolves result ->
  resp_error result = false ->
  translate_async rt im opt net query =
  HttpRequest (translate_request im opt query)
    :: fst (handleGeneralResponse rt query result)
    ++ match snd (handleGeneralResponse rt query result) with
       | Some e => [HandleGeneralError (ArgThrown e)]
       | None => []
       end.
Proof.
  intros Hs Hr He. unfold translate_async. rewrite Hs, Hr, He.
  now destruct (handleGeneralResponse rt query result).
Qed.

Lemma translate_checks_errors (opt : Option) (query : Query) :
  Forall (fun ev => exists e, ev = HandleGeneralError (ArgServiceError e))
    (translate_checks im opt query).
Proof.
  unfold translate_checks.
  repeat (apply Forall_app; split);
    match goal with |- context [if ?c then _ else _] => destruct c end;
    repeat constructor; eauto.
Qed.

Lemma translate_checks_no_result (opt : Option) (query : Query)
  (res : TranslateResult) :
  ~ In (DeliverResult res) (deliveries (translate_checks im opt query)).
Proof.
  pose proof (translate_checks_errors opt query) as H.
  induction H as [|ev evs [e ->] _ IH]; [intros []|].
  cbn. intros [Heq | Hin]; [discriminate | auto].
Qed.

(** A body without usable choices makes the normalizer report its api
    error. *)
Lemma handleGeneralResponse_reports (query : Query) (result : HttpResponse)
  (data : json) :
  resp_data result = Some data ->
  choices_absent_or_empty data ->
  handleGeneralResponse rt query result =
  ([HandleGeneralError (ArgServiceError (no_result_error result))], None).
Proof.
  intros Hdata Hchoices. unfold handleGeneralResponse. rewrite Hdata.
  destruct data as [| b | n | s | l | ms]; try reflexivity; [contradiction|].
  cbn [get_field]. destruct Hchoices as [-> | [-> | ->]]; reflexivity.
Qed.

(** Without a body the read of [choices] throws. *)
Lemma handleGeneralResponse_no_body (query : Query) (result : HttpResponse) :
  resp_data result = None \/ resp_data result = Some JNull ->
  handleGeneralResponse rt query result = ([], Some TypeError).
Proof.
  intros [H | H]; unfold handleGeneralResponse; now rewrite H.
Qed.

(** A plain call that, after its request, only reports errors delivers no
    result. *)
Lemma translate_plain_no_result (opt : Option) (net : Network) (query : Query)
  (tail : list Event) :
  translate_async rt im opt net query =
    HttpRequest (translate_request im opt query) :: tail ->
  Forall (fun ev => exists arg, ev = HandleGeneralError arg) tail ->
  forall res,
    ~ In (DeliverResult res) (deliveries (translate rt im opt net query)).
Proof.
  intros Ha Htail res. unfold translate.
  rewrite deliveries_app, in_app_iff. intros [Hin | Hin].
  - exact (translate_checks_no_result opt query res Hin).
  - rewrite Ha in Hin.
    change (deliveries (HttpRequest ?r :: ?l)) with (deliveries l) in Hin.
    clear Ha. revert Hin.
    induction Htail as [|ev evs [arg ->] _ IH]; [intros []|].
    cbn. intros [Heq | Hin]; [discriminate | auto].
Qed.
End NoChoices.

(** C7, amended: for every non-streaming response that has a body (its
    data is neither undefined nor null) whose choices are absent, null or
    an empty array, the normalizer hands the error handler an api error
    whose addition is the serialized response, and delivers no result;
    the translate call that received the response delivers no result
    either. For a response without body the read of the choices throws:
    the catch of the call hands the exception to the error handler, which
    reports an error of the generic kind, and again no result is
    delivered. *)
Theorem handleGeneralResponse_no_choices (rt : Runtime) (query : Query)
  (result : HttpResponse) :
  (forall data,
      resp_data result = Some data ->
      choices_absent_or_empty data ->
      handleGeneralResponse rt query result =
        ([HandleGeneralError
            (ArgServiceError
               {| err_type := api;
                  err_message := Some (JString (lit "接口未返回结果"));
                  err_addition := Some (resp_stringified result);
                  err_troubleshootingLink := None |})], None)
      /\ classify
           (ArgServiceError
              {| err_type := api;
                 err_message := Some (JString (lit "接口未返回结果"));
                 err_addition := Some (resp_stringified result);
                 err_troubleshootingLink := None |}) = KApi
      /\ forall im opt net,
           StringNumber_truthy rt (stream opt) = false ->
           request net (translate_request im opt query) = Resolves result ->
           resp_error result = false ->
           translate_async rt im opt net query =
             [HttpRequest (translate_request im opt query);
              HandleGeneralError
                (ArgServiceError
                   {| err_type := api;
                      err_message := Some (JString (lit "接口未返回结果"));
                      err_addition := Some (resp_stringified result);
                      err_troubleshootingLink := None |})]
           /\ forall res,
                ~ In (DeliverResult res)
                     (deliveries (translate rt im opt net query)))
  /\ (resp_data result = None \/ resp_data result = Some JNull ->
      handleGeneralResponse rt query result = ([], Some TypeError)
      /\ classify (ArgThrown TypeError) = KUnknown
      /\ forall im opt net,
           StringNumber_truthy rt (stream opt) = false ->
           request net (translate_request im opt query) = Resolves result ->
           resp_error result = false ->
           translate_async rt im opt net query =
             [HttpRequest (translate_request im opt query);
              HandleGeneralError (ArgThrown TypeError)]
           /\ forall res,
                ~ In (DeliverResult res)
                     (deliveries (translate rt im opt net query))).
Proof.
  split.
  - intros data Hdata Hchoices.
    pose proof (handleGeneralResponse_reports rt query result data
                  Hdata Hchoices) as Hnorm.
    split; [exact Hnorm|]. split; [reflexivity|].
    intros im opt net Hs Hr He.
    pose proof (translate_async_plain rt im opt net query result Hs Hr He) as Ha.
    rewrite Hnorm in Ha. cbn [fst snd app] in Ha.
    split; [exact Ha|].
    apply (translate_plain_no_result rt im opt net query _ Ha).
    repeat constructor. eauto.
  - intros Hdata.
    pose proof (handleGeneralResponse_no_body rt query result Hdata) as Hnorm.
    split; [exact Hnorm|]. split; [reflexivity|].
    intros im opt net Hs Hr He.
    pose proof (translate_async_plain rt im opt net query result Hs Hr He) as Ha.
    rewrite Hnorm in Ha. cbn [fst snd app] in Ha.
    split; [exact Ha|].
    apply (translate_plain_no_result rt im opt net query _ Ha).
    repeat constructor. eauto.
Qed.

Lemma handleGeneralResponse_no_choices_witness :
  handleGeneralResponse sample_runtime sample_query
    (json_response (litq "{'choices':[]}")) =
  ([HandleGeneralError
      (ArgServiceError
         {| err_type := api;
            err_message := Some (JString (lit "接口未返回结果"));
            err_addition := Some (litq "{'data':{'choices':[]}}");
            err_troubleshootingLink := None |})], None).
Proof.
  refine (proj1 (proj1 (handleGeneralResponse_no_choices sample_runtime
                          sample_query (json_response (litq "{'choices':[]}")))
                   (JObject [(lit "choices", JArray [])]) _ _)).
  - vm_compute. reflexivity.
  - right. right. vm_compute. reflexivity.
Defined.

(** C7, as stated, fails: a response without body has no choices, and the
    call that receives it reports the thrown exception, an error of the
    generic kind and without the serialized response, not the api
    error. *)
Lemma no_body_counterexample :
  resp_data empty_response = None
  /\ resp_error empty_response = false
  /\ handleGeneralResponse sample_runtime sample_query empty_response =
     ([], Some TypeError)
  /\ translate sample_runtime sample_imports sample_option
       (sample_network empty_response []) sample_query =
     [HttpRequest (translate_request sample_imports sample_option sample_query);
      HandleGeneralError (ArgThrown TypeError)]
  /\ deliveries (translate sample_runtime sample_imports sample_option
                   (sample_network empty_response []) sample_query) =
     [DeliverError KUnknown (ArgThrown TypeError)].
Proof.
  repeat match goal with |- _ /\ _ => split end; vm_compute; reflexivity.
Qed.

(** C10: when the first choice of a non-streaming response has a message
    whose content is absent or null, the normalizer delivers neither a
    result nor its api error: the split on an undefined text throws, and
    the catch of the translate call hands the exception to the error
    handler. *)
Theorem handleGeneralResponse_missing_content (rt : Runtime) (query : Query)
  (result : HttpResponse) (ms cm mm : list (jsstring * json))
  (others : list json) :
  resp_data result = Some (JObject ms) ->
  lookup_member (lit "choices") ms = Some (JArray (JObject cm :: others)) ->
  lookup_member (lit "message") cm = Some (JObject mm) ->
  lookup_member (lit "content") mm = None
  \/ lookup_member (lit "content") mm = Some JNull ->
  handleGeneralResponse rt query result = ([], Some TypeError)
  /\ forall im opt net,
       StringNumber_truthy rt (stream opt) = false ->
       request net (translate_request im opt query) = Resolves result ->
       resp_error result = false ->
       translate_async rt im opt net query =
         [HttpRequest (translate_request im opt query);
          HandleGeneralError (ArgThrown TypeError)]
       /\ classify (ArgThrown TypeError) = KUnknown.
Proof.
  intros Hdata Hchoices Hmessage Hcontent.
  assert (Hnorm : handleGeneralResponse rt query result = ([], Some TypeError)).
  { unfold handleGeneralResponse. rewrite Hdata. cbn [get_field].
    rewrite Hchoices. cbn [truthy negb orb length_is_zero].
    unfold paragraphs_of. cbn [get_index0 head get_field]. rewrite Hmessage.
    cbn [get_field]. destruct Hcontent as [-> | ->]; reflexivity. }
  split; [exact Hnorm|]. intros im opt net Hs Hr He. split; [|reflexivity].
  rewrite (translate_async_plain rt im opt net query result Hs Hr He).
  now rewrite Hnorm.
Qed.

Lemma handleGeneralResponse_missing_content_witness :
  handleGeneralResponse sample_runtime sample_query
    (json_response (litq "{'choices':[{'message':{'role':'assistant','content':null}}]}")) =
  ([], Some TypeError).
Proof.
  refine (proj1 (handleGeneralResponse_missing_content sample_runtime sample_query
                   (json_response (litq "{'choices':[{'message':{'role':'assistant','content':null}}]}"))
                   [(lit "choices",
                     JArray [JObject [(lit "message",
                                       JObject [(lit "role", JString (lit "assistant"));
                                                (lit "content", JNull)])]])]
                   [(lit "message",
                     JObject [(lit "role", JString (lit "assistant"));
                              (lit "content", JNull)])]
                   [(lit "role", JString (lit "assistant")); (lit "content", JNull)]
                   [] _ _ _ _)).
  - vm_compute. reflexivity.
  - vm_compute. reflexivity.
  - vm_compute. reflexivity.
  - right. vm_compute. reflexivity.
Defined.

(** ** The validation probe *)

(** C8: a response without error whose list is empty (or, for the model
    list, absent) makes neither handler call anything, and the probe
    ends without ever calling the completion callback. The claim (the
    callback is called for every response) is what the specification asks;
    both handlers test for the non-empty list and have no branch for the
    rest. *)
Theorem validate_silent_on_empty (rt : Runtime) (resp : HttpResponse)
  (ms : list (jsstring * json)) :
  resp_data resp = Some (JObject ms) ->
  lookup_member (lit "error") ms = None ->
  (lookup_member (lit "choices") ms = Some (JArray []) ->
   validate_handler_azure rt resp = ([], None))
  /\ (lookup_member (lit "data") ms = None
      \/ lookup_member (lit "data") ms = Some (JArray []) ->
      validate_handler_openai rt resp = ([], None)
      /\ forall im opt net,
           nonempty (apiKeys opt) = true ->
           includes (apiUrl opt) (lit "openai.azure.com") = false ->
           (forall req, request net req = Resolves resp) ->
           deliveries (fst (pluginValidate rt im opt net)) = []
           /\ snd (pluginValidate rt im opt net) = None).
Proof.
  intros Hdata Herror. split.
  - intros Hchoices. unfold validate_handler_azure.
    rewrite Hdata. cbn [get_field]. rewrite Herror, Hchoices. reflexivity.
  - intros Hlist.
    assert (Hh : validate_handler_openai rt resp = ([], None)).
    { unfold validate_handler_openai. rewrite Hdata. cbn [get_field].
      rewrite Herror. destruct Hlist as [-> | ->]; reflexivity. }
    split; [exact Hh|].
    intros im opt net Hkeys Hazure Hnet. unfold pluginValidate.
    rewrite Hkeys, Hazure, Hnet, Hh. split; reflexivity.
Qed.

Lemma validate_silent_on_empty_witness :
  deliveries (fst (pluginValidate sample_runtime sample_imports sample_option
                     (sample_network (json_response (litq "{'object':'list','data':[]}")) [])))
  = []
  /\ snd (pluginValidate sample_runtime sample_imports sample_option
            (sample_network (json_response (litq "{'object':'list','data':[]}")) []))
     = None.
Proof.
  refine (proj2 (proj2 (validate_silent_on_empty sample_runtime
                   (json_response (litq "{'object':'list','data':[]}"))
                   [(lit "object", JString (lit "list")); (lit "data", JArray [])]
                   _ _) _)
            sample_imports sample_option _ _ _ _).
  - vm_compute. reflexivity.
  - vm_compute. reflexivity.
  - right. vm_compute. reflexivity.
  - vm_compute. reflexivity.
  - vm_compute. reflexivity.
  - intros req. reflexivity.
Defined.

(** The failing input of C8, evaluated: the request, and nothing after. *)
Example pluginValidate_empty_model_list :
  exists req,
    pluginValidate sample_runtime sample_imports sample_option
      (sample_network (json_response (litq "{'object':'list','data':[]}")) [])
    = ([HttpRequest req], None)
    /\ req_method req = lit "GET"
    /\ req_url req = lit "https://api.openai.com/v1/models".
Proof. eexists. repeat split; vm_compute; reflexivity. Qed.

(** A response with a model makes the probe succeed. *)
Example pluginValidate_one_model :
  deliveries (fst (pluginValidate sample_runtime sample_imports sample_option
                     (sample_network
                        (json_response (litq "{'object':'list','data':[{'id':'gpt-4'}]}")) [])))
  = [DeliverValid true].
Proof. vm_compute. reflexivity. Qed.

(** ** The request builder *)

(** C9: for every model name and query the payload has the two messages,
    the first of role system and the second of role user, the fixed
    sampling parameters, and no prompt member; it depends on nothing but
    the model, the query and the three prompt options. *)
Theorem buildRequestBody_shape (im : Imports) (opt : Option)
  (model : jsstring) (query : Query) :
  (exists systemPrompt userPrompt,
      buildRequestBody im opt model query =
      JObject
        [ (lit "model", JString model);
          (lit "temperature", JNumber (lit "0.2"));
          (lit "max_tokens", JNumber (lit "1000"));
          (lit "top_p", JNumber (lit "1"));
          (lit "frequency_penalty", JNumber (lit "1"));
          (lit "presence_penalty", JNumber (lit "1"));
          (lit "messages",
           JArray
             [ JObject [(lit "role", JString (lit "system"));
                        (lit "content", JString systemPrompt)];
               JObject [(lit "role", JString (lit "user"));
                        (lit "content", JString userPrompt)] ]) ])
  /\ get_field (Some (buildRequestBody im opt model query)) (lit "prompt")
     = inr None
  /\ (forall opt',
         customSystemPrompt opt' = customSystemPrompt opt ->
         customUserPrompt opt' = customUserPrompt opt ->
         polishingMode opt' = polishingMode opt ->
         buildRequestBody im opt' model query =
         buildRequestBody im opt model query).
Proof.
  split; [eexists _, _; reflexivity|]. split.
  - unfold buildRequestBody. cbn [get_field]. vm_compute. reflexivity.
  - intros opt' Hs Hu Hp. unfold buildRequestBody. now rewrite Hs, Hu, Hp.
Qed.

Lemma buildRequestBody_shape_witness :
  buildRequestBody sample_imports
    (with_deploymentName (lit "gpt35") (with_stream_option (lit "1") sample_option))
    (lit "gpt-4") sample_query =
  buildRequestBody sample_imports sample_option (lit "gpt-4") sample_query.
Proof.
  apply (proj2 (proj2 (buildRequestBody_shape sample_imports sample_option
                         (lit "gpt-4") sample_query)));
    reflexivity.
Defined.

(** The payload of the samples, evaluated. *)
Example buildRequestBody_sample :
  buildRequestBody sample_imports sample_option (lit "gpt-4") sample_query =
  JObject
    [ (lit "model", JString (lit "gpt-4"));
      (lit "temperature", JNumber (lit "0.2"));
      (lit "max_tokens", JNumber (lit "1000"));
      (lit "top_p", JNumber (lit "1"));
      (lit "frequency_penalty", JNumber (lit "1"));
      (lit "presence_penalty", JNumber (lit "1"));
      (lit "messages",
       JArray
         [ JObject [(lit "role", JString (lit "system"));
                    (lit "content",
                     JString (lit "Revise the following sentences to make them more clear, concise, and coherent."))];
           JObject [(lit "role", JString (lit "user"));
                    (lit "content", JString (lit "Helo wrld"))] ]) ].
Proof. vm_compute. reflexivity. Qed.

(** ** Evaluations of the embedded runtime *)

Example JSON_parse_nested :
  JSON_parse (litq " { 'a' : [1, -2.5e+3, true, null, 'xé\n'], 'a' : {} } ") =
  Some (JObject [(lit "a", JArray [JNumber (lit "1"); JNumber (lit "-2.5e+3");
                                   JBool true; JNull;
                                   JString (lit "x" ++ [233; 10]%N)]);
                 (lit "a", JObject [])]).
Proof. vm_compute. reflexivity. Qed.

Example JSON_parse_rejects :
  map JSON_parse
    [ litq "[DONE]"; litq "{'a':1,}"; litq "{a:1}"; litq "01"; litq "1 2";
      litq "'tab	'"; litq "-"; litq "[1"; litq "" ] =
  [None; None; None; None; None; None; None; None; None].
Proof. vm_compute. reflexivity. Qed.

Example lookup_member_last_wins :
  get_field (JSON_parse (litq "{'k':1,'k':2}")) (lit "k") =
  inr (Some (JNumber (lit "2"))).
Proof. vm_compute. reflexivity. Qed.

Example trim_unicode :
  trim ([65279; 32; 9]%N ++ lit "a b" ++ [160; 8233; 10]%N) = lit "a b".
Proof. vm_compute. reflexivity. Qed.

Example split_trailing_line_feed :
  split LF (lit "a" ++ [LF] ++ lit "b" ++ [LF]) = [lit "a"; lit "b"; []]
  /\ split LF [] = [[]].
Proof. split; vm_compute; reflexivity. Qed.

Example ensureHttpsAndNoTrailingSlash_samples :
  map ensureHttpsAndNoTrailingSlash
    [ lit "api.openai.com/"; lit "HTTP://localhost:8080"; lit "https://a.b//" ] =
  [ lit "https://api.openai.com"; lit "HTTP://localhost:8080"; lit "https://a.b/" ].
Proof. vm_compute. reflexivity. Qed.

(** The sentinel alone is no match of the frame pattern, which asks for a
    closing brace before the line feed. *)
Example frame_match_samples :
  frame_match (litq "data: [DONE]" ++ [LF]) = None
  /\ frame_match (litq ": ping" ++ [LF] ++ litq "data:  {'a':{}} " ++ [LF]
                    ++ litq "data: {}" ++ [LF]) =
     Some (litq "data: {}" ++ [LF], litq "{}").
Proof. split; vm_compute; reflexivity. Qed.

(** A payload that is not JSON is reported as a param error and adds
    nothing to the text. *)
Example handleStreamResponse_malformed :
  handleStreamResponse sample_runtime sample_query (lit "Hi") (litq "{'choices':}") =
  (lit "Hi",
   [HandleGeneralError
      (ArgServiceError
         {| err_type := param;
            err_message := Some (JString (lit "Unexpected token in JSON"));
            err_addition := None;
            err_troubleshootingLink := None |})]).
Proof. vm_compute. reflexivity. Qed.

Example replace_quotes_samples :
  map replace_quotes
    [ [DQUOTE]; [DQUOTE; DQUOTE]; lit "「a”"; lit "a「"; DQUOTE :: lit "a" ++ [DQUOTE; LF] ] =
  [ []; []; lit "a"; lit "a「"; lit "a" ++ [DQUOTE; LF] ].
Proof. vm_compute. reflexivity. Qed.

(** * Further properties of the code *)

(** ** Base URLs *)

Section UrlFacts.
Local Open Scope N_scope.

Lemma endsWith_snoc (s : jsstring) (x : N) :
  endsWith s [x] = true <-> exists s', s = s' ++ [x].
Proof.
  unfold endsWith. rewrite startsWith_iff. simpl. split.
  - intros [r Hr]. exists (rev r).
    rewrite <- (rev_involutive s), Hr. simpl. reflexivity.
  - intros [s' ->]. exists (rev s'). now rewrite rev_app_distr.
Qed.

Lemma slice_to_minus_snoc (s : jsstring) (x : N) :
  slice_to_minus (s ++ [x]) 1 = s.
Proof.
  unfold slice_to_minus. rewrite length_app. simpl.
  replace (length s + 1 - 1)%nat with (length s) by lia.
  now rewrite take_app_length.
Qed.

(** A character that the pattern does not hold, put at the end of a text,
    neither completes nor breaks an occurrence of the pattern. *)
Lemma startsWith_snoc_other (p s : jsstring) (x : N) :
  ~ In x p -> startsWith (s ++ [x]) p = startsWith s p.
Proof.
  revert s; induction p as [|a p IH]; intros s Hx.
  - now destruct s.
  - destruct s as [|y s]; simpl.
    + destruct (a =? x) eqn:E; [|reflexivity].
      apply N.eqb_eq in E. subst. exfalso. apply Hx. now left.
    + rewrite IH; [reflexivity|]. intros Hin. apply Hx. now right.
Qed.

Lemma includes_snoc_other (p s : jsstring) (x : N) :
  ~ In x p -> includes (s ++ [x]) p = includes s p.
Proof.
  intros Hx. induction s as [|y s IH].
  - pose proof (startsWith_snoc_other p [] x Hx) as H.
    cbn [app] in *. cbn [includes]. rewrite H.
    now destruct (startsWith [] p).
  - change ((y :: s) ++ [x]) with (y :: (s ++ [x])).
    cbn [includes]. rewrite IH.
    pose proof (startsWith_snoc_other p (y :: s) x Hx) as H.
    cbn [app] in H. now rewrite H.
Qed.

(** A character other than the first of the pattern, put in front of a
    text, starts no occurrence. *)
Lemma includes_cons_other (a c : N) (p s : jsstring) :
  a <> c -> includes (c :: s) (a :: p) = includes s (a :: p).
Proof.
  intros Hne. cbn [includes startsWith].
  destruct (a =? c) eqn:E; [|reflexivity].
  apply N.eqb_eq in E. contradiction.
Qed.

Lemma includes_https_azure (s : jsstring) :
  includes (lit "https://" ++ s) (lit "openai.azure.com") =
  includes s (lit "openai.azure.com").
Proof.
  change (lit "https://" ++ s)
    with (104 :: 116 :: 116 :: 112 :: 115 :: 58 :: 47 :: 47 :: s).
  change (lit "openai.azure.com") with (111 :: lit "penai.azure.com").
  now rewrite !includes_cons_other by discriminate.
Qed.

Lemma includes_slash_azure (s : jsstring) :
  includes (s ++ lit "/") (lit "openai.azure.com") =
  includes s (lit "openai.azure.com").
Proof.
  apply includes_snoc_other. vm_compute.
  intros H. repeat (destruct H as [H | H]; [discriminate|]). exact H.
Qed.

(** The normalization of a base URL neither adds nor removes a mention of
    the Azure host. *)
Lemma ensureHttps_azure (url : jsstring) :
  includes (ensureHttpsAndNoTrailingSlash url) (lit "openai.azure.com") =
  includes url (lit "openai.azure.com").
Proof.
  unfold ensureHttpsAndNoTrailingSlash.
  set (m := if hasProtocol url then url else lit "https://" ++ url).
  assert (Hm : includes m (lit "openai.azure.com") =
               includes url (lit "openai.azure.com")).
  { unfold m. destruct (hasProtocol url); [reflexivity|].
    apply includes_https_azure. }
  destruct (endsWith m (lit "/")) eqn:E; [|exact Hm].
  apply (endsWith_snoc m 47) in E as [s' Hs']. rewrite Hs' in *.
  rewrite slice_to_minus_snoc. rewrite <- Hm.
  symmetry. apply includes_slash_azure.
Qed.
End UrlFacts.

(** X1: the Azure test of pluginValidate, on the raw apiUrl option, and the
    Azure test of translate, on the normalized base URL, agree for every
    configuration: both entry points take the same provider branch. *)
Theorem provider_tests_agree (opt : Option) :
  includes (apiUrl opt) (lit "openai.azure.com") = isAzureServiceProvider opt.
Proof.
  unfold isAzureServiceProvider, baseUrl_of. rewrite ensureHttps_azure.
  destruct (apiUrl opt) as [|c u]; [vm_compute|]; reflexivity.
Qed.

(** X2: a URL that carries a scheme, in any letter case, is returned
    without its last character when that is a slash, and as it is
    otherwise; a URL without scheme is returned behind https://, without
    its last character when that is a slash; one slash is removed, not
    all of them, and of the empty URL the second slash of the scheme
    itself. *)
Theorem ensureHttps_result (url : jsstring) :
  (hasProtocol url = true ->
   (forall s, url = s ++ lit "/" -> ensureHttpsAndNoTrailingSlash url = s)
   /\ ((forall s, url <> s ++ lit "/") ->
       ensureHttpsAndNoTrailingSlash url = url))
  /\ (hasProtocol url = false ->
      (forall s, url = s ++ lit "/" ->
                 ensureHttpsAndNoTrailingSlash url = lit "https://" ++ s)
      /\ (url <> [] -> (forall s, url <> s ++ lit "/") ->
          ensureHttpsAndNoTrailingSlash url = lit "https://" ++ url)
      /\ (url = [] -> ensureHttpsAndNoTrailingSlash url = lit "https:/")).
Proof.
  unfold ensureHttpsAndNoTrailingSlash. split.
  - intros ->. split.
    + intros s ->. change (lit "/") with [47%N].
      assert (endsWith (s ++ [47%N]) [47%N] = true) as ->
        by (apply (endsWith_snoc _ 47%N); eauto).
      apply slice_to_minus_snoc.
    + intros Hno. destruct (endsWith url (lit "/")) eqn:E; [|reflexivity].
      apply (endsWith_snoc url 47%N) in E as [s' ->].
      exfalso. exact (Hno s' eq_refl).
  - intros ->. split; [|split].
    + intros s ->. change (lit "/") with [47%N]. rewrite app_assoc.
      assert (endsWith ((lit "https://" ++ s) ++ [47%N]) [47%N] = true) as ->
        by (apply (endsWith_snoc _ 47%N); eauto).
      apply slice_to_minus_snoc.
    + intros Hne Hno.
      destruct (endsWith (lit "https://" ++ url) (lit "/")) eqn:E; [|reflexivity].
      apply (endsWith_snoc _ 47%N) in E as [s' Hs'].
      destruct url as [|c u _] using rev_ind; [contradiction|].
      rewrite app_assoc in Hs'. apply app_inj_tail in Hs' as [_ ->].
      exfalso. exact (Hno u eq_refl).
    + intros ->. reflexivity.
Qed.

Lemma ensureHttps_result_witness :
  ensureHttpsAndNoTrailingSlash (lit "api.openai.com/") =
  lit "https://api.openai.com".
Proof.
  refine (proj1 (proj2 (ensureHttps_result (lit "api.openai.com/")) _)
            (lit "api.openai.com") _).
  - vm_compute. reflexivity.
  - vm_compute. reflexivity.
Defined.

(** ** Runs of the stream handler *)

Section RunFacts.
Context (rt : Runtime) (query : Query).

Lemma partials_app (a b : list Event) :
  partials (a ++ b) = partials a ++ partials b.
Proof. apply omap_app. Qed.

Lemma last_cons_default (x : jsstring) (a : list jsstring) (d : jsstring) :
  List.last (x :: a) d = List.last a x.
Proof.
  revert x d; induction a as [|y a IH]; intros x d; [reflexivity|].
  change (List.last (x :: y :: a) d) with (List.last (y :: a) d).
  now rewrite (IH y d), (IH y x).
Qed.

Lemma last_app_default (a b : list jsstring) (d : jsstring) :
  List.last (a ++ b) d = List.last b (List.last a d).
Proof.
  revert d; induction a as [|x a IH]; intros d; [reflexivity|].
  change ((x :: a) ++ b) with (x :: (a ++ b)).
  now rewrite !last_cons_default, IH.
Qed.

Lemma grows_app (t : jsstring) (a b : list jsstring) :
  grows t a -> grows (List.last a t) b -> grows t (a ++ b).
Proof.
  revert t; induction a as [|x a IH]; intros t; [simpl; auto|].
  intros [Hx Ha] Hb. split; [exact Hx|]. apply IH; [exact Ha|].
  now rewrite last_cons_default in Hb.
Qed.

Lemma grows_last (t : jsstring) (a : list jsstring) :
  grows t a -> exists d, List.last a t = t ++ d.
Proof.
  revert t; induction a as [|x a IH]; intros t.
  - exists []. simpl. now rewrite app_nil_r.
  - intros [[d ->] Ha]. rewrite last_cons_default.
    destruct (IH _ Ha) as [d' ->]. exists (d ++ d'). now rewrite app_assoc.
Qed.

Lemma text_run_nil (t : jsstring) : text_run t [] t.
Proof. repeat split. constructor. Qed.

Lemma text_run_app (t0 t1 t2 : jsstring) (a b : list Event) :
  text_run t0 a t1 -> text_run t1 b t2 -> text_run t0 (a ++ b) t2.
Proof.
  intros (Ga & La & Fa) (Gb & Lb & Fb). subst t1. repeat split.
  - rewrite partials_app. now apply grows_app.
  - now rewrite partials_app, last_app_default.
  - now apply Forall_app.
Qed.

Lemma stream_try_extends (t payload t' : jsstring) (called : bool) :
  stream_try rt t payload = inr (t', called) ->
  if called then exists d, t' = t ++ d else t' = t.
Proof.
  unfold stream_try. destruct (JSON_parse payload) as [dataObj|]; [|discriminate].
  destruct (content_delta dataObj) as [e|[d|]]; [discriminate| |].
  - destruct (truthy rt (Some d)).
    + unfold string_plus. destruct (ToString rt d) as [e|s]; [discriminate|].
      intros [= <- <-]. now exists s.
    + now intros [= <- <-].
  - now intros [= <- <-].
Qed.

Lemma handleStreamResponse_run (t payload : jsstring) :
  text_run t (snd (handleStreamResponse rt query t payload))
    (fst (handleStreamResponse rt query t payload)).
Proof.
  unfold handleStreamResponse. destruct (negb _); [|apply text_run_nil].
  destruct (stream_try rt t payload) as [e|[t' called]] eqn:E.
  - repeat split. repeat constructor.
  - apply stream_try_extends in E. destruct called.
    + destruct E as [d ->]. repeat split.
      * cbn. rewrite app_nil_r. now exists d.
      * cbn. now rewrite app_nil_r.
      * repeat constructor.
    + subst t'. apply text_run_nil.
Qed.

Lemma drain_run (n : nat) (st : StreamState) :
  text_run (targetText st) (snd (drain rt n query st))
    (targetText (fst (drain rt n query st))).
Proof.
  revert st; induction n as [|n IH]; intros st; [apply text_run_nil|].
  rewrite drain_S.
  destruct (frame_match (buffer st)) as [[m0 m1]|]; [|apply text_run_nil].
  pose proof (handleStreamResponse_run (targetText st) (trim m1)) as H.
  destruct (handleStreamResponse rt query (targetText st) (trim m1))
    as [t' evs].
  specialize (IH {| targetText := t';
                    buffer := slice_from (buffer st) (length m0) |}).
  destruct (drain rt n query _) as [st' evs']. simpl in *.
  eapply text_run_app; eauto.
Qed.

Lemma assemble_run (st : StreamState) (chunk : jsstring) :
  text_run (targetText st) (snd (assemble rt query st chunk))
    (targetText (fst (assemble rt query st chunk))).
Proof. apply (drain_run _ (push st chunk)). Qed.

(** Through any sequence of chunks the partial results grow and end in
    the accumulated text; the reports of the token check carry no partial
    result. *)
Lemma feed_texts (chunks : list (option jsstring)) (st : StreamState) :
  grows (targetText st) (partials (snd (feed rt query st chunks)))
  /\ List.last (partials (snd (feed rt query st chunks))) (targetText st) =
     targetText (fst (feed rt query st chunks)).
Proof.
  revert st; induction chunks as [|c chunks IH]; intros st; [now split|].
  rewrite feed_cons.
  assert (Hc : grows (targetText st)
                 (partials (snd (streamHandler rt query st c)))
               /\ List.last (partials (snd (streamHandler rt query st c)))
                    (targetText st) =
                  targetText (fst (streamHandler rt query st c))).
  { unfold streamHandler. destruct c as [c|]; [|now split].
    destruct (includes c _); [now split|].
    destruct (drain_run (length (buffer st ++ c))
                {| targetText := targetText st; buffer := buffer st ++ c |})
      as (G & L & _).
    now split. }
  destruct (streamHandler rt query st c) as [st' evs]. simpl in Hc.
  specialize (IH st'). destruct (feed rt query st' chunks) as [st'' evs'].
  simpl in *. destruct Hc as [G1 L1], IH as [G2 L2].
  rewrite partials_app, last_app_default, L1. split; [|exact L2].
  apply grows_app; [exact G1|]. now rewrite L1.
Qed.

(** The state after a sequence of chunks is the state after the text the
    handler buffered of them, handed over at once; the calls are those of
    that text, and among them one report for each chunk with the text of
    the token check. *)
Lemma feed_kept (chunks : list (option jsstring)) (st : StreamState) :
  frame_match (buffer st) = None ->
  fst (feed rt query st chunks) = fst (assemble rt query st (kept_text chunks))
  /\ List.filter (fun ev => negb (is_token_report ev))
       (snd (feed rt query st chunks)) =
     snd (assemble rt query st (kept_text chunks))
  /\ length (List.filter is_token_report (snd (feed rt query st chunks))) =
     length (List.filter is_token_chunk chunks).
Proof.
  assert (Hquiet : forall st' text,
    List.filter (fun ev => negb (is_token_report ev))
      (snd (assemble rt query st' text)) = snd (assemble rt query st' text)
    /\ List.filter is_token_report (snd (assemble rt query st' text)) = []).
  { intros st' text. destruct (assemble_run st' text) as (_ & _ & F).
    induction F as [|ev evs Hev _ [IH1 IH2]]; [now split|].
    cbn [List.filter]. rewrite Hev. cbn [negb]. now rewrite IH1, IH2. }
  revert st; induction chunks as [|c chunks IH]; intros st Hst.
  - cbn [kept_text map concat feed fst snd List.filter length].
    now rewrite assemble_nil.
  - rewrite feed_cons.
    change (kept_text (c :: chunks)) with (buffered_text c ++ kept_text chunks).
    rewrite assemble_app.
    assert (Hc : (is_token_chunk c = false
                  /\ streamHandler rt query st c =
                     assemble rt query st (buffered_text c))
                 \/ (is_token_chunk c = true
                     /\ buffered_text c = []
                     /\ streamHandler rt query st c =
                        (st, [HandleGeneralError
                                (ArgServiceError invalid_token_error)]))).
    { destruct c as [c|]; cbn [is_token_chunk buffered_text streamHandler].
      - destruct (includes c _); [right; auto | left; auto].
      - left. split; [reflexivity|]. now rewrite assemble_nil. }
    destruct Hc as [(Hk & ->) | (Hk & Hb & ->)].
    + pose proof (assemble_exits rt query st (buffered_text c)) as Hex.
      destruct (Hquiet st (buffered_text c)) as [Q1 Q2].
      destruct (assemble rt query st (buffered_text c)) as [st1 evs1].
      cbn [fst snd] in *.
      destruct (IH st1 Hex) as (I1 & I2 & I3).
      destruct (feed rt query st1 chunks) as [st2 evs2].
      destruct (assemble rt query st1 (kept_text chunks)) as [st3 evs3].
      cbn [fst snd] in *. subst.
      rewrite !List.filter_app, Q1, Q2. cbn [List.filter]. rewrite Hk.
      repeat split. exact I3.
    + rewrite Hb, (assemble_nil rt query st Hst).
      destruct (IH st Hst) as (I1 & I2 & I3).
      destruct (feed rt query st chunks) as [st2 evs2].
      destruct (assemble rt query st (kept_text chunks)) as [st3 evs3].
      cbn [fst snd app] in *. subst.
      cbn [List.filter is_token_report err_type invalid_token_error negb].
      rewrite Hk. cbn [length]. now rewrite I3.
Qed.
End RunFacts.

(** X3: whatever chunks arrive, with or without text, reported by the
    token check or not, the handler leaves no complete frame in the
    buffer: what stays is the beginning of a frame or nothing it can
    match. *)
Theorem feed_leaves_no_frame (rt : Runtime) (query : Query)
  (chunks : list (option jsstring)) :
  frame_match (buffer (fst (feed rt query initial_state chunks))) = None.
Proof.
  destruct (feed_kept rt query chunks initial_state eq_refl) as [-> _].
  apply assemble_exits.
Qed.

(** X4: the texts handed to the partial-result callback during a stream
    grow: each is the one before with a delta appended, the first one
    starts from the empty text. *)
Theorem partial_results_grow (rt : Runtime) (query : Query)
  (chunks : list (option jsstring)) :
  grows [] (partials (snd (feed rt query initial_state chunks))).
Proof. apply (feed_texts rt query chunks initial_state). Qed.

(** X5: a chunk with the text of the token check, or without text, is as
    if it had not arrived, but for its report: the state after any
    sequence of chunks is the state after the concatenation of the other
    chunks, the calls other than the reports are those of that
    concatenation, and there is one report for each chunk the token
    check caught. *)
Theorem feed_drops_token_chunks (rt : Runtime) (query : Query)
  (chunks : list (option jsstring)) :
  fst (feed rt query initial_state chunks) =
    fst (assemble rt query initial_state (kept_text chunks))
  /\ List.filter (fun ev => negb (is_token_report ev))
       (snd (feed rt query initial_state chunks)) =
     snd (assemble rt query initial_state (kept_text chunks))
  /\ length (List.filter is_token_report
               (snd (feed rt query initial_state chunks))) =
     length (List.filter is_token_chunk chunks).
Proof. apply feed_kept. reflexivity. Qed.

(** X6: a streaming call whose stream ends with a status below 400
    completes with the text of the last partial result, or with the empty
    text when there was none. *)
Theorem stream_result_is_last_partial (rt : Runtime) (im : Imports)
  (opt : Option) (net : Network) (query : Query) (result : HttpResponse) :
  StringNumber_truthy rt (stream opt) = true ->
  stream_end (streamRequest net
                (streaming_request (translate_request im opt query))) =
    Resolves result ->
  (resp_statusCode result < 400)%Z ->
  exists evs,
    translate_async rt im opt net query =
    HttpStreamRequest (streaming_request (translate_request im opt query))
      :: evs
      ++ [OnCompletion
            {| res_from := detectFrom query;
               res_to := detectTo query;
               res_toParagraphs := [List.last (partials evs) []] |}].
Proof.
  intros Hs Hend Hstatus. unfold translate_async. rewrite Hs, Hend.
  destruct (feed_texts rt query
              (stream_chunks (streamRequest net
                 (streaming_request (translate_request im opt query))))
              initial_state) as [_ L].
  destruct (feed rt query initial_state _) as [st evs]. cbn [fst snd] in L.
  exists evs. unfold stream_end_handler, stream_result.
  destruct (400 <=? resp_statusCode result)%Z eqn:E;
    [apply Z.leb_le in E; lia|].
  now rewrite <- L.
Qed.

Lemma stream_result_is_last_partial_witness :
  exists evs,
    translate_async sample_runtime sample_imports
      (with_stream_option (lit "1") sample_option)
      (sample_network hello_response hi_chunks_ragged) sample_query =
    HttpStreamRequest
      (streaming_request
         (translate_request sample_imports
            (with_stream_option (lit "1") sample_option) sample_query))
      :: evs
      ++ [OnCompletion
            {| res_from := detectFrom sample_query;
               res_to := detectTo sample_query;
               res_toParagraphs := [List.last (partials evs) []] |}].
Proof.
  apply (stream_result_is_last_partial sample_runtime sample_imports
           (with_stream_option (lit "1") sample_option)
           (sample_network hello_response hi_chunks_ragged) sample_query
           hello_response).
  - vm_compute. reflexivity.
  - reflexivity.
  - vm_compute. reflexivity.
Defined.

(** ** Frames that do not decode *)

(** X7: a payload other than the sentinel that is not a JSON text, or that
    is a JSON object without choices or with null choices, leaves the
    accumulated text as it is, calls no partial result and reports one
    param error, whose message is the engine's or, when that is empty, the
    fixed one: never the empty text. *)
Theorem handleStreamResponse_undecodable (rt : Runtime) (query : Query)
  (t payload : jsstring) :
  payload <> lit "[DONE]" ->
  JSON_parse payload = None
  \/ (exists ms, JSON_parse payload = Some (JObject ms)
                 /\ (lookup_member (lit "choices") ms = None
                     \/ lookup_member (lit "choices") ms = Some JNull)) ->
  exists e m,
    handleStreamResponse rt query t payload =
      (t, [HandleGeneralError (ArgServiceError (stream_catch rt e))])
    /\ err_type (stream_catch rt e) = param
    /\ err_message (stream_catch rt e) = Some (JString m)
    /\ m <> [].
Proof.
  intros Hneq Hbad.
  assert (Hthrow : exists e, stream_try rt t payload = inl e).
  { unfold stream_try. destruct Hbad as [-> | (ms & -> & Hc)]; [eauto|].
    unfold content_delta. cbn [get_field].
    destruct Hc as [-> | ->]; cbn [get_index0]; eauto. }
  destruct Hthrow as [e He]. exists e.
  exists (match Error_message rt e with
          | [] => lit "Failed to parse JSON"
          | m => m
          end).
  unfold handleStreamResponse. rewrite (jseqb_neq _ _ Hneq), He.
  cbn [negb]. repeat split.
  destruct (Error_message rt e); discriminate.
Qed.

Lemma handleStreamResponse_undecodable_witness :
  exists e m,
    handleStreamResponse sample_runtime sample_query (lit "Hi")
      (litq "{'error':{'message':'overloaded'}}") =
      (lit "Hi", [HandleGeneralError (ArgServiceError (stream_catch sample_runtime e))])
    /\ err_type (stream_catch sample_runtime e) = param
    /\ err_message (stream_catch sample_runtime e) = Some (JString m)
    /\ m <> [].
Proof.
  apply handleStreamResponse_undecodable.
  - vm_compute. discriminate.
  - right. eexists. split; [vm_compute; reflexivity|]. left. reflexivity.
Defined.

(** ** The events of a call *)

Section EventFacts.
Context (rt : Runtime) (im : Imports).

(** The stream handler calls the partial-result callback and the error
    handler, nothing else. *)
Lemma handleStreamResponse_events (query : Query) (t payload : jsstring) :
  Forall (fun ev => (exists r, ev = OnStream r)
                    \/ exists e, ev = HandleGeneralError (ArgServiceError e))
    (snd (handleStreamResponse rt query t payload)).
Proof.
  unfold handleStreamResponse. destruct (negb _); [|constructor].
  destruct (stream_try rt t payload) as [e|[t' [|]]].
  - constructor; [right; eauto | constructor].
  - constructor; [left; eauto | constructor].
  - constructor.
Qed.

Lemma drain_events (query : Query) (n : nat) (st : StreamState) :
  Forall (fun ev => (exists r, ev = OnStream r)
                    \/ exists e, ev = HandleGeneralError (ArgServiceError e))
    (snd (drain rt n query st)).
Proof.
  revert st; induction n as [|n IH]; intros st; [constructor|].
  rewrite drain_S.
  destruct (frame_match (buffer st)) as [[m0 m1]|]; [|constructor].
  pose proof (handleStreamResponse_events query (targetText st) (trim m1)) as H.
  destruct (handleStreamResponse rt query (targetText st) (trim m1))
    as [t' evs].
  specialize (IH {| targetText := t';
                    buffer := slice_from (buffer st) (length m0) |}).
  destruct (drain rt n query _) as [st' evs']. simpl in *.
  now apply Forall_app.
Qed.

Lemma feed_events (query : Query) (chunks : list (option jsstring))
  (st : StreamState) :
  Forall (fun ev => (exists r, ev = OnStream r)
                    \/ exists e, ev = HandleGeneralError (ArgServiceError e))
    (snd (feed rt query st chunks)).
Proof.
  revert st; induction chunks as [|c chunks IH]; intros st; [constructor|].
  rewrite feed_cons.
  assert (H : Forall (fun ev => (exists r, ev = OnStream r)
                    \/ exists e, ev = HandleGeneralError (ArgServiceError e))
                (snd (streamHandler rt query st c))).
  { unfold streamHandler. destruct c as [c|]; [|constructor].
    destruct (includes c _); [|apply drain_events].
    constructor; [right; eauto | constructor]. }
  destruct (streamHandler rt query st c) as [st' evs].
  specialize (IH st'). destruct (feed rt query st' chunks) as [st'' evs'].
  simpl in *. now apply Forall_app.
Qed.

Lemma no_result_of_events (evs : list Event) (res : TranslateResult) :
  Forall (fun ev => (exists r, ev = OnStream r)
                    \/ exists e, ev = HandleGeneralError (ArgServiceError e))
    evs ->
  ~ In (DeliverResult res) (deliveries evs).
Proof.
  induction 1 as [|ev evs [[r ->] | [e ->]] _ IH]; cbn; [tauto | exact IH|].
  intros [Heq | Hin]; [discriminate | auto].
Qed.
End EventFacts.

(** X8: when the transport fails, the call delivers no result: neither
    when the promise of a plain request rejects or its response carries an
    error, nor when a stream ends rejected or with a status of 400 or
    more, whatever partial results came before. *)
Theorem no_result_after_transport_failure (rt : Runtime) (im : Imports)
  (opt : Option) (net : Network) (query : Query) :
  (StringNumber_truthy rt (stream opt) = false
   /\ ((exists reason, request net (translate_request im opt query) = Rejects reason)
       \/ exists result, request net (translate_request im opt query) = Resolves result
                         /\ resp_error result = true))
  \/ (StringNumber_truthy rt (stream opt) = true
      /\ ((exists reason,
              stream_end (streamRequest net
                (streaming_request (translate_request im opt query))) = Rejects reason)
          \/ exists result,
              stream_end (streamRequest net
                (streaming_request (translate_request im opt query))) = Resolves result
              /\ (400 <= resp_statusCode result)%Z)) ->
  forall res,
    ~ In (DeliverResult res) (deliveries (translate rt im opt net query)).
Proof.
  intros Hfail res. unfold translate. rewrite deliveries_app, in_app_iff.
  intros [Hin | Hin]; [exact (translate_checks_no_result im opt query res Hin)|].
  revert Hin. unfold translate_async.
  destruct Hfail as [[-> Hplain] | [-> Hstream]].
  - destruct Hplain as [[reason ->] | (result & -> & ->)]; cbn; intuition discriminate.
  - pose proof (feed_events rt query
        (stream_chunks (streamRequest net
           (streaming_request (translate_request im opt query))))
        initial_state) as Hev.
    destruct (feed rt query initial_state _) as [st evs]. cbn [snd] in Hev.
    change (deliveries (HttpStreamRequest ?r :: ?l)) with (deliveries l).
    rewrite deliveries_app, in_app_iff. intros [Hin | Hin].
    + exact (no_result_of_events evs res Hev Hin).
    + destruct Hstream as [[reason Hend] | (result & Hend & Hstatus)];
        rewrite Hend in Hin.
      * cbn in Hin. intuition discriminate.
      * unfold stream_end_handler in Hin.
        apply Z.leb_le in Hstatus. rewrite Hstatus in Hin.
        cbn in Hin. intuition discriminate.
Qed.

Lemma no_result_after_transport_failure_witness :
  ~ In (DeliverResult (stream_result sample_query (lit "Hi there")))
      (deliveries
         (translate sample_runtime sample_imports
            (with_stream_option (lit "1") sample_option)
            (sample_network
               {| resp_data := None; resp_statusCode := 429;
                  resp_error := true; resp_stringified := lit "{}" |}
               hi_chunks_by_frame)
            sample_query)).
Proof.
  apply no_result_after_transport_failure. right. split.
  - vm_compute. reflexivity.
  - right. eexists. split; [reflexivity|]. vm_compute. discriminate.
Defined.

(** X9: with a configuration that passes the four checks, a call that does
    not stream makes two calls in all: the request, and one completion,
    be it a result or an error. *)
Theorem valid_plain_call_completes_once (rt : Runtime) (im : Imports)
  (opt : Option) (net : Network) (query : Query) :
  language_unsupported im query = false ->
  jseqb (model opt) (lit "custom") && negb (nonempty (customModel opt)) = false ->
  nonempty (apiKeys opt) = true ->
  isAzureServiceProvider opt && negb (nonempty (deploymentName opt)) = false ->
  StringNumber_truthy rt (stream opt) = false ->
  exists ev d,
    translate rt im opt net query =
      [HttpRequest (translate_request im opt query); ev]
    /\ delivery_of ev = Some d.
Proof.
  intros Hl Hm Hk Ha Hs. unfold translate, translate_checks, translate_async.
  rewrite Hl, Hm, Hk, Ha, Hs. cbn [negb app].
  destruct (request net _) as [result|reason]; [|eauto].
  destruct (resp_error result); [eauto|].
  destruct (handleGeneralResponse_cases rt query result)
    as [[e ->] | [-> | [res ->]]]; cbn [app]; eauto.
Qed.

Lemma valid_plain_call_completes_once_witness :
  exists ev d,
    translate sample_runtime sample_imports sample_option
      (sample_network hello_response []) sample_query =
      [HttpRequest (translate_request sample_imports sample_option sample_query); ev]
    /\ delivery_of ev = Some d.
Proof.
  apply valid_plain_call_completes_once; vm_compute; reflexivity.
Defined.

(** ** The validation probe returns after a failed check *)

(** X10: the probe completes at most once and issues at most one request;
    when the keys are missing, or the URL is Azure's and the deployment
    name is missing, it reports one secretKey error and issues no
    request. *)
Theorem pluginValidate_returns_after_check (rt : Runtime) (im : Imports)
  (opt : Option) (net : Network) :
  length (deliveries (fst (pluginValidate rt im opt net))) <= 1
  /\ length (transport_calls (fst (pluginValidate rt im opt net))) <= 1
  /\ (nonempty (apiKeys opt) = false
      \/ (includes (apiUrl opt) (lit "openai.azure.com") = true
          /\ nonempty (deploymentName opt) = false) ->
      exists e,
        pluginValidate rt im opt net =
          ([HandleValidateError (ArgServiceError e)], None)
        /\ err_type e = secretKey).
Proof.
  assert (Hh : forall resp,
    (length (deliveries (fst (validate_handler_azure rt resp))) <= 1
     /\ transport_calls (fst (validate_handler_azure rt resp)) = [])
    /\ (length (deliveries (fst (validate_handler_openai rt resp))) <= 1
        /\ transport_calls (fst (validate_handler_openai rt resp)) = [])).
  { intros resp. unfold validate_handler_azure, validate_handler_openai.
    destruct (get_field (resp_data resp) (lit "error")) as [e|error];
      [cbn; auto|].
    destruct (truthy rt error); [cbn; auto|]. split.
    - destruct (get_field (resp_data resp) (lit "choices")) as [e|[c|]];
        [cbn; auto | | cbn; auto].
      destruct c; try (cbn; auto; fail);
        match goal with
        | |- context [length_gt_zero rt ?x] => destruct (length_gt_zero rt x)
        end; cbn; auto.
    - destruct (get_field (resp_data resp) (lit "data")) as [e|[c|]];
        [cbn; auto | | cbn; auto].
      destruct c; try (cbn; auto; fail);
        match goal with
        | |- context [length_gt_zero rt ?x] => destruct (length_gt_zero rt x)
        end; cbn; auto. }
  unfold pluginValidate.
  destruct (nonempty (apiKeys opt)) eqn:Hk; cbn [negb].
  2:{ cbn. repeat split; auto. intros _. eexists. split; reflexivity. }
  destruct (includes (apiUrl opt) (lit "openai.azure.com")) eqn:Hz,
    (nonempty (deploymentName opt)) eqn:Hd; cbn [negb andb].
  2:{ cbn. repeat split; auto. intros _. eexists. split; reflexivity. }
  all: match goal with
       | |- context [let '(evs, thrown) := ?X in _] =>
           assert (HX : length (deliveries (fst X)) <= 1
                        /\ transport_calls (fst X) = []);
           [ destruct (request net _) as [resp|reason];
             [ destruct (Hh resp) as [HA HO]; assumption | cbn; auto ]
           | destruct X as [evs thrown] ]
       end.
  all: cbn [fst snd] in *; destruct HX as [H1 H2].
  all: split; [exact H1|].
  all: split; [cbn [transport_calls List.filter is_transport_call];
               fold (transport_calls evs); rewrite H2; cbn; lia|].
  all: intros [H | [H3 H4]]; discriminate.
Qed.

Lemma pluginValidate_returns_after_check_witness :
  exists e,
    pluginValidate sample_runtime sample_imports azure_option
      (sample_network hello_response []) =
      ([HandleValidateError (ArgServiceError e)], None)
    /\ err_type e = secretKey.
Proof.
  apply (proj2 (proj2 (pluginValidate_returns_after_check sample_runtime
                         sample_imports azure_option
                         (sample_network hello_response [])))).
  right. split; vm_compute; reflexivity.
Defined.

(** ** The paragraphs of a response *)

Section ParagraphFacts.
Local Open Scope N_scope.

Lemma split_nonempty (sep : N) (s : jsstring) : split sep s <> [].
Proof.
  destruct s as [|c s]; simpl; [discriminate|].
  destruct (c =? sep); [discriminate|]. destruct (split sep s); discriminate.
Qed.

Lemma join_cons (sep p : jsstring) (ps : list jsstring) :
  ps <> [] -> join sep (p :: ps) = p ++ sep ++ join sep ps.
Proof. destruct ps; [contradiction | reflexivity]. Qed.

(** Splitting on a separator and joining with it gives the text back. *)
Lemma join_split (sep : N) (s : jsstring) : join [sep] (split sep s) = s.
Proof.
  induction s as [|c s IH]; [reflexivity|]. cbn [split].
  destruct (c =? sep) eqn:E.
  - apply N.eqb_eq in E. subst c.
    rewrite join_cons by apply split_nonempty. now rewrite IH.
  - pose proof (split_nonempty sep s) as Hne.
    destruct (split sep s) as [|h t]; [contradiction|].
    destruct t as [|h' t'].
    + simpl in *. now rewrite IH.
    + rewrite join_cons by discriminate.
      rewrite join_cons in IH by discriminate. rewrite <- IH. reflexivity.
Qed.

Lemma split_without_sep (sep : N) (s : jsstring) :
  Forall (fun p => ~ In sep p) (split sep s).
Proof.
  induction s as [|c s IH]; [repeat constructor; auto|]. cbn [split].
  destruct (c =? sep) eqn:E; [constructor; auto|].
  destruct (split sep s) as [|h t]; [repeat constructor; intros [H|[]]|].
  - subst. now rewrite N.eqb_refl in E.
  - inversion IH as [|? ? Hh Ht]; subst. constructor; [|exact Ht].
    intros [H | H]; [subst; now rewrite N.eqb_refl in E | auto].
Qed.

Lemma trimStart_suffix (s : jsstring) : exists pre, s = pre ++ trimStart s.
Proof.
  induction s as [|c s [pre IH]]; [now exists []|]. simpl.
  destruct (isWhiteSpace c); [|now exists []].
  exists (c :: pre). simpl. now rewrite <- IH.
Qed.

Lemma trimEnd_prefix (s : jsstring) : exists post, s = trimEnd s ++ post.
Proof.
  unfold trimEnd. destruct (trimStart_suffix (rev s)) as [pre H].
  exists (rev pre). rewrite <- rev_app_distr, <- H. now rewrite rev_involutive.
Qed.

Lemma strip_leading_quote_suffix (s : jsstring) :
  exists pre, s = pre ++ strip_leading_quote s.
Proof.
  destruct s as [|c s]; [now exists []|]. simpl.
  destruct (isOpeningQuote c); [now exists [c] | now exists []].
Qed.

Lemma strip_trailing_quote_prefix (s : jsstring) :
  exists post, s = strip_trailing_quote s ++ post.
Proof.
  destruct s as [|c s _] using rev_ind; [now exists []|].
  rewrite strip_trailing_quote_snoc.
  destruct (isClosingQuote c); [now exists [c] | exists []; now rewrite app_nil_r].
Qed.

Lemma strip_arrow_artifact_prefix (s : jsstring) :
  exists post, s = strip_arrow_artifact s ++ post.
Proof.
  unfold strip_arrow_artifact, slice_to_minus.
  destruct (endsWith s arrow_artifact).
  - exists (drop (length s - 4) s). now rewrite take_drop.
  - exists []. now rewrite app_nil_r.
Qed.

(** The cleanup removes text from the two ends of the content only. *)
Lemma cleanup_infix (content : jsstring) :
  exists pre post, content = pre ++ cleanup content ++ post.
Proof.
  unfold cleanup. rewrite replace_quotes_strips. unfold trim.
  destruct (trimStart_suffix content) as [p1 H1].
  destruct (trimEnd_prefix (trimStart content)) as [q1 H2].
  set (t := trimEnd (trimStart content)) in *.
  destruct (strip_leading_quote_suffix t) as [p2 H3].
  destruct (strip_trailing_quote_prefix (strip_leading_quote t)) as [q2 H4].
  set (u := strip_trailing_quote (strip_leading_quote t)) in *.
  destruct (strip_arrow_artifact_prefix u) as [q3 H5].
  exists (p1 ++ p2), (q3 ++ q2 ++ q1).
  rewrite H1 at 1. rewrite H2 at 1. rewrite H3 at 1. rewrite H4 at 1.
  rewrite H5 at 1. now rewrite <- !app_assoc.
Qed.
End ParagraphFacts.

(** X11: the paragraphs of a response whose first choice has a string
    content are never none, hold no line feed, and joined by line feeds
    they are one contiguous piece of the content: the normalizer takes
    text away at the two ends only and never rewrites what lies
    between. *)
Theorem paragraphs_are_a_piece_of_content (rt : Runtime) (query : Query)
  (result : HttpResponse) (content : jsstring) :
  has_message_content (resp_data result) content ->
  exists paragraphs pre post,
    handleGeneralResponse rt query result =
      ([OnCompletion {| res_from := detectFrom query;
                        res_to := detectTo query;
                        res_toParagraphs := paragraphs |}], None)
    /\ paragraphs <> []
    /\ Forall (fun p => ~ In LF p) paragraphs
    /\ content = pre ++ join [LF] paragraphs ++ post.
Proof.
  intros (ms & cm & mm & others & Hdata & Hch & Hm & Hc).
  destruct (cleanup_infix content) as (pre & post & Hpiece).
  exists (split LF (cleanup content)), pre, post. repeat split.
  - unfold handleGeneralResponse. rewrite Hdata. cbn [get_field].
    rewrite Hch. cbn [truthy negb orb length_is_zero].
    now rewrite (paragraphs_of_content _ _ _ _ Hm Hc).
  - apply split_nonempty.
  - apply split_without_sep.
  - now rewrite join_split.
Qed.

Lemma paragraphs_are_a_piece_of_content_witness :
  exists paragraphs pre post,
    handleGeneralResponse sample_runtime sample_query
      (json_response (litq "{'choices':[{'message':{'content':' “a\nb”\n'}}]}")) =
      ([OnCompletion {| res_from := detectFrom sample_query;
                        res_to := detectTo sample_query;
                        res_toParagraphs := paragraphs |}], None)
    /\ paragraphs <> []
    /\ Forall (fun p => ~ In LF p) paragraphs
    /\ lit " “a" ++ [LF] ++ lit "b”" ++ [LF] = pre ++ join [LF] paragraphs ++ post.
Proof.
  apply (paragraphs_are_a_piece_of_content sample_runtime sample_query
           (json_response (litq "{'choices':[{'message':{'content':' “a\nb”\n'}}]}"))
           (lit " “a" ++ [LF] ++ lit "b”" ++ [LF])).
  eexists _, _, _, _. repeat split; vm_compute; reflexivity.
Defined.

(** ** The legacy variant *)

Section TrimFacts.

Lemma trimStart_clean (s : jsstring) : starts_clean (trimStart s).
Proof.
  induction s as [|c s IH]; [exact I|]. simpl.
  destruct (isWhiteSpace c) eqn:E; [exact IH | exact E].
Qed.

Lemma trimStart_id (s : jsstring) : starts_clean s -> trimStart s = s.
Proof. destruct s as [|c s]; [reflexivity|]. simpl. now intros ->. Qed.

Lemma starts_clean_prefix (a b : jsstring) :
  starts_clean (a ++ b) -> starts_clean a.
Proof. destruct a; [intros; exact I | auto]. Qed.

Lemma trimEnd_id (s : jsstring) : starts_clean (rev s) -> trimEnd s = s.
Proof.
  intros H. unfold trimEnd. rewrite (trimStart_id _ H). apply rev_involutive.
Qed.

(** Trimming a trimmed text changes nothing. *)
Lemma trim_idempotent (s : jsstring) : trim (trim s) = trim s.
Proof.
  assert (Hend : starts_clean (rev (trim s))).
  { unfold trim, trimEnd. rewrite rev_involutive. apply trimStart_clean. }
  assert (Hstart : starts_clean (trim s)).
  { unfold trim. destruct (trimEnd_prefix (trimStart s)) as [post H].
    pose proof (trimStart_clean s) as Hc. rewrite H in Hc.
    exact (starts_clean_prefix _ _ Hc). }
  unfold trim at 1. rewrite (trimStart_id _ Hstart). now apply trimEnd_id.
Qed.
End TrimFacts.

Section KeyFacts.
Local Open Scope N_scope.

Lemma split_no_sep (sep : N) (k : jsstring) :
  ~ In sep k -> split sep k = [k].
Proof.
  induction k as [|c k IH]; [reflexivity|]. intros Hno. cbn [split].
  destruct (c =? sep) eqn:E.
  - apply N.eqb_eq in E. exfalso. apply Hno. now left.
  - rewrite IH; [reflexivity|]. intros H. apply Hno. now right.
Qed.

Lemma split_app_sep (sep : N) (k rest : jsstring) :
  ~ In sep k -> split sep (k ++ sep :: rest) = k :: split sep rest.
Proof.
  induction k as [|c k IH]; intros Hno.
  - cbn [app split]. now rewrite N.eqb_refl.
  - rewrite <- app_comm_cons. cbn [split].
    destruct (c =? sep) eqn:E.
    + apply N.eqb_eq in E. exfalso. apply Hno. now left.
    + rewrite IH; [reflexivity|]. intros H. apply Hno. now right.
Qed.

(** Keys without the separator, joined by it, are split into themselves. *)
Lemma split_join (sep : N) (keys : list jsstring) :
  keys <> [] ->
  Forall (fun k => ~ In sep k) keys ->
  split sep (join [sep] keys) = keys.
Proof.
  intros Hne Hall. induction Hall as [|k ks Hk Hks IH]; [contradiction|].
  destruct ks as [|k2 ks].
  - now apply split_no_sep.
  - rewrite join_cons by discriminate. cbn [app].
    rewrite split_app_sep by exact Hk. now rewrite IH.
Qed.

Lemma join_ends_with_last (sep : jsstring) (keys : list jsstring) :
  keys <> [] -> exists pre, join sep keys = pre ++ List.last keys [].
Proof.
  induction keys as [|k ks IH]; [contradiction|]. intros _.
  destruct ks as [|k2 ks]; [now exists []|].
  destruct IH as [pre Hpre]; [discriminate|].
  rewrite join_cons by discriminate. rewrite Hpre.
  exists (k ++ sep ++ pre). now rewrite <- !app_assoc.
Qed.

Lemma join_no_final_sep (sep : N) (keys : list jsstring) :
  Forall (fun k => ~ In sep k) keys ->
  List.last keys [] <> [] ->
  endsWith (join [sep] keys) [sep] = false.
Proof.
  intros Hall Hlast.
  assert (Hne : keys <> []) by (intros ->; now apply Hlast).
  destruct (endsWith _ _) eqn:E; [|reflexivity]. exfalso.
  apply endsWith_snoc in E as [s' Hs'].
  destruct (join_ends_with_last [sep] keys Hne) as [pre Hpre].
  assert (Hin : In (List.last keys []) keys).
  { clear -Hne. induction keys as [|k ks IH]; [contradiction|].
    destruct ks as [|k2 ks]; [now left|]. right. apply IH. discriminate. }
  rewrite List.Forall_forall in Hall. specialize (Hall _ Hin).
  destruct (List.last keys []) as [|x l _] using rev_ind; [contradiction|].
  rewrite Hpre, app_assoc in Hs'. apply app_inj_tail in Hs' as [_ ->].
  apply Hall. apply in_or_app. right. now left.
Qed.
End KeyFacts.

(** X12: when the apiKeys option is written as keys without comma, joined
    by commas, the last of them not empty, with or without one more comma
    at the end, the legacy translate draws among exactly these keys, each
    without the white space around it: the draw is the trimmed key of an
    index below their number, the same with and without the final
    comma. *)
Theorem legacy_keys_round_trip (rnd : Legacy.Random) (keys : list jsstring) :
  Forall (fun k => ~ In 44%N k) keys ->
  List.last keys [] <> [] ->
  Legacy.apiKeySelection (join (lit ",") keys) = map trim keys
  /\ Legacy.apiKeySelection (join (lit ",") keys ++ lit ",") = map trim keys
  /\ exists i,
       i < length keys
       /\ Legacy.apiKey_of rnd (join (lit ",") keys) = trim (nth i keys [])
       /\ Legacy.apiKey_of rnd (join (lit ",") keys ++ lit ",")
          = trim (nth i keys []).
Proof.
  intros Hall Hlast.
  assert (Hne : keys <> []) by (intros ->; now apply Hlast).
  change (lit ",") with [44%N].
  assert (H1 : Legacy.apiKeySelection (join [44%N] keys) = map trim keys).
  { unfold Legacy.apiKeySelection. change (lit ",") with [44%N].
    rewrite (join_no_final_sep 44%N keys Hall Hlast).
    now rewrite split_join. }
  assert (H2 : Legacy.apiKeySelection (join [44%N] keys ++ [44%N])
               = map trim keys).
  { unfold Legacy.apiKeySelection. change (lit ",") with [44%N].
    assert (endsWith (join [44%N] keys ++ [44%N]) [44%N] = true) as ->
      by (apply (endsWith_snoc _ 44%N); eauto).
    rewrite slice_to_minus_snoc. now rewrite split_join. }
  split; [exact H1|]. split; [exact H2|].
  exists (Legacy.pick rnd (length keys)).
  assert (Hlen : 0 < length keys) by (destruct keys; [contradiction | simpl; lia]).
  split; [now apply Legacy.pick_lt|].
  unfold Legacy.apiKey_of. rewrite H1, H2, length_map.
  split; apply (map_nth trim keys []).
Qed.

Lemma legacy_keys_round_trip_witness :
  Legacy.apiKeySelection (lit " sk-a, sk-b ,sk-c") =
    [lit "sk-a"; lit "sk-b"; lit "sk-c"]
  /\ Legacy.apiKeySelection (lit " sk-a, sk-b ,sk-c,") =
    [lit "sk-a"; lit "sk-b"; lit "sk-c"].
Proof.
  pose proof (legacy_keys_round_trip Legacy.first_pick
                [lit " sk-a"; lit " sk-b "; lit "sk-c"]) as H.
  destruct H as (H1 & H2 & _).
  - repeat constructor; vm_compute;
      intros H; repeat (destruct H as [H | H]; [discriminate|]); exact H.
  - vm_compute. discriminate.
  - split; [exact H1 | exact H2].
Defined.

(** X13: for the six source languages of its switch the legacy
    generateSystemPrompt discards the configured system prompt: the
    result is the prompt of the language whatever the configuration
    says. For any other language a configured prompt is used as it is
    when the mode is not detailed. *)
Theorem legacy_prompt_ignores_custom (mode : jsstring) (query : Query) :
  (In (detectFrom query)
      [lit "zh-Hant"; lit "zh-Hans"; lit "ja"; lit "ru"; lit "wyw"; lit "yue"] ->
   forall base base',
     Legacy.generateSystemPrompt base mode query =
     Legacy.generateSystemPrompt base' mode query)
  /\ (Legacy.language_prompt (detectFrom query) = None ->
      mode <> lit "detailed" ->
      forall base, base <> [] ->
        Legacy.generateSystemPrompt base mode query = base).
Proof.
  split.
  - intros Hin base base'. unfold Legacy.generateSystemPrompt.
    assert (Hsome : exists ps, Legacy.language_prompt (detectFrom query) = Some ps).
    { cbn [In] in Hin.
      destruct Hin as [<- | [<- | [<- | [<- | [<- | [<- | []]]]]]];
        vm_compute; eauto. }
    destruct Hsome as [[p suffix] ->]. reflexivity.
  - intros Hnone Hmode base Hbase. unfold Legacy.generateSystemPrompt.
    rewrite Hnone, (jseqb_neq _ _ Hmode).
    destruct base; [contradiction | reflexivity].
Qed.

Lemma legacy_prompt_ignores_custom_witness :
  Legacy.generateSystemPrompt (lit "Rewrite as a pirate") (lit "detailed")
    {| text := lit "你好"; detectFrom := lit "zh-Hans"; detectTo := lit "zh-Hans" |} =
  Legacy.generateSystemPrompt [] (lit "detailed")
    {| text := lit "你好"; detectFrom := lit "zh-Hans"; detectTo := lit "zh-Hans" |}.
Proof.
  apply (proj1 (legacy_prompt_ignores_custom (lit "detailed")
                  {| text := lit "你好"; detectFrom := lit "zh-Hans";
                     detectTo := lit "zh-Hans" |})).
  cbn [In detectFrom]. right. left. reflexivity.
Defined.

Section LegacyFacts.
Context (rt : Runtime) (im : Imports) (rnd : Legacy.Random).

Lemma legacy_first_text_content (others : list json)
  (cm mm : list (jsstring * json)) (content : jsstring) :
  lookup_member (lit "message") cm = Some (JObject mm) ->
  lookup_member (lit "content") mm = Some (JString content) ->
  Legacy.first_text true (Some (JArray (JObject cm :: others))) =
  inr (trim content).
Proof.
  intros Hm Hc. unfold Legacy.first_text. cbn [get_index0 head get_field].
  rewrite Hm. cbn [get_field]. now rewrite Hc.
Qed.

(** Each of the two handlers completes once or throws. *)
Lemma legacy_handler_cases (isChat : bool) (query : Query)
  (result : HttpResponse) :
  let outcome :=
    if resp_error result then Legacy.handleError rt result
    else Legacy.handleResponse rt isChat query result in
  (exists e, outcome = ([], Some e))
  \/ (exists err, outcome = ([Legacy.CompleteError err], None))
  \/ (exists res, outcome = ([Legacy.CompleteResult res], None)).
Proof.
  cbv zeta. destruct (resp_error result).
  - unfold Legacy.handleError.
    destruct (get_field (resp_data result) (lit "error")) as [e|error];
      [left; eauto|].
    destruct (get_field error (lit "message")) as [e|message]; [left; eauto|].
    destruct (Legacy.template_text rt message) as [e|m];
      [left; eauto | right; left; eauto].
  - unfold Legacy.handleResponse.
    destruct (get_field (resp_data result) (lit "choices")) as [e|choices];
      [left; eauto|].
    destruct (negb (truthy rt choices) || _); [right; left; eauto|].
    destruct (Legacy.first_text isChat choices) as [e|t];
      [left; eauto | right; right; eauto].
Qed.
End LegacyFacts.

(** X14: for a chat response whose first choice has a string content the
    legacy normalizer delivers the trimmed content split on the line
    feed; main.ts delivers the same paragraphs whenever the trimmed
    content has no quotation-like character to strip at either end and
    no trailing artifact. *)
Theorem legacy_and_current_normalizer_agree (rt : Runtime) (query : Query)
  (result : HttpResponse) (content : jsstring) :
  has_message_content (resp_data result) content ->
  Legacy.handleResponse rt true query result =
    ([Legacy.CompleteResult
        {| res_from := detectFrom query;
           res_to := detectTo query;
           res_toParagraphs := split LF (trim content) |}], None)
  /\ (strip_leading_quote (trim content) = trim content ->
      strip_trailing_quote (trim content) = trim content ->
      endsWith (trim content) arrow_artifact = false ->
      handleGeneralResponse rt query result =
        ([OnCompletion
            {| res_from := detectFrom query;
               res_to := detectTo query;
               res_toParagraphs := split LF (trim content) |}], None)).
Proof.
  intros (ms & cm & mm & others & Hdata & Hch & Hm & Hc). split.
  - unfold Legacy.handleResponse. rewrite Hdata. cbn [get_field].
    rewrite Hch. cbn [truthy negb orb length_is_zero].
    now rewrite (legacy_first_text_content _ _ _ _ Hm Hc).
  - intros Hl Ht Ha.
    unfold handleGeneralResponse. rewrite Hdata. cbn [get_field].
    rewrite Hch. cbn [truthy negb orb length_is_zero].
    rewrite (paragraphs_of_content _ _ _ _ Hm Hc).
    unfold cleanup, strip_arrow_artifact.
    now rewrite replace_quotes_strips, Hl, Ht, Ha.
Qed.

Lemma legacy_and_current_normalizer_agree_witness :
  Legacy.handleResponse sample_runtime true sample_query hello_response =
    ([Legacy.CompleteResult
        {| res_from := detectFrom sample_query;
           res_to := detectTo sample_query;
           res_toParagraphs := split LF (trim (lit "Hello world")) |}], None).
Proof.
  apply (proj1 (legacy_and_current_normalizer_agree sample_runtime sample_query
                  hello_response (lit "Hello world")
                  ltac:(eexists _, _, _, _; repeat split; vm_compute; reflexivity))).
Defined.

(** X15: the legacy translate issues one request per call, whatever its
    checks reported before; when the promise of the request resolves, one
    completion follows the request, and nothing else. *)
Theorem legacy_translate_one_request (rt : Runtime) (im : Imports)
  (rnd : Legacy.Random) (opt : Option) (net : Network) (query : Query) :
  length (Legacy.requests (Legacy.translate rt im rnd opt net query)) = 1
  /\ (forall result,
         request net (Legacy.legacy_request rnd opt query) = Resolves result ->
         exists ev,
           Legacy.translate rt im rnd opt net query =
             Legacy.legacy_checks im opt query
             ++ [Legacy.Requested (Legacy.legacy_request rnd opt query); ev]
           /\ Legacy.completions [ev] = [ev]).
Proof.
  assert (Hchecks : Legacy.requests (Legacy.legacy_checks im opt query) = []).
  { unfold Legacy.legacy_checks.
    destruct (language_unsupported im query),
      (negb (nonempty (apiKeys opt))),
      (includes (Legacy.legacy_baseUrl opt) (lit "openai.azure.com")
       && negb (nonempty (deploymentName opt))); reflexivity. }
  assert (Hresolved : forall result,
    request net (Legacy.legacy_request rnd opt query) = Resolves result ->
    exists ev,
      Legacy.translate rt im rnd opt net query =
        Legacy.legacy_checks im opt query
        ++ [Legacy.Requested (Legacy.legacy_request rnd opt query); ev]
      /\ Legacy.completions [ev] = [ev]).
  { intros result Hr. unfold Legacy.translate. rewrite Hr.
    destruct (legacy_handler_cases rt (Legacy.isChatGPTModel (model opt))
                query result) as [[e H] | [[err H] | [res H]]];
      cbv zeta in H; rewrite H; eexists; split; reflexivity. }
  split; [|exact Hresolved].
  destruct (request net (Legacy.legacy_request rnd opt query))
    as [result|reason] eqn:Hr.
  - destruct (Hresolved result eq_refl) as (ev & -> & Hev).
    unfold Legacy.requests in *. rewrite List.filter_app, Hchecks.
    cbn [app List.filter]. unfold Legacy.completions in Hev.
    destruct ev; [reflexivity | reflexivity | discriminate].
  - unfold Legacy.translate. rewrite Hr.
    unfold Legacy.requests in *. rewrite List.filter_app, Hchecks.
    cbn [app List.filter]. unfold Legacy.catch_reason.
    destruct reason as [[]|]; reflexivity.
Qed.

(** X16: for a response flagged as error the legacy translate reports the
    message of the error body with the kind of the status, param for 400
    to 499 and api otherwise; when the body has no error member, reading
    its message throws and the call completes with the unknown error
    instead, the status lost. *)
Theorem legacy_error_report (rt : Runtime) (im : Imports)
  (rnd : Legacy.Random) (opt : Option) (net : Network) (query : Query)
  (result : HttpResponse) (ms : list (jsstring * json)) :
  request net (Legacy.legacy_request rnd opt query) = Resolves result ->
  resp_error result = true ->
  resp_data result = Some (JObject ms) ->
  (forall em m,
      lookup_member (lit "error") ms = Some (JObject em) ->
      lookup_member (lit "message") em = Some (JString m) ->
      Legacy.translate rt im rnd opt net query =
        Legacy.legacy_checks im opt query
        ++ [Legacy.Requested (Legacy.legacy_request rnd opt query);
            Legacy.CompleteError
              {| Legacy.cerr_type :=
                   JString (if (400 <=? resp_statusCode result)%Z
                               && (resp_statusCode result <? 500)%Z
                            then lit "param" else lit "api");
                 Legacy.cerr_message := JString (lit "接口响应错误 - " ++ m);
                 Legacy.cerr_addtion :=
                   Some (JString (resp_stringified result)) |}])
  /\ (lookup_member (lit "error") ms = None ->
      Legacy.translate rt im rnd opt net query =
        Legacy.legacy_checks im opt query
        ++ [Legacy.Requested (Legacy.legacy_request rnd opt query);
            Legacy.CompleteError
              {| Legacy.cerr_type := JString (lit "unknown");
                 Legacy.cerr_message := JString (lit "未知错误");
                 Legacy.cerr_addtion := None |}]).
Proof.
  intros Hr He Hdata. split.
  - intros em m Herr Hmsg. unfold Legacy.translate, Legacy.handleError.
    rewrite Hr, He, Hdata. cbn [get_field]. rewrite Herr. cbn [get_field].
    rewrite Hmsg. cbn [Legacy.template_text ToString].
    destruct ((400 <=? resp_statusCode result)%Z
              && (resp_statusCode result <? 500)%Z); reflexivity.
  - intros Herr. unfold Legacy.translate, Legacy.handleError.
    rewrite Hr, He, Hdata. cbn [get_field]. rewrite Herr. reflexivity.
Qed.

Lemma legacy_error_report_witness :
  Legacy.translate sample_runtime sample_imports Legacy.first_pick sample_option
    (sample_network
       {| resp_data := JSON_parse (litq "{'detail':'Not Found'}");
          resp_statusCode := 404; resp_error := true;
          resp_stringified := lit "{}" |} [])
    sample_query =
  Legacy.legacy_checks sample_imports sample_option sample_query
  ++ [Legacy.Requested (Legacy.legacy_request Legacy.first_pick sample_option sample_query);
      Legacy.CompleteError
        {| Legacy.cerr_type := JString (lit "unknown");
           Legacy.cerr_message := JString (lit "未知错误");
           Legacy.cerr_addtion := None |}].
Proof.
  refine (proj2 (legacy_error_report sample_runtime sample_imports
                   Legacy.first_pick sample_option
                   (sample_network
                      {| resp_data := JSON_parse (litq "{'detail':'Not Found'}");
                         resp_statusCode := 404; resp_error := true;
                         resp_stringified := lit "{}" |} [])
                   sample_query _
                   [(lit "detail", JString (lit "Not Found"))] _ _ _) _).
  - reflexivity.
  - reflexivity.
  - vm_compute. reflexivity.
  - vm_compute. reflexivity.
Defined.

(** ** Error bodies of the probe, and reports during a stream *)

(** X17: when the probe passes its checks and the response carries a
    truthy error member, the probe makes two calls: the request, and one
    error report that carries the error member as message, of type param
    for a status from 400 to 499 and api otherwise. *)
Theorem pluginValidate_reports_error_body (rt : Runtime) (im : Imports)
  (opt : Option) (net : Network) (resp : HttpResponse)
  (ms : list (jsstring * json)) (error : json) :
  nonempty (apiKeys opt) = true ->
  includes (apiUrl opt) (lit "openai.azure.com") && negb (nonempty (deploymentName opt))
    = false ->
  (forall req, request net req = Resolves resp) ->
  resp_data resp = Some (JObject ms) ->
  lookup_member (lit "error") ms = Some error ->
  truthy rt (Some error) = true ->
  exists req e,
    pluginValidate rt im opt net =
      ([HttpRequest req; HandleValidateError (ArgServiceError e)], None)
    /\ err_message e = Some error
    /\ err_type e =
       (if (400 <=? resp_statusCode resp)%Z && (resp_statusCode resp <? 500)%Z
        then param else api).
Proof.
  intros Hk Hcheck Hnet Hdata Herr Htruthy. unfold pluginValidate.
  rewrite Hk, Hcheck, Hnet. cbn [negb].
  unfold validate_handler_azure, validate_handler_openai.
  rewrite Hdata. cbn [get_field]. rewrite Herr, Htruthy.
  destruct (includes (apiUrl opt) (lit "openai.azure.com"));
    eexists _, _; repeat split.
Qed.

Lemma pluginValidate_reports_error_body_witness :
  exists req e,
    pluginValidate sample_runtime sample_imports sample_option
      (sample_network
         {| resp_data := JSON_parse (litq "{'error':{'message':'Incorrect API key'}}");
            resp_statusCode := 401; resp_error := true;
            resp_stringified := lit "{}" |} []) =
      ([HttpRequest req; HandleValidateError (ArgServiceError e)], None)
    /\ err_message e = Some (JObject [(lit "message", JString (lit "Incorrect API key"))])
    /\ err_type e = param.
Proof.
  refine (pluginValidate_reports_error_body sample_runtime sample_imports
            sample_option _ 
            {| resp_data := JSON_parse (litq "{'error':{'message':'Incorrect API key'}}");
               resp_statusCode := 401; resp_error := true;
               resp_stringified := lit "{}" |}
            [(lit "error", JObject [(lit "message", JString (lit "Incorrect API key"))])]
            (JObject [(lit "message", JString (lit "Incorrect API key"))])
            _ _ _ _ _ _).
  - vm_compute. reflexivity.
  - vm_compute. reflexivity.
  - intros req. reflexivity.
  - vm_compute. reflexivity.
  - vm_compute. reflexivity.
  - reflexivity.
Defined.

Lemma token_reports_delivered (evs : list Event) :
  length (List.filter is_token_report evs) <= length (deliveries evs).
Proof.
  induction evs as [|ev evs IH]; [reflexivity|].
  change (deliveries (ev :: evs))
    with (match delivery_of ev with
          | Some d => d :: deliveries evs
          | None => deliveries evs
          end).
  cbn [List.filter]. destruct (is_token_report ev) eqn:E.
  - destruct ev as [arg| | | | | |]; try discriminate. cbn. lia.
  - destruct (delivery_of ev); cbn; lia.
Qed.

(** X18: in a streaming call every chunk caught by the token check is
    reported through the error handler while the stream goes on, so the
    call completes once for each such chunk and once more at the end of
    the stream. *)
Theorem token_chunks_add_completions (rt : Runtime) (im : Imports)
  (opt : Option) (net : Network) (query : Query) :
  StringNumber_truthy rt (stream opt) = true ->
  length (List.filter is_token_chunk
            (stream_chunks (streamRequest net
               (streaming_request (translate_request im opt query))))) + 1
  <= length (deliveries (translate_async rt im opt net query)).
Proof.
  intros Hs. unfold translate_async. rewrite Hs.
  destruct (feed_kept rt query
              (stream_chunks (streamRequest net
                 (streaming_request (translate_request im opt query))))
              initial_state eq_refl) as (_ & _ & Hcount).
  destruct (feed rt query initial_state _) as [st evs]. cbn [snd] in Hcount.
  change (deliveries (HttpStreamRequest ?r :: ?l)) with (deliveries l).
  rewrite deliveries_app, length_app, <- Hcount.
  pose proof (token_reports_delivered evs).
  assert (1 <= length (deliveries
                 match stream_end (streamRequest net
                         (streaming_request (translate_request im opt query))) with
                 | Resolves result => stream_end_handler query st result
                 | Rejects reason => [HandleGeneralError (ArgRejection reason)]
                 end)).
  { destruct (stream_end _) as [result|reason]; [|cbn; lia].
    unfold stream_end_handler. destruct (400 <=? _)%Z; cbn; lia. }
  lia.
Qed.

Lemma token_chunks_add_completions_witness :
  length (List.filter is_token_chunk
            (stream_chunks
               (streamRequest (sample_network hello_response token_chunks_whole)
                  (streaming_request
                     (translate_request sample_imports
                        (with_stream_option (lit "1") sample_option)
                        sample_query))))) + 1
  <= length (deliveries
               (translate_async sample_runtime sample_imports
                  (with_stream_option (lit "1") sample_option)
                  (sample_network hello_response token_chunks_whole)
                  sample_query)).
Proof.
  apply token_chunks_add_completions. vm_compute. reflexivity.
Defined.
